(** * ol/format/MVT and the tile-cache contracts: a shallow embedding

    The vector-tile decoder of [src/dist/ol/format/MVT.js] is embedded
    function by function: JavaScript numbers that hold integers are integers
    of [Z]; the sums that accumulate coordinates are rounded as a double
    rounds them ([addNumber]: exact up to 2^53, to 53 significant bits
    beyond), while the end of a record, a length plus the cursor, is kept as
    the integer it is, since it is only ever compared with the cursor; the
    32-bit operators [&] and [>>] go through [toInt32], arrays are lists,
    plain objects are lists of their own properties in insertion order, with
    the prototype next to them where the code can change it (an assignment
    under the key "__proto__"), exceptions are the [Throw] outcome of the
    [res] monad and a [while] loop that the source does not bound runs on
    explicit fuel. *)

From Stdlib Require Import ZArith List String Ascii Bool Lia PeanoNat.
From Stdlib Require Import Permutation DecimalString DecimalZ DecimalPos Sorted.
Import ListNotations.
Open Scope Z_scope.

(* ================================================================== *)
(** * Part I: definitions *)
(* ================================================================== *)

(** ** Outcomes of a JavaScript call *)

(** What a call can throw: [assert(false, code)] of ol/asserts throws an
    AssertionError carrying the code; the pbf reader throws plain errors;
    reading a property of [undefined] throws a TypeError. *)
Inductive exn : Type :=
| AssertionError (code : Z)
| Error (message : string)
| TypeError.

(** Code 59 of ol/asserts: "Invalid command found in the PBF". *)
Definition InvalidGeometryCommand : exn := AssertionError 59.

Inductive res (A : Type) : Type :=
| Ok (a : A)
| Throw (e : exn)
| OutOfFuel.
Arguments Ok {A} a.
Arguments Throw {A} e.
Arguments OutOfFuel {A}.

Definition bind {A B : Type} (m : res A) (k : A -> res B) : res B :=
  match m with
  | Ok a => k a
  | Throw e => Throw e
  | OutOfFuel => OutOfFuel
  end.

Notation "x <- m ;; k" := (bind m (fun x => k))
  (at level 61, m at next level, right associativity).
Notation "' pat <- m ;; k" := (bind m (fun x => match x with pat => k end))
  (at level 61, pat pattern, m at next level, right associativity).

(** ** 32-bit integer operators *)

(** ToInt32 of ECMAScript on an integral number. *)
Definition toInt32 (n : Z) : Z :=
  let m := n mod 4294967296 in
  if m <? 2147483648 then m else m - 4294967296.

(** [a & b] *)
Definition bitAnd (a b : Z) : Z := Z.land (toInt32 a) (toInt32 b).

(** [a >> k], the sign-propagating shift. *)
Definition shiftRight (a k : Z) : Z := Z.shiftr (toInt32 a) (k mod 32).

(** ** Sums of numbers *)

(** The double nearest to an integer, ties to the even significand: an
    integer of magnitude below 2^53 is a double; a larger one keeps its 53
    leading bits.  (The largest double, near 2^1024, is out of reach of a
    sum of coordinate deltas: a delta is below 2^63 and a geometry has fewer
    deltas than its buffer has bytes.) *)
Definition roundDouble (v : Z) : Z :=
  let m := Z.abs v in
  if m <? 9007199254740992 then v
  else
    let e := Z.log2 m - 52 in
    let q := m / 2 ^ e in
    let r := m mod 2 ^ e in
    let half := 2 ^ (e - 1) in
    let q' :=
      if r <? half then q
      else if half <? r then q + 1
      else if Z.even q then q else q + 1 in
    Z.sgn v * (q' * 2 ^ e).

(** [a + b] on two numbers that hold integers. *)
Definition addNumber (a b : Z) : Z := roundDouble (a + b).

(** ** The pbf reader

    Modelled from the spec: the [pbf] package that ol/format/MVT imports is
    not among the sources.  The spec (4.4, 6 and the glossary) describes a
    pull-parser over a byte buffer with an internal cursor, varints,
    zig-zag varints and length-delimited records in the protocol-buffer
    wire format; the definitions below follow that description, method by
    method, with the method names the decoder calls. *)
Module Pbf.

Record PBF : Type := mkPBF {
  buf : list Z;      (* the bytes of the tile, each in 0..255 *)
  pos : Z            (* the cursor *)
}.

Definition setPos (p : PBF) (n : Z) : PBF := mkPBF (buf p) n.

(** [pbf.length] *)
Definition len (p : PBF) : Z := Z.of_nat (List.length (buf p)).

(** [buf[i]]: [None] stands for [undefined]. *)
Definition byteAt (b : list Z) (i : Z) : option Z :=
  if i <? 0 then None else nth_error b (Z.to_nat i).

Definition varintError : exn :=
  Error "Expected varint not more than 10 bytes".

(** Base-128 varint of at most ten bytes, least significant group first;
    the value is truncated to 64 bits.  A byte outside the buffer is
    [undefined], which never ends the varint, so the reader runs into its
    ten-byte limit and throws. *)
Fixpoint varintFrom (n : nat) (b : list Z) (i shift acc : Z)
  : res (Z * Z) :=
  match n with
  | O => Throw varintError
  | S n' =>
      match byteAt b i with
      | None => Throw varintError
      | Some byte =>
          let acc' := Z.lor acc (Z.shiftl (Z.land byte 127) shift) in
          if byte <? 128 then Ok (acc' mod 18446744073709551616, i + 1)
          else varintFrom n' b (i + 1) (shift + 7) acc'
      end
  end.

Definition readVarint (p : PBF) : res (Z * PBF) :=
  '(v, i) <- varintFrom 10 (buf p) (pos p) 0 0 ;;
  Ok (v, setPos p i).

(** [readVarint(true)]: the same bytes read as a signed 64-bit value. *)
Definition readVarint64 (p : PBF) : res (Z * PBF) :=
  '(v, q) <- readVarint p ;;
  Ok (if v <? 9223372036854775808 then v else v - 18446744073709551616, q).

(** [num % 2 === 1 ? (num + 1) / -2 : num / 2] *)
Definition zigzag (num : Z) : Z :=
  if num mod 2 =? 1 then - ((num + 1) / 2) else num / 2.

Definition readSVarint (p : PBF) : res (Z * PBF) :=
  '(num, q) <- readVarint p ;;
  Ok (zigzag num, q).

Definition readBoolean (p : PBF) : res (bool * PBF) :=
  '(v, q) <- readVarint p ;;
  Ok (negb (v =? 0), q).

(** The [n] bytes from [i] on, [None] where the buffer has ended. *)
Fixpoint rawBytes (n : nat) (b : list Z) (i : Z) : list (option Z) :=
  match n with
  | O => []
  | S n' => byteAt b i :: rawBytes n' b (i + 1)
  end.

(** [readFloat] and [readDouble] never throw; the IEEE 754 value is kept
    as the bytes it is read from. *)
Definition readFloat (p : PBF) : res (list (option Z) * PBF) :=
  Ok (rawBytes 4 (buf p) (pos p), setPos p (pos p + 4)).

Definition readDouble (p : PBF) : res (list (option Z) * PBF) :=
  Ok (rawBytes 8 (buf p) (pos p), setPos p (pos p + 8)).

Definition charOfByte (byte : Z) : ascii := ascii_of_N (Z.to_N byte).

(** The bytes of the buffer in [i, e), as characters.  The string stands
    for its UTF-8 bytes; bytes that lie beyond the buffer are left out. *)
Definition sliceString (b : list Z) (i e : Z) : string :=
  string_of_list_ascii
    (map charOfByte
       (firstn (Z.to_nat (e - i)) (skipn (Z.to_nat i) b))).

Definition readString (p : PBF) : res (string * PBF) :=
  '(n, q) <- readVarint p ;;
  let e := n + pos q in
  Ok (sliceString (buf q) (pos q) e, setPos q e).

(** [while (this.buf[this.pos++] > 0x7f) {}] *)
Fixpoint skipVarint (n : nat) (b : list Z) (i : Z) : Z :=
  match byteAt b i with
  | Some byte =>
      if 127 <? byte
      then match n with
           | O => i + 1
           | S n' => skipVarint n' b (i + 1)
           end
      else i + 1
  | None => i + 1
  end.

Definition skip (val : Z) (p : PBF) : res PBF :=
  let type := bitAnd val 7 in
  if type =? 0 then Ok (setPos p (skipVarint (List.length (buf p)) (buf p) (pos p)))
  else if type =? 2 then
    '(n, q) <- readVarint p ;; Ok (setPos q (n + pos q))
  else if type =? 5 then Ok (setPos p (pos p + 4))
  else if type =? 1 then Ok (setPos p (pos p + 8))
  else Throw (Error ("Unimplemented type: "
                     ++ String (ascii_of_N (48 + Z.to_N type)) "")).

(** [readFields(readField, result, end)]: every turn of its loop reads at
    least the byte of the field key, so the length of the buffer bounds
    the number of turns. *)
Fixpoint readFieldsLoop {R : Type} (n : nat)
    (readField : Z -> R -> PBF -> res (R * PBF))
    (result : R) (e : Z) (p : PBF) : res (R * PBF) :=
  if pos p <? e then
    match n with
    | O => OutOfFuel
    | S n' =>
        '(val, p1) <- readVarint p ;;
        let tag := shiftRight val 3 in
        let startPos := pos p1 in
        '(result', p2) <- readField tag result p1 ;;
        p3 <- (if pos p2 =? startPos then skip val p2 else Ok p2) ;;
        readFieldsLoop n' readField result' e p3
    end
  else Ok (result, p).

(** [end = end || this.length] *)
Definition readFields {R : Type}
    (readField : Z -> R -> PBF -> res (R * PBF))
    (result : R) (e : option Z) (p : PBF) : res (R * PBF) :=
  let e' := match e with
            | Some v => if v =? 0 then len p else v
            | None => len p
            end in
  readFieldsLoop (S (List.length (buf p))) readField result e' p.

End Pbf.
Import Pbf.

(** ** JavaScript objects used as maps

    The own string-keyed properties of a plain object, in creation order.
    [objSet] creates an own property or updates it in its place, and [forIn]
    is the order in which [for (name in o)] visits the own properties:
    array-index keys first, in ascending numeric order, then the other keys
    in creation order.  An assignment [o[k] = v] is [objSet] for every key
    but "__proto__", which reaches the accessor of Object.prototype as long
    as the object inherits it: the assignments of the code are modelled
    where they stand ([setLayer], [setProperty]), and so is the [for ... in]
    loop over an object whose prototype was replaced ([forInLayers]). *)
Definition JsObject (V : Type) : Type := list (string * V).

(** The key of the accessor. *)
Definition protoKey : string := "__proto__".

Fixpoint objSet {V : Type} (k : string) (v : V) (o : JsObject V) : JsObject V :=
  match o with
  | [] => [(k, v)]
  | (k', v') :: rest =>
      if String.eqb k k' then (k, v) :: rest
      else (k', v') :: objSet k v rest
  end.

Fixpoint objGet {V : Type} (k : string) (o : JsObject V) : option V :=
  match o with
  | [] => None
  | (k', v') :: rest => if String.eqb k k' then Some v' else objGet k rest
  end.

Definition isDigit (c : ascii) : bool :=
  let n := N_of_ascii c in (48 <=? n)%N && (n <=? 57)%N.

Fixpoint digitsValue (acc : N) (cs : list ascii) : N :=
  match cs with
  | [] => acc
  | c :: cs' => digitsValue (acc * 10 + (N_of_ascii c - 48))%N cs'
  end.

(** A canonical array index: decimal digits without a leading zero, below
    2^32 - 1. *)
Definition arrayIndex (k : string) : option N :=
  let cs := list_ascii_of_string k in
  match cs with
  | [] => None
  | c :: rest =>
      if forallb isDigit cs
         && (negb (N_of_ascii c =? 48)%N || (List.length rest =? 0)%nat)
         && (List.length cs <=? 10)%nat
         && (digitsValue 0 cs <? 4294967295)%N
      then Some (digitsValue 0 cs)
      else None
  end.

Fixpoint insertIndexed {V : Type} (e : N * (string * V))
    (l : list (N * (string * V))) : list (N * (string * V)) :=
  match l with
  | [] => [e]
  | e' :: l' =>
      if (fst e <=? fst e')%N then e :: l else e' :: insertIndexed e l'
  end.

Fixpoint splitKeys {V : Type} (o : JsObject V)
  : list (N * (string * V)) * JsObject V :=
  match o with
  | [] => ([], [])
  | kv :: rest =>
      let '(ix, named) := splitKeys rest in
      match arrayIndex (fst kv) with
      | Some n => (insertIndexed (n, kv) ix, named)
      | None => (ix, kv :: named)
      end
  end.

(** The properties of [o] in the order [for ... in] visits them. *)
Definition forIn {V : Type} (o : JsObject V) : list (string * V) :=
  let '(ix, named) := splitKeys o in map snd ix ++ named.

(** ** Geometry values: ol/geom/GeometryType and the geometry classes *)

Inductive GeometryType : Type :=
| POINT | LINE_STRING | POLYGON | MULTI_POINT | MULTI_LINE_STRING
| MULTI_POLYGON.

Definition GeometryType_eqb (a b : GeometryType) : bool :=
  match a, b with
  | POINT, POINT | LINE_STRING, LINE_STRING | POLYGON, POLYGON
  | MULTI_POINT, MULTI_POINT | MULTI_LINE_STRING, MULTI_LINE_STRING
  | MULTI_POLYGON, MULTI_POLYGON => true
  | _, _ => false
  end.

(** The geometry objects [createFeature_] constructs, each with the arguments
    of its constructor call (the layout is always [GeometryLayout.XY]). *)
Inductive Geometry : Type :=
| Point (flatCoordinates : list Z)
| LineString (flatCoordinates : list Z)
| Polygon (flatCoordinates : list Z) (ends : list Z)
| MultiPoint (flatCoordinates : list Z)
| MultiLineString (flatCoordinates : list Z) (ends : list Z)
| MultiPolygon (flatCoordinates : list Z) (endss : list (list Z)).

Definition getType (g : Geometry) : GeometryType :=
  match g with
  | Point _ => POINT
  | LineString _ => LINE_STRING
  | Polygon _ _ => POLYGON
  | MultiPoint _ => MULTI_POINT
  | MultiLineString _ _ => MULTI_LINE_STRING
  | MultiPolygon _ _ => MULTI_POLYGON
  end.

(** A decoded property value; [VNull] is JavaScript's [null]. *)
Inductive value : Type :=
| VNull
| VString (s : string)
| VFloat (bytes : list (option Z))
| VDouble (bytes : list (option Z))
| VNumber (n : Z)
| VBoolean (b : bool).

(** [a[i]] on an array: [None] is [undefined]. *)
Definition index {A : Type} (a : list A) (i : Z) : option A :=
  if i <? 0 then None else nth_error a (Z.to_nat i).

(** ** Raw layers and raw features *)
Module RawLayer.
Record t : Type := mk {
  keys : list string;
  values : list value;
  features : list Z;          (* byte offsets, one per feature *)
  version : option Z;
  name : option string;
  extent : option Z;
  length : Z;
  order : list string         (* "version", "name", "extent" as created *)
}.
(** [{keys: [], values: [], features: []}] *)
Definition empty : t := mk [] [] [] None None None 0 [].
(** The own properties after [keys], [values] and [features], in creation
    order, once [layer.name = v] was run. *)
Definition created (name : string) (order : list string) : list string :=
  if existsb (String.eqb name) order then order else order ++ [name].
End RawLayer.

Module RawFeature.
Record t : Type := mk {
  layer : RawLayer.t;
  type : Z;
  properties : JsObject (option value);
  id : option Z;
  geometry : option Z;        (* byte offset of the command stream *)
  nullProto : bool            (* the prototype of [properties] is null *)
}.
End RawFeature.

(** A property name that is [undefined] becomes the key "undefined". *)
Definition propertyKey (k : option string) : string :=
  match k with
  | Some s => s
  | None => "undefined"%string
  end.

(** [properties[key] = v] on the properties of a feature, a plain object
    whose values are primitives, [null] or [undefined]; next to the own
    properties, whether the prototype of the object is null.  The key
    "__proto__" reaches the accessor that a plain object inherits from
    Object.prototype: a [null] becomes the prototype, any other of these
    values is ignored, and no own property is made.  Once the prototype is
    null the accessor is out of reach and "__proto__" is a key like any
    other. *)
Definition setProperty (key : string) (v : option value)
    (o : JsObject (option value) * bool) : JsObject (option value) * bool :=
  let '(properties, nullProto) := o in
  if String.eqb key protoKey && negb nullProto then
    match v with
    | Some VNull => (properties, true)
    | _ => (properties, false)
    end
  else (objSet key v properties, nullProto).

(** ** [readRawGeometry_] *)
Module RawGeometry.

(** The local variables of [readRawGeometry_] and the two arrays it
    appends to. *)
Record state : Type := mk {
  pbf : PBF;
  cmd : Z;
  length : Z;
  x : Z;
  y : Z;
  coordsLen : Z;
  currentEnd : Z;
  flatCoordinates : list Z;
  ends : list Z
}.

(** [flatCoordinates[i]] where the loop reads it back; the index is always
    inside the array there (see [closePath_index_in_range]). *)
Definition coordAt (flat : list Z) (i : Z) : Z := nth (Z.to_nat i) flat 0.

(** [if (!length) { cmdLen = pbf.readVarint(); cmd = cmdLen & 0x7;
    length = cmdLen >> 3; }  length--;] *)
Definition readCommand (s : state) : res state :=
  s1 <- (if length s =? 0 then
           '(cmdLen, p) <- readVarint (pbf s) ;;
           Ok (mk p (bitAnd cmdLen 7) (shiftRight cmdLen 3) (x s) (y s)
                  (coordsLen s) (currentEnd s) (flatCoordinates s) (ends s))
         else Ok s) ;;
  Ok (mk (pbf s1) (cmd s1) (length s1 - 1) (x s1) (y s1)
         (coordsLen s1) (currentEnd s1) (flatCoordinates s1) (ends s1)).

(** The branch [cmd === 1 || cmd === 2]. *)
Definition moveOrLineTo (s : state) : res state :=
  '(dx, p1) <- readSVarint (pbf s) ;;
  '(dy, p2) <- readSVarint p1 ;;
  let x' := addNumber (x s) dx in
  let y' := addNumber (y s) dy in
  let closes := (cmd s =? 1) && (currentEnd s <? coordsLen s) in
  let ends' := if closes then ends s ++ [coordsLen s] else ends s in
  let currentEnd' := if closes then coordsLen s else currentEnd s in
  Ok (mk p2 (cmd s) (length s) x' y' (coordsLen s + 2) currentEnd'
         (flatCoordinates s ++ [x'; y']) ends').

(** The branch [cmd === 7]. *)
Definition closePath (s : state) : state :=
  if currentEnd s <? coordsLen s then
    mk (pbf s) (cmd s) (length s) (x s) (y s) (coordsLen s + 2)
       (currentEnd s)
       (flatCoordinates s
          ++ [coordAt (flatCoordinates s) (currentEnd s);
              coordAt (flatCoordinates s) (currentEnd s + 1)])
       (ends s)
  else s.

(** One turn of the [while] loop. *)
Definition iteration (s : state) : res state :=
  s1 <- readCommand s ;;
  if (cmd s1 =? 1) || (cmd s1 =? 2) then moveOrLineTo s1
  else if cmd s1 =? 7 then Ok (closePath s1)
  else Throw InvalidGeometryCommand.

(** [while (pbf.pos < end) { ... }]; nothing in the source bounds the
    number of turns, so the loop runs on fuel. *)
Fixpoint loop (fuel : nat) (e : Z) (s : state) : res state :=
  if pos (pbf s) <? e then
    match fuel with
    | O => OutOfFuel
    | S fuel' => s' <- iteration s ;; loop fuel' e s'
    end
  else Ok s.

(** The state on entering the loop. *)
Definition init (p : PBF) (flat ends0 : list Z) : state :=
  mk p 1 0 0 0 0 0 flat ends0.

(** The flush after the loop. *)
Definition finish (s : state) : state :=
  if currentEnd s <? coordsLen s then
    mk (pbf s) (cmd s) (length s) (x s) (y s) (coordsLen s) (coordsLen s)
       (flatCoordinates s) (ends s ++ [coordsLen s])
  else s.

End RawGeometry.

(** [readRawGeometry_(pbf, feature, flatCoordinates, ends)]; the result is
    the reader and the two arrays after the call.  A feature without a
    geometry field has [feature.geometry] undefined: the cursor is then not a
    position of the buffer and the first [readVarint] throws. *)
Definition readRawGeometry_ (fuel : nat) (p : PBF) (feature : RawFeature.t)
    (flatCoordinates ends : list Z) : res (PBF * list Z * list Z) :=
  match RawFeature.geometry feature with
  | None => Throw varintError
  | Some g =>
      let p0 := setPos p g in
      '(n, p1) <- readVarint p0 ;;
      let e := n + pos p1 in
      s <- RawGeometry.loop fuel e (RawGeometry.init p1 flatCoordinates ends) ;;
      let s' := RawGeometry.finish s in
      Ok (RawGeometry.pbf s', RawGeometry.flatCoordinates s',
          RawGeometry.ends s')
  end.

(** [getGeometryType(type, numEnds)]; [None] is [undefined]. *)
Definition getGeometryType (type numEnds : Z) : option GeometryType :=
  if type =? 1 then
    Some (if numEnds =? 1 then POINT else MULTI_POINT)
  else if type =? 2 then
    Some (if numEnds =? 1 then LINE_STRING else MULTI_LINE_STRING)
  else if type =? 3 then
    Some POLYGON
  else None.

(** ** Ring orientation: ol/geom/flat/orient

    Modelled from the spec: [linearRingIsClockwise] is imported from
    ol/geom/flat/orient.js, which is not among the sources.  The spec (4.4)
    has the rings told apart "by testing each ring's signed area / winding
    order"; the definition is the signed edge sum over the ring's
    coordinates, positive for a ring that runs clockwise when the y axis
    points up.  Tile coordinates have the y axis pointing down, so for a
    ring drawn clockwise in the tile (an exterior ring) the test answers
    [false], and [true] for a counter-clockwise one (a hole). *)
Fixpoint edgeSum (n : nat) (flat : list Z) (offset stride : Z)
    (x1 y1 edge : Z) : Z :=
  match n with
  | O => edge
  | S n' =>
      let x2 := RawGeometry.coordAt flat offset in
      let y2 := RawGeometry.coordAt flat (offset + 1) in
      edgeSum n' flat (offset + stride) stride x2 y2
        (edge + (x2 - x1) * (y2 + y1))
  end.

(** The loop [for (; offset < end; offset += stride)] of the test takes
    [(end - offset + stride - 1) / stride] turns; [createFeature_] calls it
    on rings that lie inside [flatCoordinates]. *)
Definition linearRingIsClockwise (flat : list Z) (offset e stride : Z)
  : bool :=
  let x1 := RawGeometry.coordAt flat (e - stride) in
  let y1 := RawGeometry.coordAt flat (e - stride + 1) in
  0 <? edgeSum (Z.to_nat ((e - offset + stride - 1) / stride)) flat offset
         stride x1 y1 0.

(** ** The format object and the features it creates *)

(** [options.featureClass]: the default [RenderFeature] of ol/render/Feature,
    or a class with the interface of ol/Feature. *)
Inductive FeatureClass : Type :=
| RenderFeature
| Feature.

Record MVT : Type := mkMVT {
  featureClass_ : FeatureClass;
  geometryName_ : option string;
  layerName_ : string;
  layers_ : option (list string);
  extent_ : option (list (option Z))
}.

(** [new MVT(opt_options)] with no options. *)
Definition defaultMVT : MVT := mkMVT RenderFeature None "layer" None None.

(** What [createFeature_] builds: a render feature from its constructor
    arguments, or a feature after [setGeometryName], [setGeometry], [setId]
    and [setProperties].  Of the object [values] that is handed over,
    [properties] are the own properties. *)
Inductive FeatureObject : Type :=
| NewRenderFeature (type : option GeometryType) (flatCoordinates : list Z)
    (ends : list Z) (properties : JsObject (option value)) (id : option Z)
| NewFeature (geometryName : option string) (geometry : option Geometry)
    (id : option Z) (properties : JsObject (option value)).

(** [ends.slice(a, b)] *)
Definition slice {A : Type} (l : list A) (a b : Z) : list A :=
  firstn (Z.to_nat (b - a)) (skipn (Z.to_nat a) l).

(** The [for] loop of [createFeature_] over the rings, from index [i] on;
    [rest] is [ends] from index [i]. *)
Fixpoint ringLoop (flat ends rest : list Z) (i offset prevEndIndex : Z)
    (endss : list (list Z)) : list (list Z) :=
  match rest with
  | [] => endss
  | e :: rest' =>
      if negb (linearRingIsClockwise flat offset e 2)
      then ringLoop flat ends rest' (i + 1) e i
             (endss ++ [slice ends prevEndIndex i])
      else ringLoop flat ends rest' (i + 1) e prevEndIndex endss
  end.

Definition polygonEndss (flat ends : list Z) : list (list Z) :=
  ringLoop flat ends ends 0 0 0 [].

(** The geometry built when the feature class is not [RenderFeature]. *)
Definition createGeometry (geometryType : option GeometryType)
    (flat ends : list Z) : option Geometry :=
  match geometryType with
  | Some POLYGON =>
      let endss := polygonEndss flat ends in
      if (1 <? List.length endss)%nat then Some (MultiPolygon flat endss)
      else Some (Polygon flat ends)
  | Some POINT => Some (Point flat)
  | Some LINE_STRING => Some (LineString flat)
  | Some MULTI_POINT => Some (MultiPoint flat)
  | Some MULTI_LINE_STRING => Some (MultiLineString flat ends)
  | _ => None
  end.

(** [if (this.geometryName_)]: the empty string is falsy. *)
Definition truthyName (n : option string) : option string :=
  match n with
  | Some s => if String.eqb s "" then None else Some s
  | None => None
  end.

(** [createFeature_(pbf, rawFeature)]; [None] is the [null] feature.
    [readFeatures] passes no read options, so [transformWithOptions] hands
    the geometry back as it is. *)
Definition createFeature_ (fuel : nat) (this : MVT) (p : PBF)
    (rawFeature : RawFeature.t) : res (PBF * option FeatureObject) :=
  let type := RawFeature.type rawFeature in
  if type =? 0 then Ok (p, None)
  else
    let id := RawFeature.id rawFeature in
    let values :=
      fst (setProperty (layerName_ this)
             (option_map VString
                (RawLayer.name (RawFeature.layer rawFeature)))
             (RawFeature.properties rawFeature,
              RawFeature.nullProto rawFeature)) in
    '(p', flatCoordinates, ends) <- readRawGeometry_ fuel p rawFeature [] [] ;;
    let geometryType :=
      getGeometryType type (Z.of_nat (List.length ends)) in
    match featureClass_ this with
    | RenderFeature =>
        Ok (p', Some (NewRenderFeature geometryType flatCoordinates ends
                        values id))
    | Feature =>
        let geom := createGeometry geometryType flatCoordinates ends in
        Ok (p', Some (NewFeature (truthyName (geometryName_ this)) geom id
                        values))
    end.

(** ** The layers object *)

Module Layers.
(** The object [pbfLayers] that [readFeatures] fills: its own properties,
    which are layers, and the layer that an assignment under "__proto__"
    made its prototype, if there was one. *)
Record t : Type := mk {
  own : JsObject RawLayer.t;
  prototype : option RawLayer.t
}.
(** [{}] *)
Definition empty : t := mk [] None.
End Layers.

(** [layers[layer.name] = layer]: under the name "__proto__" the assignment
    reaches the accessor, and the layer, an object, becomes the prototype of
    [layers]; under any other name it makes or updates an own property. *)
Definition setLayer (layer : RawLayer.t) (layers : Layers.t) : Layers.t :=
  let key := propertyKey (RawLayer.name layer) in
  if String.eqb key protoKey
  then Layers.mk (Layers.own layers) (Some layer)
  else Layers.mk (objSet key layer (Layers.own layers))
         (Layers.prototype layers).

(** What [pbfLayers[name]] can be: a layer, or a property of the layer that
    is the prototype, which is an array, a number or a string. *)
Inductive LayerSlot : Type :=
| SlotLayer (layer : RawLayer.t)
| SlotArray (length : Z)
| SlotNumber (n : Z)
| SlotString (s : string).

(** The property of a layer object that [layerPBFReader] created under
    [name]. *)
Definition layerField (layer : RawLayer.t) (name : string)
  : option LayerSlot :=
  if String.eqb name "version"
  then option_map SlotNumber (RawLayer.version layer)
  else if String.eqb name "name"
  then option_map SlotString (RawLayer.name layer)
  else if String.eqb name "extent"
  then option_map SlotNumber (RawLayer.extent layer)
  else None.

(** The own properties of a layer object, in creation order: [keys],
    [values] and [features] of the literal, the properties that
    [layerPBFReader] created, and [length]. *)
Definition layerProperties (layer : RawLayer.t)
  : list (string * LayerSlot) :=
  [("keys"%string, SlotArray (Z.of_nat (List.length (RawLayer.keys layer))));
   ("values"%string,
    SlotArray (Z.of_nat (List.length (RawLayer.values layer))));
   ("features"%string,
    SlotArray (Z.of_nat (List.length (RawLayer.features layer))))]
  ++ flat_map (fun name => match layerField layer name with
                           | Some slot => [(name, slot)]
                           | None => []
                           end) (RawLayer.order layer)
  ++ [("length"%string, SlotNumber (RawLayer.length layer))].

(** The properties of the prototype that [for (name in pbfLayers)] visits
    after the own ones: those that no own property hides. *)
Definition inherited (layers : Layers.t) : list (string * LayerSlot) :=
  match Layers.prototype layers with
  | None => []
  | Some proto =>
      filter (fun ns => negb (existsb (String.eqb (fst ns))
                                (map fst (Layers.own layers))))
        (layerProperties proto)
  end.

(** [for (name in pbfLayers)] with [pbfLayers[name]] next to each name. *)
Definition forInLayers (layers : Layers.t) : list (string * LayerSlot) :=
  map (fun kl => (fst kl, SlotLayer (snd kl))) (forIn (Layers.own layers))
  ++ inherited layers.

(** ** The reader callbacks *)

(** The conditional chain of [layerPBFReader] that decodes one property
    value by its tag. *)
Definition readValue (tag : Z) (p : PBF) : res (value * PBF) :=
  if tag =? 1 then '(s, q) <- readString p ;; Ok (VString s, q)
  else if tag =? 2 then '(b, q) <- readFloat p ;; Ok (VFloat b, q)
  else if tag =? 3 then '(b, q) <- readDouble p ;; Ok (VDouble b, q)
  else if tag =? 4 then '(n, q) <- readVarint64 p ;; Ok (VNumber n, q)
  else if tag =? 5 then '(n, q) <- readVarint p ;; Ok (VNumber n, q)
  else if tag =? 6 then '(n, q) <- readSVarint p ;; Ok (VNumber n, q)
  else if tag =? 7 then '(b, q) <- readBoolean p ;; Ok (VBoolean b, q)
  else Ok (VNull, p).

(** [while (pbf.pos < end) { tag = pbf.readVarint() >> 3; value = ... }];
    every turn reads at least one byte. *)
Fixpoint valueLoop (n : nat) (e : Z) (v : value) (p : PBF)
  : res (value * PBF) :=
  if pos p <? e then
    match n with
    | O => OutOfFuel
    | S n' =>
        '(k, p1) <- readVarint p ;;
        '(v', p2) <- readValue (shiftRight k 3) p1 ;;
        valueLoop n' e v' p2
    end
  else Ok (v, p).

Definition layerPBFReader (tag : Z) (layer : RawLayer.t) (p : PBF)
  : res (RawLayer.t * PBF) :=
  let '(RawLayer.mk keys values features version name extent length order) :=
    layer in
  if tag =? 15 then
    '(v, q) <- readVarint p ;;
    Ok (RawLayer.mk keys values features (Some v) name extent length
          (RawLayer.created "version" order), q)
  else if tag =? 1 then
    '(s, q) <- readString p ;;
    Ok (RawLayer.mk keys values features version (Some s) extent length
          (RawLayer.created "name" order), q)
  else if tag =? 5 then
    '(v, q) <- readVarint p ;;
    Ok (RawLayer.mk keys values features version name (Some v) length
          (RawLayer.created "extent" order), q)
  else if tag =? 2 then
    Ok (RawLayer.mk keys values (features ++ [pos p]) version name extent
          length order, p)
  else if tag =? 3 then
    '(s, q) <- readString p ;;
    Ok (RawLayer.mk (keys ++ [s]) values features version name extent
          length order, q)
  else if tag =? 4 then
    '(n, p1) <- readVarint p ;;
    let e := n + pos p1 in
    '(v, p2) <- valueLoop (S (List.length (buf p1))) e VNull p1 ;;
    Ok (RawLayer.mk keys (values ++ [v]) features version name extent
          length order, p2)
  else Ok (layer, p).

Definition layersPBFReader (tag : Z) (layers : Layers.t) (p : PBF)
  : res (Layers.t * PBF) :=
  if tag =? 3 then
    '(n, p1) <- readVarint p ;;
    let e := n + pos p1 in
    '(layer, p2) <- readFields layerPBFReader RawLayer.empty (Some e) p1 ;;
    let '(RawLayer.mk keys values features version name extent _ order) :=
      layer in
    let length := Z.of_nat (List.length features) in
    let layer' :=
      RawLayer.mk keys values features version name extent length order in
    if length =? 0 then Ok (layers, p2)
    else Ok (setLayer layer' layers, p2)
  else Ok (layers, p).

(** The [while] loop of [featurePBFReader] over the index pairs. *)
Fixpoint propertiesLoop (n : nat) (e : Z) (feature : RawFeature.t) (p : PBF)
  : res (RawFeature.t * PBF) :=
  if pos p <? e then
    match n with
    | O => OutOfFuel
    | S n' =>
        '(ki, p1) <- readVarint p ;;
        '(vi, p2) <- readVarint p1 ;;
        let key := index (RawLayer.keys (RawFeature.layer feature)) ki in
        let v := index (RawLayer.values (RawFeature.layer feature)) vi in
        let '(RawFeature.mk layer type properties id geometry nullProto) :=
          feature in
        propertiesLoop n' e
          (RawFeature.mk layer type
             (fst (setProperty (propertyKey key) v (properties, nullProto)))
             id geometry
             (snd (setProperty (propertyKey key) v (properties, nullProto))))
          p2
    end
  else Ok (feature, p).

Definition featurePBFReader (tag : Z) (feature : RawFeature.t) (p : PBF)
  : res (RawFeature.t * PBF) :=
  let '(RawFeature.mk layer type properties id geometry nullProto) :=
    feature in
  if tag =? 1 then
    '(v, q) <- readVarint p ;;
    Ok (RawFeature.mk layer type properties (Some v) geometry nullProto, q)
  else if tag =? 2 then
    '(n, p1) <- readVarint p ;;
    propertiesLoop (S (List.length (buf p1))) (n + pos p1) feature p1
  else if tag =? 3 then
    '(v, q) <- readVarint p ;;
    Ok (RawFeature.mk layer v properties id geometry nullProto, q)
  else if tag =? 4 then
    Ok (RawFeature.mk layer type properties id (Some (pos p)) nullProto, p)
  else Ok (feature, p).

(** [readRawFeature(pbf, layer, i)], for [i] below [layer.length]. *)
Definition readRawFeature (p : PBF) (layer : RawLayer.t) (i : Z)
  : res (RawFeature.t * PBF) :=
  match index (RawLayer.features layer) i with
  | None => Throw varintError
  | Some offset =>
      '(n, p1) <- readVarint (setPos p offset) ;;
      let e := n + pos p1 in
      readFields featurePBFReader (RawFeature.mk layer 0 [] None None false)
        (Some e) p1
  end.

(** ** [readFeatures] *)

(** The inner loop over the features of one layer:
    [features.push(this.createFeature_(pbf, rawFeature))]. *)
Fixpoint layerFeatures (fuel : nat) (this : MVT) (layer : RawLayer.t)
    (count : nat) (i : Z) (p : PBF) (features : list (option FeatureObject))
  : res (PBF * list (option FeatureObject)) :=
  match count with
  | O => Ok (p, features)
  | S count' =>
      '(rawFeature, p1) <- readRawFeature p layer i ;;
      '(p2, f) <- createFeature_ fuel this p1 rawFeature ;;
      layerFeatures fuel this layer count' (i + 1) p2 (features ++ [f])
  end.

(** [layers && layers.indexOf(name) == -1] *)
Definition skipsLayer (this : MVT) (name : string) : bool :=
  match layers_ this with
  | Some layers => negb (existsb (String.eqb name) layers)
  | None => false
  end.

(** The loop [for (var i = 0, ii = pbfLayer.length; i < ii; ++i)] on what
    [pbfLayers[name]] is.  On a layer it is [layerFeatures].  An array or a
    string has a length too, and when that is positive the first turn
    throws: [readRawFeature] reads [layer.features[i]], and [layer.features]
    is undefined.  The length of a number is undefined and the loop takes no
    turn.  (The string is the name of the prototype layer, "__proto__".) *)
Definition slotFeatures (fuel : nat) (this : MVT) (slot : LayerSlot)
    (p : PBF) (features : list (option FeatureObject))
  : res (PBF * list (option FeatureObject)) :=
  match slot with
  | SlotLayer layer =>
      layerFeatures fuel this layer (Z.to_nat (RawLayer.length layer)) 0 p
        features
  | SlotArray length =>
      if 0 <? length then Throw TypeError else Ok (p, features)
  | SlotNumber _ => Ok (p, features)
  | SlotString s =>
      if (0 <? String.length s)%nat then Throw TypeError
      else Ok (p, features)
  end.

(** [pbfLayer ? [0, 0, pbfLayer.extent, pbfLayer.extent] : null]: only a
    layer has an [extent]; the number 0 and the empty string are falsy. *)
Definition slotExtent (slot : LayerSlot) : option (list (option Z)) :=
  match slot with
  | SlotLayer layer =>
      Some [Some 0; Some 0; RawLayer.extent layer; RawLayer.extent layer]
  | SlotArray _ => Some [Some 0; Some 0; None; None]
  | SlotNumber n =>
      if n =? 0 then None else Some [Some 0; Some 0; None; None]
  | SlotString s =>
      if String.eqb s "" then None else Some [Some 0; Some 0; None; None]
  end.

(** The outer loop [for (var name in pbfLayers)]. *)
Fixpoint layersLoop (fuel : nat) (this : MVT)
    (pbfLayers : list (string * LayerSlot)) (p : PBF)
    (features : list (option FeatureObject))
  : res (MVT * list (option FeatureObject)) :=
  match pbfLayers with
  | [] => Ok (this, features)
  | (name, pbfLayer) :: rest =>
      if skipsLayer this name then layersLoop fuel this rest p features
      else
        '(p', features') <- slotFeatures fuel this pbfLayer p features ;;
        let this' :=
          mkMVT (featureClass_ this) (geometryName_ this) (layerName_ this)
            (layers_ this) (slotExtent pbfLayer) in
        layersLoop fuel this' rest p' features'
  end.

(** [readFeatures(source)]: the format after the call (its [extent_] is
    assigned) and the array it returns.  [fuel] bounds the turns of each
    geometry loop. *)
Definition readFeatures (fuel : nat) (this : MVT) (source : list Z)
  : res (MVT * list (option FeatureObject)) :=
  let p := mkPBF source 0 in
  '(pbfLayers, p1) <- readFields layersPBFReader Layers.empty None p ;;
  layersLoop fuel this (forInLayers pbfLayers) p1 [].

(** ** The rules of the specification, in its own words

    Two definitions that follow the text of the specification instead of the
    source, to be compared with the source's. *)





(** A ring is an exterior ring when it is drawn clockwise in the tile, which
    is when the orientation test answers [false]. *)
Definition exteriorRing (flat : list Z) (offset e : Z) : bool :=
  negb (linearRingIsClockwise flat offset e 2).

Definition appendToLast (polygons : list (list Z)) (e : Z)
  : list (list Z) :=
  match List.rev polygons with
  | [] => [[e]]
  | last :: before => List.rev before ++ [last ++ [e]]
  end.

(** "A ring wound clockwise starts a new polygon (exterior ring),
    counter-clockwise rings are interior holes appended to the current
    polygon." *)
Fixpoint partitionRings (flat : list Z) (offset : Z) (rings : list Z)
    (polygons : list (list Z)) : list (list Z) :=
  match rings with
  | [] => polygons
  | e :: rest =>
      if exteriorRing flat offset e
      then partitionRings flat e rest (polygons ++ [[e]])
      else partitionRings flat e rest (appendToLast polygons e)
  end.

(** How many of the rings are exterior rings. *)
Fixpoint countExterior (flat : list Z) (offset : Z) (rings : list Z) : nat :=
  match rings with
  | [] => O
  | e :: rest =>
      ((if exteriorRing flat offset e then 1 else 0)
       + countExterior flat e rest)%nat
  end.

(** ** Tile coordinate codec

    Modelled from the spec: ol/tilecoord.js is not among the sources (only
    the test that calls [fromKey] is).  The spec (3, 4.3) gives the key as
    [z + "/" + x + "/" + y], asks for [fromKey] to be the exact inverse and
    to fail with [MalformedKey] on structurally invalid input. *)

(** The failures the specification names for the codec and the cache. *)
Inductive failure : Type :=
| MalformedKey
| NotFound
| EmptyCache.

Inductive result (A : Type) : Type :=
| Done (a : A)
| Fail (f : failure).
Arguments Done {A} a.
Arguments Fail {A} f.

Module TileCoord.

(** [(z, x, y)] *)
Definition t : Type := (Z * Z * Z)%type.

(** The decimal text of a number, as string concatenation produces it. *)
Definition printZ (n : Z) : string := NilZero.string_of_int (Z.to_int n).

(** Only the text that [printZ] produces is a number: no empty part, no
    sign without digits, no leading zero, no "-0". *)
Definition parseZ (s : string) : option Z :=
  match NilZero.int_of_string s with
  | Some d =>
      let n := Z.of_int d in
      if String.eqb (printZ n) s then Some n else None
  | None => None
  end.

Definition slash : ascii := "/"%char.

Definition toKey (z x y : Z) : string :=
  (printZ z ++ String slash (printZ x ++ String slash (printZ y)))%string.

(** [s.split(c)] *)
Fixpoint splitOn (c : ascii) (s : string) : list string :=
  match s with
  | EmptyString => [EmptyString]
  | String a s' =>
      if Ascii.eqb a c then EmptyString :: splitOn c s'
      else match splitOn c s' with
           | h :: tl => String a h :: tl
           | [] => [String a EmptyString]
           end
  end.

Definition fromKey (key : string) : result t :=
  match splitOn slash key with
  | [a; b; c] =>
      match parseZ a, parseZ b, parseZ c with
      | Some z, Some x, Some y => Done (z, x, y)
      | _, _, _ => Fail MalformedKey
      end
  | _ => Fail MalformedKey
  end.

End TileCoord.

(** ** Resource load state machine

    Modelled from the spec: ol/renderer/Layer.js ([loadImage]) and
    ol/Image.js are not among the sources (only the test of [loadImage]
    is).  The spec (4.1) gives the states, the transitions and the contract
    of [ensureLoaded]. *)
Module Resource.

Inductive State : Type := IDLE | LOADING | LOADED | ERROR | EMPTY.

(** A resource: its state, the pending [change] listeners in the order
    they were registered, and how many times its fetch was triggered. *)
Record t (L : Type) : Type := mk {
  state : State;
  listeners : list L;
  fetches : nat
}.
Arguments mk {L} _ _ _.
Arguments state {L} _.
Arguments listeners {L} _.
Arguments fetches {L} _.

(** A resource as its source creates it. *)
Definition create {L : Type} : t L := mk IDLE [] O.

(** [ensureLoaded(resource)], called with the listener that re-invokes the
    caller's render-retry path. *)
Definition ensureLoaded {L : Type} (retry : L) (r : t L) : bool * t L :=
  match state r with
  | LOADED | EMPTY => (true, r)
  | IDLE => (false, mk LOADING (listeners r ++ [retry]) (S (fetches r)))
  | LOADING => (false, r)
  | ERROR => (false, r)
  end.

(** The completion event of the fetch: a LOADING resource becomes LOADED
    or ERROR, the registered listeners are notified once and the list is
    cleared.  The result is the listeners notified and the resource. *)
Definition complete {L : Type} (ok : bool) (r : t L) : list L * t L :=
  match state r with
  | LOADING =>
      (listeners r, mk (if ok then LOADED else ERROR) [] (fetches r))
  | _ => ([], r)
  end.

(** What can happen to a resource. *)
Inductive event (L : Type) : Type :=
| EnsureLoaded (retry : L)
| Complete (ok : bool).
Arguments EnsureLoaded {L} retry.
Arguments Complete {L} ok.

Definition step {L : Type} (r : t L) (ev : event L) : t L :=
  match ev with
  | EnsureLoaded retry => snd (ensureLoaded retry r)
  | Complete ok => snd (complete ok r)
  end.

Definition run {L : Type} (evs : list (event L)) (r : t L) : t L :=
  fold_left step evs r.

End Resource.

(** ** Tile cache

    Modelled from the spec: the tile cache (ol/TileCache.js and the
    structure it extends) is not among the sources.  The spec (3, 4.2)
    gives the operations: the entries are kept from the most recently
    touched one to the least recently touched one. *)
Module Cache.

Section WithValue.
Variable V : Type.

(** Entries, most recently touched first. *)
Definition t : Type := list (string * V).

Definition count (c : t) : nat := List.length c.

Definition remove (key : string) (c : t) : t :=
  filter (fun e => negb (String.eqb key (fst e))) c.

(** [set(key, resource)]: inserts or replaces; the entry becomes the
    first one. *)
Definition set (key : string) (v : V) (c : t) : t :=
  (key, v) :: remove key c.

(** [get(key)]: does not alter the recency order. *)
Fixpoint get (key : string) (c : t) : result V :=
  match c with
  | [] => Fail NotFound
  | (k, v) :: rest => if String.eqb key k then Done v else get key rest
  end.

Definition peekFirstKey (c : t) : result string :=
  match c with
  | [] => Fail EmptyCache
  | (k, _) :: _ => Done k
  end.

Definition peekLastKey (c : t) : result string :=
  match List.rev c with
  | [] => Fail EmptyCache
  | (k, _) :: _ => Done k
  end.

(** Membership in the set of active keys. *)
Definition isActive (activeKeys : list string) (key : string) : bool :=
  existsb (String.eqb key) activeKeys.

(** The walk of [prune] over the entries from the least recently
    touched one on; [size] is the current entry count.  The walk stops
    once the count is at most [lowWaterMark]; an entry with an active
    key is stepped over, any other is evicted. *)
Fixpoint walk (activeKeys : list string) (lowWaterMark size : nat)
    (lru : t) : t :=
  match lru with
  | [] => []
  | e :: rest =>
      if (size <=? lowWaterMark)%nat then lru
      else if isActive activeKeys (fst e)
           then e :: walk activeKeys lowWaterMark size rest
           else walk activeKeys lowWaterMark (pred size) rest
  end.

(** [prune(activeKeys, highWaterMark, lowWaterMark)] *)
Definition prune (activeKeys : list string)
    (highWaterMark lowWaterMark : nat) (c : t) : t :=
  if (highWaterMark <? count c)%nat
  then List.rev (walk activeKeys lowWaterMark (count c) (List.rev c))
  else c.

(** [expireCache(activeKeys)], for a cache configured with the two
    watermarks. *)
Definition expireCache (highWaterMark lowWaterMark : nat)
    (activeKeys : list string) (c : t) : t :=
  prune activeKeys highWaterMark lowWaterMark c.

(** The tiles a frame requests, stored one after the other. *)
Definition request (tiles : list (TileCoord.t * V)) (c : t) : t :=
  fold_left
    (fun acc tv =>
       let '((z, x, y), v) := tv in set (TileCoord.toKey z x y) v acc)
    tiles c.

Definition keysOf (tiles : list (TileCoord.t * V)) : list string :=
  map (fun tv => let '((z, x, y), _) := tv in TileCoord.toKey z x y)
    tiles.

(** One render frame: every tile the view needs is requested, then
    [expireCache] runs with the keys of those tiles. *)
Definition renderFrame (highWaterMark lowWaterMark : nat)
    (tiles : list (TileCoord.t * V)) (c : t) : t :=
  expireCache highWaterMark lowWaterMark (keysOf tiles)
    (request tiles c).

End WithValue.

Arguments count {V} c.
Arguments remove {V} key c.
Arguments set {V} key v c.
Arguments get {V} key c.
Arguments peekFirstKey {V} c.
Arguments peekLastKey {V} c.
Arguments walk {V} activeKeys lowWaterMark size lru.
Arguments prune {V} activeKeys highWaterMark lowWaterMark c.
Arguments expireCache {V} highWaterMark lowWaterMark activeKeys c.
Arguments request {V} tiles c.
Arguments keysOf {V} tiles.
Arguments renderFrame {V} highWaterMark lowWaterMark tiles c.

End Cache.

(** ** Notions the properties are stated with

    [readFeatures] decodes every feature record from its own byte offset, so
    the outcome for a record depends on the bytes of the tile only:
    [featureAt], [featuresFrom] and [allFeatures] are [readFeatures] written
    without the cursor. *)

(** The value of an outcome, without the reader or the format next to it. *)
Definition valueOf {A B : Type} (r : res (A * B)) : res B :=
  '(_, b) <- r ;; Ok b.

(** A reader method that leaves the bytes of the buffer alone. *)
Definition keepsBuf {A : Type} (f : PBF -> res (A * PBF)) : Prop :=
  forall p a q, f p = Ok (a, q) -> buf q = buf p.

(** A reader method that always comes back (it returns or throws) and
    never moves the cursor backwards. *)
Definition steady {A : Type} (f : PBF -> res (A * PBF)) : Prop :=
  forall p,
    f p <> OutOfFuel /\
    forall a q, f p = Ok (a, q) -> pos p <= pos q.

(** Enough turns for a loop that reads at least one byte per turn. *)
Definition enoughTurns (n : nat) (p : PBF) : Prop :=
  (1 <= n)%nat /\ (pos p < 0 \/ len p - pos p < Z.of_nat n).

(** The invariant of the loop that keeps the read-back of [closePath]
    inside the array. *)
Definition geometryInv (s : RawGeometry.state) : Prop :=
  0 <= RawGeometry.currentEnd s /\
  RawGeometry.currentEnd s <= RawGeometry.coordsLen s /\
  RawGeometry.coordsLen s
    <= Z.of_nat (List.length (RawGeometry.flatCoordinates s)) /\
  RawGeometry.currentEnd s mod 2 = 0 /\
  RawGeometry.coordsLen s mod 2 = 0.

(** [reaches e n s s']: from [s], [n] turns of the loop with end [e] lead
    to [s']. *)
Inductive reaches (e : Z) : nat -> RawGeometry.state -> RawGeometry.state
                            -> Prop :=
| reaches_here (s : RawGeometry.state) : reaches e O s s
| reaches_turn (n : nat) (s s' s'' : RawGeometry.state) :
    pos (RawGeometry.pbf s) < e ->
    RawGeometry.iteration s = Ok s' ->
    reaches e n s' s'' ->
    reaches e (S n) s s''.

(** The feature decoded from record [i] of a layer. *)
Definition featureAt (fuel : nat) (this : MVT) (b : list Z)
    (layer : RawLayer.t) (i : Z) : res (option FeatureObject) :=
  '(rawFeature, p1) <- readRawFeature (mkPBF b 0) layer i ;;
  '(_, f) <- createFeature_ fuel this p1 rawFeature ;;
  Ok f.

(** The features of records [i], [i + 1], ... ([count] of them); the first
    one that throws decides the outcome. *)
Fixpoint featuresFrom (fuel : nat) (this : MVT) (b : list Z)
    (layer : RawLayer.t) (count : nat) (i : Z)
  : res (list (option FeatureObject)) :=
  match count with
  | O => Ok []
  | S count' =>
      f <- featureAt fuel this b layer i ;;
      fs <- featuresFrom fuel this b layer count' (i + 1) ;;
      Ok (f :: fs)
  end.

(** The layers [readFeatures] reads features from, in the order it visits
    them: the own properties of the layers object that are not skipped. *)
Definition selectedLayers (this : MVT) (pbfLayers : JsObject RawLayer.t)
  : list (string * RawLayer.t) :=
  filter (fun nl => negb (skipsLayer this (fst nl))) (forIn pbfLayers).

(** Layers as what [pbfLayers[name]] is. *)
Definition layerSlots (layers : list (string * RawLayer.t))
  : list (string * LayerSlot) :=
  map (fun kl => (fst kl, SlotLayer (snd kl))) layers.

(** Whether the slot is a layer. *)
Definition isLayer (slot : LayerSlot) : bool :=
  match slot with
  | SlotLayer _ => true
  | _ => false
  end.

(** Whether the inner loop of [readFeatures] throws on a slot that is not a
    layer: it does on an array or a string that is not empty. *)
Definition slotThrows (slot : LayerSlot) : bool :=
  match slot with
  | SlotLayer _ => false
  | SlotArray length => 0 <? length
  | SlotNumber _ => false
  | SlotString s => (0 <? String.length s)%nat
  end.

(** Whether [readFeatures] throws a TypeError on one of the properties it
    visits after the layers. *)
Definition inheritedThrows (this : MVT) (slots : list (string * LayerSlot))
  : bool :=
  existsb (fun ns => negb (skipsLayer this (fst ns)) && slotThrows (snd ns))
    slots.

(** The names [readFeatures] visits and does not skip. *)
Definition visited (this : MVT) (pbfLayers : Layers.t)
  : list (string * LayerSlot) :=
  filter (fun ns => negb (skipsLayer this (fst ns))) (forInLayers pbfLayers).

(** The features of all the records of the layers, layer after layer. *)
Fixpoint allFeatures (fuel : nat) (this : MVT) (b : list Z)
    (layers : list (string * RawLayer.t))
  : res (list (option FeatureObject)) :=
  match layers with
  | [] => Ok []
  | (_, layer) :: rest =>
      fs <- featuresFrom fuel this b layer
              (Z.to_nat (RawLayer.length layer)) 0 ;;
      gs <- allFeatures fuel this b rest ;;
      Ok (fs ++ gs)
  end.

(** The number of feature records of the layers. *)
Fixpoint featureRecords (layers : list (string * RawLayer.t)) : nat :=
  match layers with
  | [] => O
  | (_, layer) :: rest =>
      (List.length (RawLayer.features layer) + featureRecords rest)%nat
  end.

(** The layer object of a tile with feature records: [length] is the number
    of its feature records. *)
Definition layerCounted (layer : RawLayer.t) : Prop :=
  RawLayer.length layer
  = Z.of_nat (List.length (RawLayer.features layer)).

(** Two formats with the same options; [extent_] may differ. *)
Definition sameOptions (this this' : MVT) : Prop :=
  featureClass_ this' = featureClass_ this /\
  geometryName_ this' = geometryName_ this /\
  layerName_ this' = layerName_ this /\
  layers_ this' = layers_ this.

(** The properties [createFeature_] gives the feature. *)
Definition featureValues (this : MVT) (rawFeature : RawFeature.t)
  : JsObject (option value) :=
  fst (setProperty (layerName_ this)
         (option_map VString (RawLayer.name (RawFeature.layer rawFeature)))
         (RawFeature.properties rawFeature,
          RawFeature.nullProto rawFeature)).

(** A tag of a property value that the decoder knows. *)
Definition recognizedTag (tag : Z) : bool := (1 <=? tag) && (tag <=? 7).

(** [unknownTags e n p q]: from the cursor of [p], the value loop with end
    [e] takes [n] turns, each on a tag it does not know, and stops with the
    cursor of [q] at or beyond [e]. *)
Inductive unknownTags (e : Z) : nat -> PBF -> PBF -> Prop :=
| unknownTags_done (p : PBF) : e <= pos p -> unknownTags e O p p
| unknownTags_turn (n : nat) (p p1 q : PBF) (k : Z) :
    pos p < e ->
    readVarint p = Ok (k, p1) ->
    recognizedTag (shiftRight k 3) = false ->
    unknownTags e n p1 q ->
    unknownTags e (S n) p q.

(** [layer.values.push(value)] *)
Definition pushValue (layer : RawLayer.t) (v : value) : RawLayer.t :=
  RawLayer.mk (RawLayer.keys layer) (RawLayer.values layer ++ [v])
    (RawLayer.features layer) (RawLayer.version layer) (RawLayer.name layer)
    (RawLayer.extent layer) (RawLayer.length layer) (RawLayer.order layer).

(** Whether the character occurs in the string. *)
Fixpoint hasChar (c : ascii) (s : string) : bool :=
  match s with
  | EmptyString => false
  | String a s' => Ascii.eqb a c || hasChar c s'
  end.

(** The strings joined with the character between them: the inverse of
    [TileCoord.splitOn]. *)
Fixpoint joinWith (c : ascii) (parts : list string) : string :=
  match parts with
  | [] => EmptyString
  | [s] => s
  | s :: rest => (s ++ String c (joinWith c rest))%string
  end.

(** The invariant of a resource that is only touched by [ensureLoaded] and
    by the completion of its fetch. *)
Definition resourceInv {L : Type} (r : Resource.t L) : Prop :=
  match Resource.state r with
  | Resource.LOADING => List.length (Resource.listeners r) = 1%nat
  | _ => Resource.listeners r = []
  end.

(** The entries whose key is active. *)
Definition activeEntries {V : Type} (activeKeys : list string)
    (c : Cache.t V) : Cache.t V :=
  filter (fun e => Cache.isActive activeKeys (fst e)) c.

(** ** Sample command streams, tiles and caches *)

(** A raw feature of the given type whose command stream starts at byte 0. *)
Definition featureAt0 (type : Z) : RawFeature.t :=
  RawFeature.mk RawLayer.empty type [] None (Some 0) false.

(** Two points: MoveTo (5, 7), then MoveTo by (1, 1). *)
Definition twoPoints : list Z := [9; 10; 14; 9; 2; 2].

(** The state after the first point of [twoPoints]. *)
Definition afterFirstPoint : RawGeometry.state :=
  RawGeometry.mk (mkPBF twoPoints 3) 1 0 5 7 2 0 [5; 7] [].

(** A triangle closed twice: the length prefix, MoveTo (0, 0), LineTo by
    (1, 0) and by (0, 1), ClosePath, ClosePath. *)
Definition ringClosedTwice : list Z := [10; 9; 0; 0; 18; 2; 0; 0; 2; 15; 15].

(** The state after the MoveTo and the two LineTo of [ringClosedTwice]. *)
Definition beforeClosePath : RawGeometry.state :=
  RawGeometry.mk (mkPBF ringClosedTwice 9) 2 0 1 1 6 0 [0; 0; 1; 0; 1; 1] [].

(** The state after the first ClosePath of [ringClosedTwice]. *)
Definition afterClosePath : RawGeometry.state :=
  RawGeometry.mk (mkPBF ringClosedTwice 10) 7 0 1 1 8 0
    [0; 0; 1; 0; 1; 1; 0; 0] [].

(** MoveTo (5, 7), LineTo by (1, 1), ClosePath, MoveTo by (1, 1). *)
Definition closedThenMoved : list Z := [10; 9; 10; 14; 10; 2; 2; 15; 9; 2; 2].

(** A command stream whose loop never ends: the length prefix, a ClosePath
    with count 0, and one more byte. *)
Definition closePathCountZero : list Z := [2; 7; 0].

(** A tile with one layer "a" of two point features; the command stream of
    the second feature holds the command integer 11, command 3. *)
Definition corruptTile : list Z :=
  [26; 31; 120; 2; 10; 1; 97; 18; 9; 8; 1; 24; 1; 34; 3; 9; 10; 14;
   18; 10; 8; 2; 24; 3; 34; 4; 9; 0; 0; 11; 40; 128; 32].

(** The same tile without the second feature. *)
Definition soundTile : list Z :=
  [26; 19; 120; 2; 10; 1; 97; 18; 9; 8; 1; 24; 1; 34; 3; 9; 10; 14;
   40; 128; 32].

(** The layer object that the reader builds for [corruptTile]. *)
Definition corruptLayer : RawLayer.t :=
  RawLayer.mk [] [] [8; 19] (Some 2) (Some "a"%string) (Some 4096) 2
    ["version"%string; "name"%string; "extent"%string].

(** The raw feature of the second record of [corruptTile]. *)
Definition corruptRawFeature : RawFeature.t :=
  RawFeature.mk corruptLayer 3 [] (Some 2) (Some 25) false.

(** The state of the geometry loop of [corruptRawFeature] after its MoveTo,
    in front of the command integer 11. *)
Definition beforeCorruptCommand : RawGeometry.state :=
  RawGeometry.mk (mkPBF corruptTile 29) 1 0 0 0 2 0 [0; 0] [].

(** The first feature of both tiles, as a render feature. *)
Definition pointFeature : FeatureObject :=
  NewRenderFeature (Some POINT) [5; 7] [2]
    [("layer"%string, Some (VString "a"))] (Some 1).

(** A tile with one layer "a" of two features: the first has geometry type
    0, the second is the point of [soundTile]. *)
Definition unknownTypeTile : list Z :=
  [26; 28; 120; 2; 10; 1; 97; 18; 7; 24; 0; 34; 3; 9; 10; 14;
   18; 9; 8; 1; 24; 1; 34; 3; 9; 10; 14; 40; 128; 32].

(** The layer object that the reader builds for [unknownTypeTile]. *)
Definition unknownTypeLayer : RawLayer.t :=
  RawLayer.mk [] [] [8; 17] (Some 2) (Some "a"%string) (Some 4096) 2
    ["version"%string; "name"%string; "extent"%string].

(** A value record with the single field 8, a varint of value 0, followed
    by the extent field of the layer. *)
Definition unknownValueRecord : list Z := [34; 2; 64; 0; 40; 128; 32].

(** The same with the varint of value 10. *)
Definition unknownValueRecord10 : list Z := [34; 2; 64; 10; 40; 128; 32].

(** The same at the end of the tile. *)
Definition unknownValueRecordLast : list Z := [34; 2; 64; 10].

(** Two exterior rings, drawn clockwise in the tile: the squares from
    (0, 0) to (10, 10) and from (20, 0) to (30, 10). *)
Definition twoExteriorRings : list Z :=
  [22; 9; 0; 0; 26; 20; 0; 0; 20; 19; 0; 15;
   9; 40; 19; 26; 20; 0; 0; 20; 19; 0; 15].

(** The coordinates [twoExteriorRings] decodes to. *)
Definition twoExteriorRingsFlat : list Z :=
  [0; 0; 10; 0; 10; 10; 0; 10; 0; 0; 20; 0; 30; 0; 30; 10; 20; 10; 20; 0].

(** The square from (0, 0) to (10, 10), clockwise, and inside it the square
    from (2, 2) to (8, 8), counter-clockwise. *)
Definition ringWithHole : list Z :=
  [22; 9; 0; 0; 26; 20; 0; 0; 20; 19; 0; 15;
   9; 4; 15; 26; 0; 12; 12; 0; 0; 11; 15].

(** The coordinates [ringWithHole] decodes to. *)
Definition ringWithHoleFlat : list Z :=
  [0; 0; 10; 0; 10; 10; 0; 10; 0; 0; 2; 2; 2; 8; 8; 8; 8; 2; 2; 2].

(** The format with the feature class ol/Feature. *)
Definition featureMVT : MVT := mkMVT Feature None "layer" None None.

(** A cache of five entries; "e" is the most recently touched one. *)
Definition fiveEntries : Cache.t nat :=
  [("e"%string, 5%nat); ("d"%string, 4%nat); ("c"%string, 3%nat);
   ("b"%string, 2%nat); ("a"%string, 1%nat)].

(** A cache that holds the root tile of zoom 0. *)
Definition zoomZeroCache : Cache.t nat := Cache.set "0/0/0" 0%nat [].

(** The tiles a view at zoom 4 needs. *)
Definition zoomFourTiles : list (TileCoord.t * nat) :=
  [((4, 7, 7), 1%nat); ((4, 8, 7), 2%nat); ((4, -1, 8), 3%nat)].

(** ** The rest of the format object: constructor, [setLayers],
    [getLastExtent] *)

Module Options.
(** The options of the constructor; [None] is a property that is not
    given. *)
Record t : Type := mk {
  featureClass : option FeatureClass;
  geometryName : option string;
  layerName : option string;
  layers : option (list string)
}.
End Options.

(** [new MVT(opt_options)]: a missing or empty [layerName] becomes "layer",
    a missing [featureClass] the render feature; [extent_] starts as null.
    (The [dataProjection] of the format does not take part in reading and
    is left out.) *)
Definition newMVT (opt_options : option Options.t) : MVT :=
  let options :=
    match opt_options with
    | Some o => o
    | None => Options.mk None None None None
    end in
  mkMVT
    (match Options.featureClass options with
     | Some c => c
     | None => RenderFeature
     end)
    (Options.geometryName options)
    (match truthyName (Options.layerName options) with
     | Some n => n
     | None => "layer"%string
     end)
    (Options.layers options)
    None.

(** [setLayers(layers)] *)
Definition setLayers (layers : list string) (this : MVT) : MVT :=
  mkMVT (featureClass_ this) (geometryName_ this) (layerName_ this)
    (Some layers) (extent_ this).

(** [getLastExtent()] *)
Definition getLastExtent (this : MVT) : option (list (option Z)) :=
  extent_ this.

(** ** Notions of the further properties *)

(** What one call of [readRawGeometry_] adds to its two arrays: [a] to the
    coordinates and [b] to the ends.  The ends added are even offsets into
    [a], counted from 0, in increasing order, and the last one is the length
    of [a]. *)
Definition subPaths (a b : list Z) : Prop :=
  Z.of_nat (List.length a) mod 2 = 0 /\
  StronglySorted Z.lt b /\
  Forall (fun e => 0 < e <= Z.of_nat (List.length a) /\ e mod 2 = 0) b /\
  last b 0 = Z.of_nat (List.length a).

(** The invariant of the geometry loop, for a call that was given the arrays
    [flat0] and [ends0]. *)
Definition appendInv (flat0 ends0 : list Z) (s : RawGeometry.state) : Prop :=
  exists a b,
    RawGeometry.flatCoordinates s = flat0 ++ a /\
    RawGeometry.ends s = ends0 ++ b /\
    RawGeometry.coordsLen s = Z.of_nat (List.length a) /\
    RawGeometry.coordsLen s mod 2 = 0 /\
    RawGeometry.currentEnd s = last b 0 /\
    0 <= RawGeometry.currentEnd s <= RawGeometry.coordsLen s /\
    StronglySorted Z.lt b /\
    Forall (fun e => 0 < e <= RawGeometry.currentEnd s /\ e mod 2 = 0) b.

(** [feature.getProperties()] of a created feature. *)
Definition featureProperties (f : FeatureObject) : JsObject (option value) :=
  match f with
  | NewRenderFeature _ _ _ properties _ => properties
  | NewFeature _ _ _ properties => properties
  end.

(** [feature.getId()] of a created feature. *)
Definition featureId (f : FeatureObject) : option Z :=
  match f with
  | NewRenderFeature _ _ _ _ id => id
  | NewFeature _ _ id _ => id
  end.

(** The geometry type of a created feature: the type a render feature was
    given, the type of the geometry of a feature; [None] when there is
    none. *)
Definition featureGeometryType (f : FeatureObject) : option GeometryType :=
  match f with
  | NewRenderFeature type _ _ _ _ => type
  | NewFeature _ geometry _ _ => option_map getType geometry
  end.

(** The raw geometry type (1 point, 2 linestring, 3 polygon) a geometry type
    belongs to. *)
Definition rawTypeOf (t : GeometryType) : Z :=
  match t with
  | POINT | MULTI_POINT => 1
  | LINE_STRING | MULTI_LINE_STRING => 2
  | POLYGON | MULTI_POLYGON => 3
  end.

(** Whether the geometry type is one of the single-part types. *)
Definition singlePart (t : GeometryType) : bool :=
  match t with
  | POINT | LINE_STRING | POLYGON => true
  | _ => false
  end.

(** The extent [readFeatures] leaves in [extent_] after the names it
    visited: what the last of them gave, or what was there before when
    there is none. *)
Definition lastExtent (slots : list (string * LayerSlot))
    (before : option (list (option Z))) : option (list (option Z)) :=
  match List.rev slots with
  | [] => before
  | (_, slot) :: _ => slotExtent slot
  end.

(** A property of a raw feature that was resolved against the tables of the
    layer: the key is one of the layer's keys, or "undefined" when the index
    was outside the table; the value is one of the layer's values, or
    undefined. *)
Definition resolvedIn (layer : RawLayer.t) (kv : string * option value)
  : Prop :=
  (fst kv = "undefined"%string \/ In (fst kv) (RawLayer.keys layer)) /\
  (snd kv = None \/
   exists v, snd kv = Some v /\ In v (RawLayer.values layer)).

(** What the reader of a feature record keeps true of the raw feature. *)
Definition rawFeatureInv (layer : RawLayer.t) (raw : RawFeature.t) : Prop :=
  RawFeature.layer raw = layer /\
  NoDup (map fst (RawFeature.properties raw)) /\
  Forall (resolvedIn layer) (RawFeature.properties raw).

(** A layer as the layers object holds it under [key]. *)
Definition storedLayer (kl : string * RawLayer.t) : Prop :=
  fst kl = propertyKey (RawLayer.name (snd kl)) /\
  0 < RawLayer.length (snd kl) /\
  layerCounted (snd kl).

(** What the reader of the layer records keeps true of the layers object:
    the own properties are layers stored under their names, no two under
    one name and none under "__proto__"; the prototype, when it was
    replaced, is a layer with feature records whose name is "__proto__". *)
Definition layersInv (layers : Layers.t) : Prop :=
  NoDup (map fst (Layers.own layers)) /\
  ~ In protoKey (map fst (Layers.own layers)) /\
  Forall storedLayer (Layers.own layers) /\
  (forall proto,
     Layers.prototype layers = Some proto ->
     RawLayer.name proto = Some protoKey /\
     0 < RawLayer.length proto /\
     layerCounted proto).

(** The formats a program can hold: one that the constructor built, after
    any calls of [setLayers] and any calls of [readFeatures] that
    returned. *)
Inductive built : MVT -> Prop :=
| built_new (opt_options : option Options.t) : built (newMVT opt_options)
| built_setLayers (layers : list string) (this : MVT) :
    built this -> built (setLayers layers this)
| built_readFeatures (fuel : nat) (source : list Z) (this this' : MVT)
    (features : list (option FeatureObject)) :
    built this ->
    readFeatures fuel this source = Ok (this', features) ->
    built this'.

(** An extent as [getLastExtent] may answer it: null, or a square from the
    origin. *)
Definition squareExtent (extent : option (list (option Z))) : Prop :=
  extent = None \/ exists e, extent = Some [Some 0; Some 0; e; e].

(** ** Command streams, by what they draw *)

(** [reads p vs q]: calls of [readVarint] one after the other lead the
    reader from [p] to [q] and return the values [vs]. *)
Inductive reads : PBF -> list Z -> PBF -> Prop :=
| reads_nil (p : PBF) : reads p [] p
| reads_cons (p p1 q : PBF) (v : Z) (vs : list Z) :
    readVarint p = Ok (v, p1) ->
    reads p1 vs q ->
    reads p (v :: vs) q.

(** The command integer of the command [c] with the count [count]:
    [c | count << 3]. *)
Definition commandInteger (c count : Z) : Z := 8 * count + c.

(** The parameter integers of a list of points, each a pair of encoded
    deltas. *)
Definition paramTokens (params : list (Z * Z)) : list Z :=
  flat_map (fun ab => [fst ab; snd ab]) params.

(** The coordinates of the points that a cursor at [(x, y)] visits when the
    decoded deltas are added to it, one after the other, the way the code
    adds numbers. *)
Fixpoint walkPoints (x y : Z) (params : list (Z * Z)) : list Z :=
  match params with
  | [] => []
  | (a, b) :: rest =>
      addNumber x (zigzag a) :: addNumber y (zigzag b)
      :: walkPoints (addNumber x (zigzag a)) (addNumber y (zigzag b)) rest
  end.

(** Where the cursor is after them. *)
Fixpoint cursorAfter (x y : Z) (params : list (Z * Z)) : Z * Z :=
  match params with
  | [] => (x, y)
  | (a, b) :: rest =>
      cursorAfter (addNumber x (zigzag a)) (addNumber y (zigzag b)) rest
  end.

(** [stepsFrom start n]: [start], [start + 2], ... ([n] numbers). *)
Fixpoint stepsFrom (start : Z) (n : nat) : list Z :=
  match n with
  | O => []
  | S n' => start :: stepsFrom (start + 2) n'
  end.

(** A command of a geometry with the encoded deltas of its points; the
    ClosePath has the count 1. *)
Inductive command : Type :=
| MoveTo (params : list (Z * Z))
| LineTo (params : list (Z * Z))
| ClosePath.

(** The integers of the command stream of a command. *)
Definition commandTokens (c : command) : list Z :=
  match c with
  | MoveTo params =>
      commandInteger 1 (Z.of_nat (List.length params)) :: paramTokens params
  | LineTo params =>
      commandInteger 2 (Z.of_nat (List.length params)) :: paramTokens params
  | ClosePath => [commandInteger 7 1]
  end.

(** A MoveTo or LineTo has at least one point and a count that fits the 28
    bits left of the command. *)
Definition wellFormedCommand (c : command) : Prop :=
  match c with
  | MoveTo params | LineTo params =>
      1 <= Z.of_nat (List.length params) < 268435456
  | ClosePath => True
  end.

(** The turns of the loop a command takes: one per point, one for a
    ClosePath. *)
Definition commandTurns (c : command) : nat :=
  match c with
  | MoveTo params | LineTo params => List.length params
  | ClosePath => 1%nat
  end.

Definition commandsTurns (cmds : list command) : nat :=
  list_sum (map commandTurns cmds).

(** The first point of the points drawn from the cursor [(x, y)]. *)
Definition firstPoint (x y : Z) (params : list (Z * Z)) : option (Z * Z) :=
  match params with
  | [] => None
  | (a, b) :: _ => Some (addNumber x (zigzag a), addNumber y (zigzag b))
  end.

(** "Coordinates are zig-zag-varint-encoded deltas accumulated against a
    running (x, y) cursor (not absolute: every coordinate is relative to the
    previous one, including across MoveTo boundaries)."  The coordinates of
    a list of commands in these words: every point of a MoveTo or a LineTo
    is the cursor after the delta was added to it, and the cursor goes on
    from there into the next command, whatever that is.  [origin] is the
    first point of the sub-path that is open, which a ClosePath repeats
    without moving the cursor. *)
Fixpoint drawn (x y : Z) (origin : option (Z * Z)) (cmds : list command)
  : list Z :=
  match cmds with
  | [] => []
  | MoveTo params :: rest =>
      let c := cursorAfter x y params in
      walkPoints x y params
      ++ drawn (fst c) (snd c)
           (match params with [] => origin | _ => Some c end) rest
  | LineTo params :: rest =>
      let c := cursorAfter x y params in
      walkPoints x y params
      ++ drawn (fst c) (snd c)
           (match origin with
            | Some o => Some o
            | None => firstPoint x y params
            end) rest
  | ClosePath :: rest =>
      match origin with
      | Some (ox, oy) => [ox; oy]
      | None => []
      end ++ drawn x y origin rest
  end.

(** What the loop keeps true of [currentEnd] between two commands: it is the
    offset of the first point of the open sub-path. *)
Definition originInv (origin : option (Z * Z)) (currentEnd : Z)
    (flat : list Z) : Prop :=
  match origin with
  | None => flat = [] /\ currentEnd = 0
  | Some (ox, oy) =>
      0 <= currentEnd /\
      currentEnd + 1 < Z.of_nat (List.length flat) /\
      RawGeometry.coordAt flat currentEnd = ox /\
      RawGeometry.coordAt flat (currentEnd + 1) = oy
  end.

(** A sub-path as a tile encodes a line or a ring: MoveTo with one point,
    LineTo with the further points, and ClosePath when it is a ring. *)
Record subPath : Type := mkSubPath {
  start : Z * Z;
  segments : list (Z * Z);
  closed : bool
}.

Definition wellFormedPath (sp : subPath) : Prop :=
  1 <= Z.of_nat (List.length (segments sp)) < 268435456.

(** The integers of the command stream of a sub-path. *)
Definition pathTokens (sp : subPath) : list Z :=
  [commandInteger 1 1; fst (start sp); snd (start sp)]
  ++ commandInteger 2 (Z.of_nat (List.length (segments sp)))
     :: paramTokens (segments sp)
  ++ (if closed sp then [commandInteger 7 1] else []).

(** The turns of the loop a sub-path takes. *)
Definition pathTurns (sp : subPath) : nat :=
  (1 + List.length (segments sp) + (if closed sp then 1 else 0))%nat.

(** The coordinates of a sub-path drawn from the cursor [(x, y)]: its points
    and, for a ring, its first point once more. *)
Definition pathFlat (x y : Z) (sp : subPath) : list Z :=
  let points := walkPoints x y (start sp :: segments sp) in
  points ++ (if closed sp then firstn 2 points else []).

Fixpoint pathsFlat (x y : Z) (paths : list subPath) : list Z :=
  match paths with
  | [] => []
  | sp :: rest =>
      let c := cursorAfter x y (start sp :: segments sp) in
      pathFlat x y sp ++ pathsFlat (fst c) (snd c) rest
  end.

(** The number of coordinates of a sub-path. *)
Definition pathSize (sp : subPath) : Z :=
  2 * (Z.of_nat (List.length (segments sp)) + 1)
  + (if closed sp then 2 else 0).

(** The ends of the sub-paths, the first of which starts at [offset]. *)
Fixpoint pathsEnds (offset : Z) (paths : list subPath) : list Z :=
  match paths with
  | [] => []
  | sp :: rest =>
      let e := offset + pathSize sp in
      e :: pathsEnds e rest
  end.

(** The turns of the loop a list of sub-paths takes. *)
Definition pathsTurns (paths : list subPath) : nat :=
  list_sum (map pathTurns paths).

(** ** Further sample data *)

(** A layer "roads" with the keys "layer" and "kind". *)
Definition roadsLayer : RawLayer.t :=
  RawLayer.mk ["layer"%string; "kind"%string]
    [VString "tile"; VNumber 3] [0] (Some 2) (Some "roads"%string)
    (Some 4096) 1 ["version"%string; "name"%string; "extent"%string].

(** A raw polygon feature of [roadsLayer] whose tile properties hold a
    property called "layer"; its geometry is at offset 0. *)
Definition taggedFeature : RawFeature.t :=
  RawFeature.mk roadsLayer 3
    [("layer"%string, Some (VString "tile"));
     ("kind"%string, Some (VNumber 3))]
    (Some 7) (Some 0) false.

(** The render feature made of [taggedFeature] over [ringClosedTwice]. *)
Definition taggedRenderFeature : FeatureObject :=
  NewRenderFeature (Some POLYGON) [0; 0; 1; 0; 1; 1; 0; 0; 0; 0] [10]
    [("layer"%string, Some (VString "roads"));
     ("kind"%string, Some (VNumber 3))]
    (Some 7).

(** The feature made, with the feature class ol/Feature, of a raw feature of
    the unknown geometry type 5 over [ringClosedTwice]. *)
Definition untypedFeature : FeatureObject :=
  NewFeature None None None [("layer"%string, None)].

(** A tile of three layer records: "a" with one point, "b" without features,
    and "a" again, with a key "k", a value "x" and two points; the first
    point of the last record has the key/value index pairs (0, 0) and
    (1, 0), the second of which is outside the table of keys. *)
Definition repeatedLayerTile : list Z :=
  [26; 19; 120; 2; 10; 1; 97; 18; 9; 8; 1; 24; 1; 34; 3; 9; 10; 14;
   40; 128; 32;
   26; 8; 120; 2; 10; 1; 98; 40; 128; 32;
   26; 44; 120; 2; 10; 1; 97; 18; 15; 8; 2; 18; 4; 0; 0; 1; 0; 24; 1;
   34; 3; 9; 2; 4; 18; 9; 8; 1; 24; 1; 34; 3; 9; 10; 14; 26; 1; 107;
   34; 3; 10; 1; 120; 40; 128; 32].

(** The one layer of the layers object of [repeatedLayerTile]. *)
Definition repeatedLayer : RawLayer.t :=
  RawLayer.mk ["k"%string] [VString "x"] [39; 56] (Some 2) (Some "a"%string)
    (Some 4096) 2 ["version"%string; "name"%string; "extent"%string].

(** The first raw feature of [repeatedLayer]. *)
Definition repeatedLayerFeature : RawFeature.t :=
  RawFeature.mk repeatedLayer 1
    [("k"%string, Some (VString "x"));
     ("undefined"%string, Some (VString "x"))]
    (Some 2) (Some 51) false.

(** The features of [repeatedLayerTile]. *)
Definition repeatedLayerFeatures : list (option FeatureObject) :=
  [Some (NewRenderFeature (Some POINT) [1; 2] [2]
           [("k"%string, Some (VString "x"));
            ("undefined"%string, Some (VString "x"));
            ("layer"%string, Some (VString "a"))]
           (Some 2));
   Some (NewRenderFeature (Some POINT) [5; 7] [2]
           [("layer"%string, Some (VString "a"))] (Some 1))].

(** Three points in one MoveTo command: the length prefix, the command
    integer, and the deltas (5, 7), (1, 1) and (-1, -2). *)
Definition threePoints : list Z := [7; 25; 10; 14; 2; 2; 1; 3].

(** The two rings of [twoExteriorRings], as sub-paths. *)
Definition twoExteriorPaths : list subPath :=
  [mkSubPath (0, 0) [(20, 0); (0, 20); (19, 0)] true;
   mkSubPath (40, 19) [(20, 0); (0, 20); (19, 0)] true].

(** [n] calls of [readVarint], one after the other. *)
Fixpoint readVarints (n : nat) (p : PBF) : res (list Z * PBF) :=
  match n with
  | O => Ok ([], p)
  | S n' =>
      '(v, p1) <- readVarint p ;;
      '(vs, q) <- readVarints n' p1 ;;
      Ok (v :: vs, q)
  end.

(** A line whose LineTo command announces five points and has two: the
    length prefix, MoveTo (0, 0), the command integer of LineTo with the
    count 5, and the deltas (1, 0) and (0, 1). *)
Definition truncatedLine : list Z := [8; 9; 0; 0; 42; 2; 0; 0; 2].

(** Two points by a MoveTo (the second 2^52 to the right of the first), two
    lines to further points, a ClosePath and a last MoveTo. *)
Definition mixedCommands : list command :=
  [MoveTo [(2, 4); (9007199254740992, 0)];
   LineTo [(9007199254740992, 2); (2, 0)];
   ClosePath;
   MoveTo [(1, 1)]].

(** The command stream of [mixedCommands] behind its length prefix. *)
Definition mixedStream : list Z :=
  [28; 17; 2; 4; 128; 128; 128; 128; 128; 128; 128; 16; 0;
   18; 128; 128; 128; 128; 128; 128; 128; 16; 2; 2; 0; 15; 9; 1; 1].

(** A tile of two layer records, each with the point of [soundTile]: "a",
    and a layer named "__proto__" with the extent 0. *)
Definition protoTile : list Z :=
  [26; 19; 120; 2; 10; 1; 97; 18; 9; 8; 1; 24; 1; 34; 3; 9; 10; 14;
   40; 128; 32;
   26; 26; 120; 2; 10; 9; 95; 95; 112; 114; 111; 116; 111; 95; 95;
   18; 9; 8; 1; 24; 1; 34; 3; 9; 10; 14; 40; 0].

(** The layers object of [protoTile]: the layer "a" is its one own
    property, the other layer is its prototype. *)
Definition protoLayers : Layers.t :=
  Layers.mk
    [("a"%string,
      RawLayer.mk [] [] [8] (Some 2) (Some "a"%string) (Some 4096) 1
        ["version"%string; "name"%string; "extent"%string])]
    (Some (RawLayer.mk [] [] [37] (Some 2) (Some "__proto__"%string)
             (Some 0) 1
             ["version"%string; "name"%string; "extent"%string])).

(* ================================================================== *)
(** * Part II: properties *)
(* ================================================================== *)

(** ** The monad *)

Lemma bind_Ok_inv {A B : Type} (m : res A) (k : A -> res B) (b : B) :
  bind m k = Ok b -> exists a, m = Ok a /\ k a = Ok b.
Proof.
  destruct m as [a | e |]; simpl; intros H; try discriminate.
  exists a; split; [reflexivity | exact H].
Qed.

Ltac inv_bind H :=
  let a := fresh "a" in
  let Ha := fresh "Hm" in
  apply bind_Ok_inv in H; destruct H as [a [Ha H]].

(** ** The geometry loop, turn by turn *)

(** [readCommand] touches the reader, [cmd] and [length] only. *)
Lemma readCommand_frame (s s1 : RawGeometry.state) :
  RawGeometry.readCommand s = Ok s1 ->
  RawGeometry.x s1 = RawGeometry.x s /\
  RawGeometry.y s1 = RawGeometry.y s /\
  RawGeometry.coordsLen s1 = RawGeometry.coordsLen s /\
  RawGeometry.currentEnd s1 = RawGeometry.currentEnd s /\
  RawGeometry.flatCoordinates s1 = RawGeometry.flatCoordinates s /\
  RawGeometry.ends s1 = RawGeometry.ends s.
Proof.
  unfold RawGeometry.readCommand. intros H.
  destruct (RawGeometry.length s =? 0).
  - destruct (readVarint (RawGeometry.pbf s)) as [[cmdLen p] | e |];
      simpl in H; try discriminate.
    injection H as <-. simpl. repeat split.
  - simpl in H. injection H as <-. simpl. repeat split.
Qed.

(** The command a turn works on, when a new command integer is read: its
    low three bits; the count is the rest. *)
Lemma readCommand_new (s : RawGeometry.state) (cmdLen : Z) (p : PBF) :
  RawGeometry.length s = 0 ->
  readVarint (RawGeometry.pbf s) = Ok (cmdLen, p) ->
  exists s1, RawGeometry.readCommand s = Ok s1 /\
             RawGeometry.cmd s1 = bitAnd cmdLen 7 /\
             RawGeometry.length s1 = shiftRight cmdLen 3 - 1 /\
             RawGeometry.pbf s1 = p.
Proof.
  intros Hl Hr. unfold RawGeometry.readCommand. rewrite Hl, Hr. simpl.
  eexists. split; [reflexivity |]. simpl. repeat split.
Qed.

Lemma iteration_moveOrLineTo (s s1 : RawGeometry.state) :
  RawGeometry.readCommand s = Ok s1 ->
  RawGeometry.cmd s1 = 1 \/ RawGeometry.cmd s1 = 2 ->
  RawGeometry.iteration s = RawGeometry.moveOrLineTo s1.
Proof.
  intros H Hc. unfold RawGeometry.iteration. rewrite H. simpl.
  destruct Hc as [-> | ->]; reflexivity.
Qed.

Lemma iteration_closePath (s s1 : RawGeometry.state) :
  RawGeometry.readCommand s = Ok s1 ->
  RawGeometry.cmd s1 = 7 ->
  RawGeometry.iteration s = Ok (RawGeometry.closePath s1).
Proof.
  intros H Hc. unfold RawGeometry.iteration. rewrite H. simpl.
  rewrite Hc. reflexivity.
Qed.

Lemma iteration_invalid (s s1 : RawGeometry.state) :
  RawGeometry.readCommand s = Ok s1 ->
  RawGeometry.cmd s1 <> 1 -> RawGeometry.cmd s1 <> 2 ->
  RawGeometry.cmd s1 <> 7 ->
  RawGeometry.iteration s = Throw InvalidGeometryCommand.
Proof.
  intros H H1 H2 H7. unfold RawGeometry.iteration. rewrite H. simpl.
  apply Z.eqb_neq in H1, H2, H7. rewrite H1, H2, H7. reflexivity.
Qed.

Lemma moveOrLineTo_Ok_inv (s s' : RawGeometry.state) :
  RawGeometry.moveOrLineTo s = Ok s' ->
  exists n1 p1 n2 p2,
    readVarint (RawGeometry.pbf s) = Ok (n1, p1) /\
    readVarint p1 = Ok (n2, p2) /\
    s' = RawGeometry.mk p2 (RawGeometry.cmd s) (RawGeometry.length s)
           (addNumber (RawGeometry.x s) (zigzag n1)) (addNumber (RawGeometry.y s) (zigzag n2))
           (RawGeometry.coordsLen s + 2)
           (if (RawGeometry.cmd s =? 1)
               && (RawGeometry.currentEnd s <? RawGeometry.coordsLen s)
            then RawGeometry.coordsLen s else RawGeometry.currentEnd s)
           (RawGeometry.flatCoordinates s
              ++ [addNumber (RawGeometry.x s) (zigzag n1);
                  addNumber (RawGeometry.y s) (zigzag n2)])
           (if (RawGeometry.cmd s =? 1)
               && (RawGeometry.currentEnd s <? RawGeometry.coordsLen s)
            then RawGeometry.ends s ++ [RawGeometry.coordsLen s]
            else RawGeometry.ends s).
Proof.
  unfold RawGeometry.moveOrLineTo, readSVarint. intros H.
  destruct (readVarint (RawGeometry.pbf s)) as [[n1 p1] | e |] eqn:E1;
    simpl in H; try discriminate.
  destruct (readVarint p1) as [[n2 p2] | e |] eqn:E2;
    simpl in H; try discriminate.
  injection H as <-. exists n1, p1, n2, p2.
  split; [reflexivity |]. split; [exact E2 | reflexivity].
Qed.

Lemma geometryInv_init (p : PBF) (flat ends0 : list Z) :
  geometryInv (RawGeometry.init p flat ends0).
Proof.
  unfold geometryInv, RawGeometry.init. simpl. repeat split; lia.
Qed.

Lemma mod2_add2 (n : Z) : n mod 2 = 0 -> (n + 2) mod 2 = 0.
Proof.
  intros H. replace (n + 2) with (n + 1 * 2) by lia.
  rewrite Z.mod_add by lia. exact H.
Qed.

Lemma geometryInv_iteration (s s' : RawGeometry.state) :
  geometryInv s -> RawGeometry.iteration s = Ok s' -> geometryInv s'.
Proof.
  intros Inv H. unfold RawGeometry.iteration in H. inv_bind H.
  destruct (readCommand_frame _ _ Hm) as (Hx & Hy & Hc & He & Hf & Hn).
  assert (Inv1 : geometryInv a).
  { unfold geometryInv in *. rewrite Hc, He, Hf. exact Inv. }
  clear Inv Hx Hy Hc He Hf Hn Hm.
  destruct ((RawGeometry.cmd a =? 1) || (RawGeometry.cmd a =? 2)).
  - apply moveOrLineTo_Ok_inv in H.
    destruct H as (n1 & p1 & n2 & p2 & _ & _ & ->).
    destruct Inv1 as (I1 & I2 & I3 & I4 & I5).
    unfold geometryInv. simpl. rewrite length_app. simpl.
    destruct ((RawGeometry.cmd a =? 1)
              && (RawGeometry.currentEnd a <? RawGeometry.coordsLen a));
      repeat split; try lia; auto using mod2_add2.
  - destruct (RawGeometry.cmd a =? 7); [| discriminate].
    injection H as <-. unfold RawGeometry.closePath.
    destruct Inv1 as (I1 & I2 & I3 & I4 & I5).
    destruct (RawGeometry.currentEnd a <? RawGeometry.coordsLen a).
    + unfold geometryInv. simpl. rewrite length_app. simpl.
      repeat split; try lia; auto using mod2_add2.
    + unfold geometryInv. repeat split; assumption.
Qed.

Lemma geometryInv_loop (fuel : nat) (e : Z) (s s' : RawGeometry.state) :
  geometryInv s -> RawGeometry.loop fuel e s = Ok s' -> geometryInv s'.
Proof.
  revert s. induction fuel as [| fuel IH]; intros s Inv H; simpl in H.
  - destruct (pos (RawGeometry.pbf s) <? e); [discriminate |].
    injection H as <-. exact Inv.
  - destruct (pos (RawGeometry.pbf s) <? e).
    + inv_bind H. eapply IH; [| exact H].
      eapply geometryInv_iteration; eassumption.
    + injection H as <-. exact Inv.
Qed.

(** Where [closePath] reads the first point of the ring back, both indices
    are inside [flatCoordinates]. *)
Lemma closePath_index_in_range (s : RawGeometry.state) :
  geometryInv s ->
  RawGeometry.currentEnd s < RawGeometry.coordsLen s ->
  0 <= RawGeometry.currentEnd s /\
  RawGeometry.currentEnd s + 1
    < Z.of_nat (List.length (RawGeometry.flatCoordinates s)).
Proof.
  intros (I1 & I2 & I3 & I4 & I5) Hlt. split; [exact I1 |].
  assert (RawGeometry.currentEnd s + 1 <> RawGeometry.coordsLen s).
  { intros E. rewrite <- E in I5.
    replace (RawGeometry.currentEnd s + 1)
      with (1 + RawGeometry.currentEnd s) in I5 by lia.
    rewrite Z.add_mod in I5 by lia. rewrite I4 in I5.
    simpl in I5. discriminate. }
  lia.
Qed.

(** The two kinds of turn that return. *)
Lemma iteration_cases (s s' : RawGeometry.state) :
  RawGeometry.iteration s = Ok s' ->
  exists s1,
    RawGeometry.readCommand s = Ok s1 /\
    ((RawGeometry.cmd s1 = 1 \/ RawGeometry.cmd s1 = 2) /\
     RawGeometry.moveOrLineTo s1 = Ok s'
     \/
     RawGeometry.cmd s1 = 7 /\ s' = RawGeometry.closePath s1).
Proof.
  unfold RawGeometry.iteration. intros H. inv_bind H. exists a.
  split; [exact Hm |].
  destruct (Z.eqb_spec (RawGeometry.cmd a) 1) as [E1 | N1].
  - left. split; [left; exact E1 | exact H].
  - destruct (Z.eqb_spec (RawGeometry.cmd a) 2) as [E2 | N2].
    + left. split; [right; exact E2 | exact H].
    + cbn [orb] in H.
      destruct (Z.eqb_spec (RawGeometry.cmd a) 7) as [E7 | N7];
        [| discriminate].
      right. injection H as <-. split; [exact E7 | reflexivity].
Qed.

(** ** Sub-path ends *)


(** The cursor is not moved by the point that a ClosePath appends: the
    MoveTo after the closed ring is relative to (6, 8), the last point
    decoded, not to the closing point (5, 7). *)
Example cursor_across_closePath :
  readRawGeometry_ 100 (mkPBF closedThenMoved 0) (featureAt0 3) [] []
  = Ok (mkPBF closedThenMoved 11, [5; 7; 6; 8; 5; 7; 7; 9], [6; 8]).
Proof. reflexivity. Qed.



(** ** The reader never changes the bytes it reads *)

Lemma readVarint_keepsBuf : keepsBuf readVarint.
Proof.
  intros p a q H. unfold readVarint in H.
  destruct (varintFrom 10 (buf p) (pos p) 0 0) as [[v i] | e |];
    cbn [bind] in H; try discriminate.
  injection H as _ <-. reflexivity.
Qed.

Lemma readVarint_buf (p q : PBF) (v : Z) :
  readVarint p = Ok (v, q) -> buf q = buf p.
Proof. apply readVarint_keepsBuf. Qed.

Ltac keeps_via_varint H :=
  match type of H with
  | bind (readVarint ?p) _ = Ok _ =>
      let E := fresh "E" in
      destruct (readVarint p) as [[? ?] | ? |] eqn:E;
      cbn [bind] in H; try discriminate;
      apply readVarint_buf in E
  end.

Lemma readVarint64_keepsBuf : keepsBuf readVarint64.
Proof.
  intros p a q H. unfold readVarint64 in H. keeps_via_varint H.
  injection H as _ <-. exact E.
Qed.

Lemma readSVarint_keepsBuf : keepsBuf readSVarint.
Proof.
  intros p a q H. unfold readSVarint in H. keeps_via_varint H.
  injection H as _ <-. exact E.
Qed.

Lemma readBoolean_keepsBuf : keepsBuf readBoolean.
Proof.
  intros p a q H. unfold readBoolean in H. keeps_via_varint H.
  injection H as _ <-. exact E.
Qed.

Lemma readString_keepsBuf : keepsBuf readString.
Proof.
  intros p a q H. unfold readString in H. keeps_via_varint H.
  injection H as _ <-. exact E.
Qed.

Lemma readFloat_keepsBuf : keepsBuf readFloat.
Proof. intros p a q H. injection H as _ <-. reflexivity. Qed.

Lemma readDouble_keepsBuf : keepsBuf readDouble.
Proof. intros p a q H. injection H as _ <-. reflexivity. Qed.

Lemma skip_buf (val : Z) (p q : PBF) : skip val p = Ok q -> buf q = buf p.
Proof.
  unfold skip. intros H.
  destruct (bitAnd val 7 =? 0); [injection H as <-; reflexivity |].
  destruct (bitAnd val 7 =? 2).
  { keeps_via_varint H. injection H as <-. exact E. }
  destruct (bitAnd val 7 =? 5); [injection H as <-; reflexivity |].
  destruct (bitAnd val 7 =? 1); [injection H as <-; reflexivity |].
  discriminate.
Qed.

Lemma readFieldsLoop_buf {R : Type} (readField : Z -> R -> PBF -> res (R * PBF)) :
  (forall tag r, keepsBuf (readField tag r)) ->
  forall n r e, keepsBuf (readFieldsLoop n readField r e).
Proof.
  intros Hf n. induction n as [| n IH]; intros r e p a q H;
    cbn [readFieldsLoop] in H.
  - destruct (pos p <? e); [discriminate |]. injection H as _ <-. reflexivity.
  - destruct (pos p <? e); [| injection H as _ <-; reflexivity].
    keeps_via_varint H.
    destruct (readField (shiftRight z 3) r p0) as [[r' p2] | ? |] eqn:E2;
      cbn [bind] in H; try discriminate.
    apply Hf in E2.
    destruct (if pos p2 =? pos p0 then skip z p2 else Ok p2)
      as [p3 | ? |] eqn:E3; cbn [bind] in H; try discriminate.
    assert (buf p3 = buf p2).
    { destruct (pos p2 =? pos p0); [exact (skip_buf _ _ _ E3) |].
      injection E3 as <-. reflexivity. }
    apply IH in H. congruence.
Qed.

Lemma readFields_buf {R : Type} (readField : Z -> R -> PBF -> res (R * PBF)) :
  (forall tag r, keepsBuf (readField tag r)) ->
  forall r e, keepsBuf (readFields readField r e).
Proof.
  intros Hf r e p a q H. unfold readFields in H.
  exact (readFieldsLoop_buf readField Hf _ _ _ _ _ _ H).
Qed.

Lemma readValue_keepsBuf (tag : Z) : keepsBuf (readValue tag).
Proof.
  intros p a q H. unfold readValue in H.
  repeat match type of H with
  | (if ?c then _ else _) = _ => destruct c
  end;
  match type of H with
  | bind ?m _ = _ =>
      let E := fresh "E" in
      destruct m as [[? ?] | ? |] eqn:E; cbn [bind] in H; try discriminate;
      injection H as _ <-
  | _ => injection H as _ <-; reflexivity
  end.
  - exact (readString_keepsBuf _ _ _ E).
  - exact (readFloat_keepsBuf _ _ _ E).
  - exact (readDouble_keepsBuf _ _ _ E).
  - exact (readVarint64_keepsBuf _ _ _ E).
  - exact (readVarint_keepsBuf _ _ _ E).
  - exact (readSVarint_keepsBuf _ _ _ E).
  - exact (readBoolean_keepsBuf _ _ _ E).
Qed.

Lemma valueLoop_keepsBuf (n : nat) (e : Z) (v : value) :
  keepsBuf (valueLoop n e v).
Proof.
  revert v. induction n as [| n IH]; intros v p a q H;
    cbn [valueLoop] in H.
  - destruct (pos p <? e); [discriminate |]. injection H as _ <-. reflexivity.
  - destruct (pos p <? e); [| injection H as _ <-; reflexivity].
    keeps_via_varint H.
    destruct (readValue (shiftRight z 3) p0) as [[v' p2] | ? |] eqn:E2;
      cbn [bind] in H; try discriminate.
    apply readValue_keepsBuf in E2. apply IH in H. congruence.
Qed.

Lemma layerPBFReader_keepsBuf (tag : Z) (layer : RawLayer.t) :
  keepsBuf (layerPBFReader tag layer).
Proof.
  intros p a q H. unfold layerPBFReader in H. destruct layer.
  repeat match type of H with
  | (if ?c then _ else _) = _ => destruct c
  end;
  try (injection H as _ <-; reflexivity).
  - keeps_via_varint H. injection H as _ <-. exact E.
  - destruct (readString p) as [[? ?] | ? |] eqn:E; cbn [bind] in H;
      try discriminate.
    injection H as _ <-. exact (readString_keepsBuf _ _ _ E).
  - keeps_via_varint H. injection H as _ <-. exact E.
  - destruct (readString p) as [[? ?] | ? |] eqn:E; cbn [bind] in H;
      try discriminate.
    injection H as _ <-. exact (readString_keepsBuf _ _ _ E).
  - keeps_via_varint H.
    destruct (valueLoop (S (List.length (buf p0))) (z + pos p0) VNull p0)
      as [[? ?] | ? |] eqn:E2; cbn [bind] in H; try discriminate.
    injection H as _ <-. apply valueLoop_keepsBuf in E2. congruence.
Qed.

Lemma layersPBFReader_keepsBuf (tag : Z) (layers : Layers.t) :
  keepsBuf (layersPBFReader tag layers).
Proof.
  intros p a q H. unfold layersPBFReader in H.
  destruct (tag =? 3); [| injection H as _ <-; reflexivity].
  keeps_via_varint H.
  destruct (readFields layerPBFReader RawLayer.empty (Some (z + pos p0)) p0)
    as [[layer p2] | ? |] eqn:E2; cbn [bind] in H; try discriminate.
  apply (readFields_buf layerPBFReader layerPBFReader_keepsBuf) in E2.
  destruct layer.
  destruct (Z.of_nat (List.length features) =? 0);
    injection H as _ <-; congruence.
Qed.

Lemma propertiesLoop_keepsBuf (n : nat) (e : Z) (feature : RawFeature.t) :
  keepsBuf (propertiesLoop n e feature).
Proof.
  revert feature. induction n as [| n IH]; intros feature p a q H;
    cbn [propertiesLoop] in H.
  - destruct (pos p <? e); [discriminate |]. injection H as _ <-. reflexivity.
  - destruct (pos p <? e); [| injection H as _ <-; reflexivity].
    keeps_via_varint H. keeps_via_varint H.
    destruct feature. apply IH in H. congruence.
Qed.

Lemma featurePBFReader_keepsBuf (tag : Z) (feature : RawFeature.t) :
  keepsBuf (featurePBFReader tag feature).
Proof.
  intros p a q H. unfold featurePBFReader in H. destruct feature.
  repeat match type of H with
  | (if ?c then _ else _) = _ => destruct c
  end;
  try (injection H as _ <-; reflexivity).
  - keeps_via_varint H. injection H as _ <-. exact E.
  - keeps_via_varint H. apply propertiesLoop_keepsBuf in H. congruence.
  - keeps_via_varint H. injection H as _ <-. exact E.
Qed.

Lemma readRawFeature_buf (p q : PBF) (layer : RawLayer.t) (i : Z)
    (f : RawFeature.t) :
  readRawFeature p layer i = Ok (f, q) -> buf q = buf p.
Proof.
  unfold readRawFeature. intros H.
  destruct (index (RawLayer.features layer) i); [| discriminate].
  keeps_via_varint H.
  apply (readFields_buf featurePBFReader featurePBFReader_keepsBuf) in H.
  simpl in E. congruence.
Qed.

Lemma iteration_buf (s s' : RawGeometry.state) :
  RawGeometry.iteration s = Ok s' ->
  buf (RawGeometry.pbf s') = buf (RawGeometry.pbf s).
Proof.
  unfold RawGeometry.iteration. intros H. inv_bind H.
  assert (Hb : buf (RawGeometry.pbf a) = buf (RawGeometry.pbf s)).
  { unfold RawGeometry.readCommand in Hm.
    destruct (RawGeometry.length s =? 0).
    - destruct (readVarint (RawGeometry.pbf s)) as [[cmdLen p] | ? |] eqn:E;
        cbn [bind] in Hm; try discriminate.
      injection Hm as <-. simpl. exact (readVarint_buf _ _ _ E).
    - cbn [bind] in Hm. injection Hm as <-. reflexivity. }
  destruct ((RawGeometry.cmd a =? 1) || (RawGeometry.cmd a =? 2)).
  - apply moveOrLineTo_Ok_inv in H.
    destruct H as (n1 & p1 & n2 & p2 & E1 & E2 & ->). simpl.
    apply readVarint_buf in E1, E2. congruence.
  - destruct (RawGeometry.cmd a =? 7); [| discriminate].
    injection H as <-. unfold RawGeometry.closePath.
    destruct (RawGeometry.currentEnd a <? RawGeometry.coordsLen a);
      exact Hb.
Qed.

Lemma loop_buf (fuel : nat) (e : Z) (s s' : RawGeometry.state) :
  RawGeometry.loop fuel e s = Ok s' ->
  buf (RawGeometry.pbf s') = buf (RawGeometry.pbf s).
Proof.
  revert s. induction fuel as [| fuel IH]; intros s H;
    cbn [RawGeometry.loop] in H.
  - destruct (pos (RawGeometry.pbf s) <? e); [discriminate |].
    injection H as <-. reflexivity.
  - destruct (pos (RawGeometry.pbf s) <? e).
    + inv_bind H. apply IH in H. apply iteration_buf in Hm. congruence.
    + injection H as <-. reflexivity.
Qed.

Lemma finish_pbf (s : RawGeometry.state) :
  RawGeometry.pbf (RawGeometry.finish s) = RawGeometry.pbf s.
Proof.
  unfold RawGeometry.finish.
  destruct (RawGeometry.currentEnd s <? RawGeometry.coordsLen s);
    reflexivity.
Qed.

Lemma readRawGeometry__buf (fuel : nat) (p q : PBF) (feature : RawFeature.t)
    (flat0 ends0 flat ends : list Z) :
  readRawGeometry_ fuel p feature flat0 ends0 = Ok (q, flat, ends) ->
  buf q = buf p.
Proof.
  unfold readRawGeometry_. intros H.
  destruct (RawFeature.geometry feature) as [g |]; [| discriminate].
  keeps_via_varint H. inv_bind H. injection H as <- _ _.
  rewrite finish_pbf. apply loop_buf in Hm. simpl in *. congruence.
Qed.

(** The geometry of a feature is decoded from the feature's own offset:
    where the cursor stands before the call does not matter. *)
Lemma readRawGeometry__from_offset (fuel : nat) (p q : PBF)
    (feature : RawFeature.t) (flat0 ends0 : list Z) :
  buf p = buf q ->
  readRawGeometry_ fuel p feature flat0 ends0
  = readRawGeometry_ fuel q feature flat0 ends0.
Proof.
  intros Hb. unfold readRawGeometry_, setPos. rewrite Hb. reflexivity.
Qed.

Lemma createFeature__buf (fuel : nat) (this : MVT) (p q : PBF)
    (rawFeature : RawFeature.t) (f : option FeatureObject) :
  createFeature_ fuel this p rawFeature = Ok (q, f) -> buf q = buf p.
Proof.
  unfold createFeature_. intros H.
  destruct (RawFeature.type rawFeature =? 0).
  { injection H as <- _. reflexivity. }
  destruct (readRawGeometry_ fuel p rawFeature [] [])
    as [[[p' flat] ends] | ? |] eqn:E; cbn [bind] in H; try discriminate.
  apply readRawGeometry__buf in E.
  destruct (featureClass_ this); injection H as <- _; exact E.
Qed.

Lemma createFeature__from_offset (fuel : nat) (this : MVT) (p q : PBF)
    (rawFeature : RawFeature.t) :
  buf p = buf q ->
  valueOf (createFeature_ fuel this p rawFeature)
  = valueOf (createFeature_ fuel this q rawFeature).
Proof.
  intros Hb. unfold createFeature_.
  destruct (RawFeature.type rawFeature =? 0); [reflexivity |].
  rewrite (readRawGeometry__from_offset fuel p q _ _ _ Hb). reflexivity.
Qed.

(** [createFeature_] does not read [extent_] or [layers_]. *)
Lemma createFeature__format (fuel : nat) (this this' : MVT) (p : PBF)
    (rawFeature : RawFeature.t) :
  featureClass_ this' = featureClass_ this ->
  geometryName_ this' = geometryName_ this ->
  layerName_ this' = layerName_ this ->
  createFeature_ fuel this' p rawFeature
  = createFeature_ fuel this p rawFeature.
Proof.
  intros H1 H2 H3. unfold createFeature_. rewrite H1, H2, H3. reflexivity.
Qed.

Lemma readRawFeature_from_offset (p q : PBF) (layer : RawLayer.t) (i : Z) :
  buf p = buf q -> readRawFeature p layer i = readRawFeature q layer i.
Proof.
  intros Hb. unfold readRawFeature, setPos. rewrite Hb. reflexivity.
Qed.

(** One turn of the inner loop of [readFeatures] is [featureAt]. *)
Lemma featureAt_turn (fuel : nat) (this : MVT) (p : PBF)
    (layer : RawLayer.t) (i : Z) :
  featureAt fuel this (buf p) layer i
  = valueOf ('(rawFeature, p1) <- readRawFeature p layer i ;;
             createFeature_ fuel this p1 rawFeature).
Proof.
  unfold featureAt.
  rewrite (readRawFeature_from_offset (mkPBF (buf p) 0) p layer i eq_refl).
  destruct (readRawFeature p layer i) as [[raw p1] | ? |]; reflexivity.
Qed.

(** The inner loop of [readFeatures] pushes the features of the records in
    order, or ends with the first outcome that is not a feature. *)
Lemma layerFeatures_featuresFrom (fuel : nat) (this : MVT)
    (layer : RawLayer.t) (count : nat) :
  forall (i : Z) (p : PBF) (features : list (option FeatureObject)),
    match layerFeatures fuel this layer count i p features with
    | Ok (q, features') =>
        buf q = buf p /\
        exists fs, featuresFrom fuel this (buf p) layer count i = Ok fs /\
                   features' = features ++ fs
    | Throw e => featuresFrom fuel this (buf p) layer count i = Throw e
    | OutOfFuel => featuresFrom fuel this (buf p) layer count i = OutOfFuel
    end.
Proof.
  induction count as [| count IH]; intros i p features;
    cbn [layerFeatures featuresFrom].
  - split; [reflexivity |]. exists []. rewrite app_nil_r. split; reflexivity.
  - rewrite featureAt_turn.
    destruct (readRawFeature p layer i) as [[raw p1] | ? |] eqn:E1;
      cbn [bind valueOf]; try reflexivity.
    apply readRawFeature_buf in E1.
    destruct (createFeature_ fuel this p1 raw) as [[p2 f] | ? |] eqn:E2;
      cbn [bind]; try reflexivity.
    apply createFeature__buf in E2.
    specialize (IH (i + 1) p2 (features ++ [f])).
    replace (buf p2) with (buf p) in IH by congruence.
    destruct (layerFeatures fuel this layer count (i + 1) p2
                (features ++ [f])) as [[q features'] | ? |].
    + destruct IH as (Hb & fs & -> & ->). cbn [bind].
      split; [congruence |]. exists (f :: fs). split; [reflexivity |].
      rewrite <- app_assoc. reflexivity.
    + rewrite IH. reflexivity.
    + rewrite IH. reflexivity.
Qed.

Lemma featureAt_format (fuel : nat) (this this' : MVT) (b : list Z)
    (layer : RawLayer.t) (i : Z) :
  sameOptions this this' ->
  featureAt fuel this' b layer i = featureAt fuel this b layer i.
Proof.
  intros (H1 & H2 & H3 & _). unfold featureAt.
  destruct (readRawFeature (mkPBF b 0) layer i) as [[raw p1] | ? |];
    cbn [bind]; try reflexivity.
  rewrite (createFeature__format fuel this this' p1 raw H1 H2 H3).
  reflexivity.
Qed.

Lemma featuresFrom_format (fuel : nat) (this this' : MVT) (b : list Z)
    (layer : RawLayer.t) (count : nat) (i : Z) :
  sameOptions this this' ->
  featuresFrom fuel this' b layer count i
  = featuresFrom fuel this b layer count i.
Proof.
  intros Hs. revert i. induction count as [| count IH]; intros i;
    cbn [featuresFrom]; [reflexivity |].
  rewrite (featureAt_format fuel this this' b layer i Hs), IH. reflexivity.
Qed.

Lemma skipsLayer_format (this this' : MVT) (name : string) :
  sameOptions this this' -> skipsLayer this' name = skipsLayer this name.
Proof.
  intros (_ & _ & _ & H). unfold skipsLayer. rewrite H. reflexivity.
Qed.

Lemma sameOptions_refl (this : MVT) : sameOptions this this.
Proof. repeat split. Qed.

Lemma sameOptions_extent (this this0 : MVT)
    (extent : option (list (option Z))) :
  sameOptions this this0 ->
  sameOptions this
    (mkMVT (featureClass_ this0) (geometryName_ this0) (layerName_ this0)
       (layers_ this0) extent).
Proof. intros (H1 & H2 & H3 & H4). repeat split; assumption. Qed.

(** The outer loop of [readFeatures] over properties that are not layers:
    it pushes no feature, and throws a TypeError on the first array or
    string that is not empty. *)
Lemma layersLoop_inherited (fuel : nat) (this : MVT)
    (slots : list (string * LayerSlot)) :
  forallb (fun ns => negb (isLayer (snd ns))) slots = true ->
  forall (this0 : MVT) (p : PBF) (features : list (option FeatureObject)),
    sameOptions this this0 ->
    valueOf (layersLoop fuel this0 slots p features)
    = if inheritedThrows this slots then Throw TypeError else Ok features.
Proof.
  induction slots as [| [name slot] rest IH]; intros Hno this0 p features Hs;
    cbn [layersLoop inheritedThrows existsb fst snd]; [reflexivity |].
  cbn [forallb snd] in Hno. apply andb_true_iff in Hno.
  destruct Hno as [Hslot Hrest].
  rewrite (skipsLayer_format this this0 name Hs).
  destruct (skipsLayer this name); cbn [negb andb orb].
  - apply IH; assumption.
  - destruct slot as [layer | n | n | s]; cbn [isLayer negb] in Hslot;
      [discriminate Hslot | | |]; cbn [slotFeatures slotThrows].
    + destruct (0 <? n); cbn [bind orb valueOf]; [reflexivity |].
      apply IH; [exact Hrest | apply sameOptions_extent; exact Hs].
    + cbn [bind orb]. apply IH;
        [exact Hrest | apply sameOptions_extent; exact Hs].
    + destruct (0 <? String.length s)%nat; cbn [bind orb valueOf];
        [reflexivity |].
      apply IH; [exact Hrest | apply sameOptions_extent; exact Hs].
Qed.

(** The outer loop of [readFeatures]: the features of the layers that are
    not skipped, layer after layer, or the first outcome that is not a
    feature; then the properties that are not layers. *)
Lemma layersLoop_allFeatures (fuel : nat) (this : MVT)
    (layers : list (string * RawLayer.t))
    (slots : list (string * LayerSlot)) :
  forallb (fun ns => negb (isLayer (snd ns))) slots = true ->
  forall (this0 : MVT) (p : PBF) (features : list (option FeatureObject)),
    sameOptions this this0 ->
    valueOf (layersLoop fuel this0 (layerSlots layers ++ slots) p features)
    = (gs <- allFeatures fuel this (buf p)
               (filter (fun nl => negb (skipsLayer this (fst nl))) layers) ;;
       if inheritedThrows this slots then Throw TypeError
       else Ok (features ++ gs)).
Proof.
  intros Hno.
  induction layers as [| [name layer] rest IH]; intros this0 p features Hs;
    cbn [layerSlots map app fst snd].
  - cbn [filter allFeatures bind]. rewrite app_nil_r.
    apply layersLoop_inherited; assumption.
  - fold (layerSlots rest). cbn [layersLoop filter fst].
    rewrite (skipsLayer_format this this0 name Hs).
    destruct (skipsLayer this name); cbn [negb].
    + apply IH. exact Hs.
    + cbn [allFeatures slotFeatures].
      pose proof (layerFeatures_featuresFrom fuel this0 layer
                    (Z.to_nat (RawLayer.length layer)) 0 p features) as HL.
      rewrite (featuresFrom_format fuel this this0 _ _ _ _ Hs) in HL.
      destruct (layerFeatures fuel this0 layer
                  (Z.to_nat (RawLayer.length layer)) 0 p features)
        as [[q features'] | e |].
      * destruct HL as (Hb & fs & -> & ->). cbn [bind].
        rewrite IH by (apply sameOptions_extent; exact Hs).
        rewrite Hb.
        destruct (allFeatures fuel this (buf p)
                    (filter (fun nl => negb (skipsLayer this (fst nl)))
                       rest)) as [gs | ? |]; cbn [bind];
          try reflexivity.
        rewrite app_assoc. reflexivity.
      * rewrite HL. reflexivity.
      * rewrite HL. reflexivity.
Qed.

Lemma inherited_no_layer (pbfLayers : Layers.t) :
  forallb (fun ns => negb (isLayer (snd ns))) (inherited pbfLayers) = true.
Proof.
  unfold inherited. destruct (Layers.prototype pbfLayers) as [proto |];
    [| reflexivity].
  apply forallb_forall. intros [name slot] Hin.
  apply filter_In in Hin. destruct Hin as [Hin _].
  unfold layerProperties in Hin. cbn [snd].
  apply in_app_or in Hin. destruct Hin as [Hin | Hin].
  { cbn [In] in Hin.
    destruct Hin as [E | [E | [E | []]]]; injection E as _ <-; reflexivity. }
  apply in_app_or in Hin. destruct Hin as [Hin | Hin].
  - apply in_flat_map in Hin. destruct Hin as (n & _ & Hn).
    unfold layerField in Hn.
    destruct (String.eqb n "version").
    { destruct (RawLayer.version proto); cbn [option_map In] in Hn;
        [destruct Hn as [E | []]; injection E as _ <-; reflexivity
        | destruct Hn]. }
    destruct (String.eqb n "name").
    { destruct (RawLayer.name proto); cbn [option_map In] in Hn;
        [destruct Hn as [E | []]; injection E as _ <-; reflexivity
        | destruct Hn]. }
    destruct (String.eqb n "extent").
    { destruct (RawLayer.extent proto); cbn [option_map In] in Hn;
        [destruct Hn as [E | []]; injection E as _ <-; reflexivity
        | destruct Hn]. }
    destruct Hn.
  - cbn [In] in Hin. destruct Hin as [E | []].
    injection E as _ <-. reflexivity.
Qed.

(** [readFeatures] returns the features of all the records of the selected
    layers, or nothing: the first record whose decoding throws makes the
    whole call throw, and so does, after the layers, a property of a
    prototype layer that is no layer. *)
Lemma readFeatures_allFeatures (fuel : nat) (this : MVT) (source : list Z) :
  valueOf (readFeatures fuel this source)
  = ('(pbfLayers, _) <-
       readFields layersPBFReader Layers.empty None (mkPBF source 0) ;;
     gs <- allFeatures fuel this source
             (selectedLayers this (Layers.own pbfLayers)) ;;
     if inheritedThrows this (inherited pbfLayers) then Throw TypeError
     else Ok gs).
Proof.
  unfold readFeatures.
  destruct (readFields layersPBFReader Layers.empty None (mkPBF source 0))
    as [[pbfLayers p1] | ? |] eqn:E; cbn [bind]; try reflexivity.
  apply (readFields_buf layersPBFReader layersPBFReader_keepsBuf) in E.
  simpl in E. unfold forInLayers.
  fold (layerSlots (forIn (Layers.own pbfLayers))).
  rewrite (layersLoop_allFeatures fuel this (forIn (Layers.own pbfLayers))
             (inherited pbfLayers) (inherited_no_layer pbfLayers) this p1 []
             (sameOptions_refl this)).
  rewrite E. unfold selectedLayers. reflexivity.
Qed.

Lemma featuresFrom_Ok (fuel : nat) (this : MVT) (b : list Z)
    (layer : RawLayer.t) (count : nat) :
  forall (i : Z) (fs : list (option FeatureObject)),
    featuresFrom fuel this b layer count i = Ok fs ->
    List.length fs = count /\
    forall k, (k < count)%nat ->
      exists f, featureAt fuel this b layer (i + Z.of_nat k) = Ok f /\
                nth_error fs k = Some f.
Proof.
  induction count as [| count IH]; intros i fs H; cbn [featuresFrom] in H.
  - injection H as <-. split; [reflexivity |]. intros k Hk. lia.
  - inv_bind H. inv_bind H. injection H as <-.
    destruct (IH _ _ Hm0) as [Hlen Heach]. split; [simpl; lia |].
    intros [| k] Hk.
    + exists a. rewrite Z.add_0_r. split; [exact Hm | reflexivity].
    + destruct (Heach k ltac:(lia)) as (f & Hf & Hn). exists f.
      replace (i + Z.of_nat (S k)) with (i + 1 + Z.of_nat k) by lia.
      split; assumption.
Qed.

Lemma allFeatures_Ok (fuel : nat) (this : MVT) (b : list Z)
    (layers : list (string * RawLayer.t)) :
  forall fs,
    allFeatures fuel this b layers = Ok fs ->
    forall name layer i,
      In (name, layer) layers ->
      0 <= i < RawLayer.length layer ->
      exists f, featureAt fuel this b layer i = Ok f /\ In f fs.
Proof.
  induction layers as [| [name0 layer0] rest IH]; intros fs H name layer i
    Hin Hi; [contradiction |].
  cbn [allFeatures] in H. inv_bind H. inv_bind H. injection H as <-.
  destruct Hin as [Heq | Hin].
  - injection Heq as -> ->.
    destruct (featuresFrom_Ok _ _ _ _ _ _ _ Hm) as [_ Heach].
    destruct (Heach (Z.to_nat i) ltac:(lia)) as (f & Hf & Hn).
    exists f. rewrite Z2Nat.id in Hf by lia. simpl in Hf.
    split; [exact Hf |]. apply in_or_app. left.
    eapply nth_error_In. exact Hn.
  - destruct (IH _ Hm0 name layer i Hin Hi) as (f & Hf & Hinf).
    exists f. split; [exact Hf |]. apply in_or_app. right. exact Hinf.
Qed.

Lemma allFeatures_length (fuel : nat) (this : MVT) (b : list Z)
    (layers : list (string * RawLayer.t)) :
  Forall (fun nl => layerCounted (snd nl)) layers ->
  forall fs,
    allFeatures fuel this b layers = Ok fs ->
    List.length fs = featureRecords layers.
Proof.
  induction 1 as [| [name layer] rest Hc _ IH]; intros fs H;
    cbn [allFeatures featureRecords] in *.
  - injection H as <-. reflexivity.
  - inv_bind H. inv_bind H. injection H as <-.
    rewrite length_app, (IH _ Hm0).
    destruct (featuresFrom_Ok _ _ _ _ _ _ _ Hm) as [-> _].
    unfold layerCounted in Hc. simpl in Hc. rewrite Hc, Nat2Z.id.
    reflexivity.
Qed.

Lemma valueOf_Ok_inv {A B : Type} (r : res (A * B)) (b : B) :
  valueOf r = Ok b -> exists a, r = Ok (a, b).
Proof.
  unfold valueOf. destruct r as [[a b'] | ? |]; cbn [bind]; intros H;
    try discriminate.
  injection H as <-. exists a. reflexivity.
Qed.

(** The loop throws at the turn that meets a command other than 1, 2
    and 7. *)
Lemma loop_throws_at_invalid (e : Z) (n : nat)
    (s0 s : RawGeometry.state) :
  reaches e n s0 s ->
  forall s1,
    pos (RawGeometry.pbf s) < e ->
    RawGeometry.readCommand s = Ok s1 ->
    RawGeometry.cmd s1 <> 1 -> RawGeometry.cmd s1 <> 2 ->
    RawGeometry.cmd s1 <> 7 ->
    forall fuel, (n < fuel)%nat ->
      RawGeometry.loop fuel e s0 = Throw InvalidGeometryCommand.
Proof.
  induction 1 as [s | n s s' s'' Hpos Hit Hre IH];
    intros s1 Hp Hr H1 H2 H7 fuel Hfuel;
    (destruct fuel as [| fuel]; [lia |]); cbn [RawGeometry.loop].
  - apply Z.ltb_lt in Hp. rewrite Hp.
    rewrite (iteration_invalid _ _ Hr H1 H2 H7). reflexivity.
  - apply Z.ltb_lt in Hpos. rewrite Hpos, Hit. cbn [bind].
    apply (IH s1 Hp Hr H1 H2 H7). lia.
Qed.

(** ** The layers object *)

Lemma readFieldsLoop_invariant {R : Type} (P : R -> Prop)
    (readField : Z -> R -> PBF -> res (R * PBF)) :
  (forall tag r p r' q, P r -> readField tag r p = Ok (r', q) -> P r') ->
  forall n r e p r' q,
    P r -> readFieldsLoop n readField r e p = Ok (r', q) -> P r'.
Proof.
  intros Hf n. induction n as [| n IH]; intros r e p r' q Hr H;
    cbn [readFieldsLoop] in H.
  - destruct (pos p <? e); [discriminate |]. injection H as <- _. exact Hr.
  - destruct (pos p <? e); [| injection H as <- _; exact Hr].
    inv_bind H. destruct a as [val p1]. inv_bind H.
    destruct a as [r1 p2]. inv_bind H.
    eapply IH; [| exact H]. eapply Hf; eassumption.
Qed.

Lemma objSet_Forall {V : Type} (P : string * V -> Prop) (k : string) (v : V)
    (o : JsObject V) :
  P (k, v) -> Forall P o -> Forall P (objSet k v o).
Proof.
  intros Hkv Ho. induction Ho as [| [k' v'] rest Hh Ht IH]; cbn [objSet].
  - constructor; [exact Hkv | constructor].
  - destruct (String.eqb k k'); constructor; assumption.
Qed.

Lemma setLayer_Forall (P : string * RawLayer.t -> Prop) (layer : RawLayer.t)
    (layers : Layers.t) :
  P (propertyKey (RawLayer.name layer), layer) ->
  Forall P (Layers.own layers) ->
  Forall P (Layers.own (setLayer layer layers)).
Proof.
  intros Hl Ho. unfold setLayer.
  destruct (String.eqb (propertyKey (RawLayer.name layer)) protoKey);
    cbn [Layers.own]; [exact Ho | apply objSet_Forall; assumption].
Qed.

Lemma layersPBFReader_counted (tag : Z) (layers layers' : Layers.t)
    (p q : PBF) :
  Forall (fun nl => layerCounted (snd nl)) (Layers.own layers) ->
  layersPBFReader tag layers p = Ok (layers', q) ->
  Forall (fun nl => layerCounted (snd nl)) (Layers.own layers').
Proof.
  intros Hl H. unfold layersPBFReader in H.
  destruct (tag =? 3); [| injection H as <- _; exact Hl].
  inv_bind H. destruct a as [n p1]. inv_bind H. destruct a as [layer p2].
  destruct layer.
  destruct (Z.of_nat (List.length features) =? 0);
    injection H as <- _; [exact Hl |].
  apply setLayer_Forall; [reflexivity | exact Hl].
Qed.

Lemma insertIndexed_In {V : Type} (e x : N * (string * V))
    (l : list (N * (string * V))) :
  In x (insertIndexed e l) -> x = e \/ In x l.
Proof.
  induction l as [| e' l IH]; cbn [insertIndexed]; intros H.
  - destruct H as [<- | []]. left. reflexivity.
  - destruct (fst e <=? fst e')%N.
    + destruct H as [<- | H]; [left; reflexivity | right; exact H].
    + destruct H as [<- | H]; [right; left; reflexivity |].
      destruct (IH H) as [-> | Hin]; [left; reflexivity |].
      right. right. exact Hin.
Qed.

Lemma splitKeys_In {V : Type} (o : JsObject V) :
  (forall x, In x (fst (splitKeys o)) -> In (snd x) o) /\
  (forall kv, In kv (snd (splitKeys o)) -> In kv o).
Proof.
  induction o as [| kv rest [IH1 IH2]]; cbn [splitKeys].
  - split; intros ? [].
  - destruct (splitKeys rest) as [ix named]. cbn [fst snd] in *.
    destruct (arrayIndex (fst kv)) as [n |]; cbn [fst snd]; split.
    + intros x Hx. apply insertIndexed_In in Hx.
      destruct Hx as [-> | Hx]; [left; reflexivity | right; auto].
    + intros x Hx. right. auto.
    + intros x Hx. right. auto.
    + intros x [<- | Hx]; [left; reflexivity | right; auto].
Qed.

(** [for ... in] visits own properties only. *)
Lemma forIn_In {V : Type} (o : JsObject V) (kv : string * V) :
  In kv (forIn o) -> In kv o.
Proof.
  unfold forIn. destruct (splitKeys_In o) as [H1 H2].
  destruct (splitKeys o) as [ix named]. cbn [fst snd] in *.
  intros H. apply in_app_or in H. destruct H as [H | H].
  - apply in_map_iff in H. destruct H as (x & <- & Hx). auto.
  - auto.
Qed.

Lemma selectedLayers_counted (this : MVT) (source : list Z)
    (pbfLayers : Layers.t) (p : PBF) :
  readFields layersPBFReader Layers.empty None (mkPBF source 0)
  = Ok (pbfLayers, p) ->
  Forall (fun nl => layerCounted (snd nl))
    (selectedLayers this (Layers.own pbfLayers)).
Proof.
  intros H. unfold readFields in H.
  assert (Hall : Forall (fun nl => layerCounted (snd nl))
                   (Layers.own pbfLayers)).
  { eapply (readFieldsLoop_invariant
              (fun ls => Forall (fun nl => layerCounted (snd nl))
                           (Layers.own ls))
              layersPBFReader); [| | exact H].
    - intros tag r p0 r' q Hr Hread.
      eapply layersPBFReader_counted; eassumption.
    - constructor. }
  rewrite Forall_forall in *. intros nl Hin. unfold selectedLayers in Hin.
  apply filter_In in Hin. destruct Hin as [Hin _].
  apply Hall. apply forIn_In. exact Hin.
Qed.

Lemma valueOf_Throw_inv {A B : Type} (r : res (A * B)) (e : exn) :
  valueOf r = Throw e -> r = Throw e.
Proof.
  unfold valueOf. destruct r as [[a b] | ? |]; cbn [bind]; intros H;
    try discriminate.
  injection H as ->. reflexivity.
Qed.

(** The first record of a layer that throws decides the outcome of the
    layer. *)
Lemma featuresFrom_first_throw (fuel : nat) (this : MVT) (b : list Z)
    (layer : RawLayer.t) (e : exn) (k : nat) :
  forall count i fs,
    featuresFrom fuel this b layer k i = Ok fs ->
    featureAt fuel this b layer (i + Z.of_nat k) = Throw e ->
    (k < count)%nat ->
    featuresFrom fuel this b layer count i = Throw e.
Proof.
  induction k as [| k IH]; intros count i fs Hfs Hat Hlt;
    (destruct count as [| count]; [lia |]); cbn [featuresFrom] in *.
  - rewrite Z.add_0_r in Hat. rewrite Hat. reflexivity.
  - inv_bind Hfs. inv_bind Hfs. rewrite Hm. cbn [bind].
    rewrite (IH count (i + 1) a0 Hm0); [reflexivity | | lia].
    replace (i + 1 + Z.of_nat k) with (i + Z.of_nat (S k)) by lia.
    exact Hat.
Qed.

(** The first layer that throws decides the outcome of the tile. *)
Lemma allFeatures_first_throw (fuel : nat) (this : MVT) (b : list Z)
    (e : exn) (name : string) (layer : RawLayer.t)
    (after : list (string * RawLayer.t)) :
  featuresFrom fuel this b layer (Z.to_nat (RawLayer.length layer)) 0
  = Throw e ->
  forall before fs,
    allFeatures fuel this b before = Ok fs ->
    allFeatures fuel this b (before ++ (name, layer) :: after) = Throw e.
Proof.
  intros Hthrow. induction before as [| [name0 layer0] rest IH];
    intros fs H; cbn [app allFeatures] in *.
  - rewrite Hthrow. reflexivity.
  - inv_bind H. inv_bind H. rewrite Hm. cbn [bind].
    rewrite (IH a0 Hm0). reflexivity.
Qed.

(** ** Tile-level outcome of a corrupt feature *)

(** C2 (as amended): a command stream in which the decoder meets a command
    other than MoveTo (1), LineTo (2) and ClosePath (7) makes
    [readRawGeometry_] throw InvalidGeometryCommand (assertion 59) at that
    command; nothing catches the exception: decoding the feature throws it,
    and [readFeatures], once it has decoded the records it visits before
    that one, throws it too and returns no array of features at all. *)
Theorem C2_invalid_command_aborts_tile :
  (forall fuel p feature flat0 ends0 g size p1 n s s1,
      RawFeature.geometry feature = Some g ->
      readVarint (setPos p g) = Ok (size, p1) ->
      reaches (size + pos p1) n (RawGeometry.init p1 flat0 ends0) s ->
      pos (RawGeometry.pbf s) < size + pos p1 ->
      RawGeometry.readCommand s = Ok s1 ->
      RawGeometry.cmd s1 <> 1 -> RawGeometry.cmd s1 <> 2 ->
      RawGeometry.cmd s1 <> 7 ->
      (n < fuel)%nat ->
      readRawGeometry_ fuel p feature flat0 ends0
      = Throw InvalidGeometryCommand) /\
  (forall fuel this b layer i rawFeature p1 e,
      readRawFeature (mkPBF b 0) layer i = Ok (rawFeature, p1) ->
      RawFeature.type rawFeature <> 0 ->
      readRawGeometry_ fuel p1 rawFeature [] [] = Throw e ->
      featureAt fuel this b layer i = Throw e) /\
  (forall fuel this source pbfLayers p before name layer after i fs1 fs2 e,
      readFields layersPBFReader Layers.empty None (mkPBF source 0)
      = Ok (pbfLayers, p) ->
      selectedLayers this (Layers.own pbfLayers)
      = before ++ (name, layer) :: after ->
      allFeatures fuel this source before = Ok fs1 ->
      0 <= i < RawLayer.length layer ->
      featuresFrom fuel this source layer (Z.to_nat i) 0 = Ok fs2 ->
      featureAt fuel this source layer i = Throw e ->
      readFeatures fuel this source = Throw e).
Proof.
  split; [| split].
  - intros fuel p feature flat0 ends0 g size p1 n s s1 Hg Hv Hre Hp Hr
      H1 H2 H7 Hfuel.
    unfold readRawGeometry_. rewrite Hg, Hv. cbn [bind].
    rewrite (loop_throws_at_invalid _ _ _ _ Hre s1 Hp Hr H1 H2 H7 fuel Hfuel).
    reflexivity.
  - intros fuel this b layer i rawFeature p1 e Hraw Ht Hg.
    unfold featureAt. rewrite Hraw. cbn [bind]. unfold createFeature_.
    apply Z.eqb_neq in Ht. rewrite Ht, Hg. reflexivity.
  - intros fuel this source pbfLayers p before name layer after i fs1 fs2 e
      Hread Hsel Hbefore Hi Hfs Hat.
    apply valueOf_Throw_inv.
    rewrite readFeatures_allFeatures, Hread. cbn [bind].
    rewrite Hsel.
    rewrite (allFeatures_first_throw fuel this source e name layer after
               (featuresFrom_first_throw fuel this source layer e
                  (Z.to_nat i) (Z.to_nat (RawLayer.length layer)) 0 fs2 Hfs
                  ltac:(rewrite Z.add_0_l, Z2Nat.id by lia; exact Hat)
                  ltac:(lia))
               before fs1 Hbefore).
    reflexivity.
Qed.

Lemma C2_invalid_command_aborts_tile_witness :
  readRawGeometry_ 100 (mkPBF corruptTile 0) corruptRawFeature [] []
  = Throw InvalidGeometryCommand /\
  featureAt 100 defaultMVT corruptTile corruptLayer 1
  = Throw InvalidGeometryCommand /\
  readFeatures 100 defaultMVT corruptTile = Throw InvalidGeometryCommand.
Proof.
  destruct C2_invalid_command_aborts_tile as (Hgeometry & Hfeature & Htile).
  split; [| split].
  - apply (Hgeometry 100%nat (mkPBF corruptTile 0) corruptRawFeature [] []
             25 4 (mkPBF corruptTile 26) 1%nat beforeCorruptCommand
             (RawGeometry.mk (mkPBF corruptTile 30) 3 0 0 0 2 0 [0; 0] [])).
    + reflexivity.
    + reflexivity.
    + apply (reaches_turn _ _ _ beforeCorruptCommand).
      * reflexivity.
      * reflexivity.
      * apply reaches_here.
    + reflexivity.
    + reflexivity.
    + discriminate.
    + discriminate.
    + discriminate.
    + lia.
  - apply (Hfeature 100%nat defaultMVT corruptTile corruptLayer 1
             corruptRawFeature (mkPBF corruptTile 30)).
    + reflexivity.
    + discriminate.
    + reflexivity.
  - apply (Htile 100%nat defaultMVT corruptTile
             (Layers.mk [("a"%string, corruptLayer)] None)
             (mkPBF corruptTile 33) [] "a"%string corruptLayer [] 1
             [] [Some pointFeature] InvalidGeometryCommand).
    + vm_compute. reflexivity.
    + reflexivity.
    + reflexivity.
    + cbn. lia.
    + vm_compute. reflexivity.
    + vm_compute. reflexivity.
Defined.

(** C2 fails as stated: the first feature of [corruptTile] is sound (it is
    decoded on its own, and returned for [soundTile]), the second one holds
    the command 3; [readFeatures] throws InvalidGeometryCommand and returns
    no feature, the sound one included. *)
Lemma C2_corrupt_feature_loses_tile :
  featureAt 100 defaultMVT corruptTile corruptLayer 0
  = Ok (Some pointFeature) /\
  valueOf (readFeatures 100 defaultMVT soundTile)
  = Ok [Some pointFeature] /\
  readFeatures 100 defaultMVT corruptTile = Throw InvalidGeometryCommand /\
  ~ (exists this' features,
        readFeatures 100 defaultMVT corruptTile = Ok (this', features) /\
        In (Some pointFeature) features).
Proof.
  split; [reflexivity |]. split; [reflexivity |]. split; [reflexivity |].
  intros (this' & features & H & _).
  assert (E : readFeatures 100 defaultMVT corruptTile
              = Throw InvalidGeometryCommand) by reflexivity.
  rewrite E in H. discriminate H.
Qed.

(** ** Features of unknown geometry type *)

(** C10: for a feature record whose geometry type is 0, [createFeature_]
    returns null, and the loop of [readFeatures] pushes that null like any
    other feature; the array [readFeatures] returns has one entry per
    feature record of the selected layers of the layers object, which are
    the layers it holds as own properties under the names the format does
    not skip (a layer record named "__proto__" is not held as one, see
    [setLayer], and the call does not return when a property of such a
    prototype makes the loop throw). *)
Theorem C10_null_features_are_pushed :
  (forall fuel this p rawFeature,
      RawFeature.type rawFeature = 0 ->
      createFeature_ fuel this p rawFeature = Ok (p, None)) /\
  (forall fuel this layer count i p features rawFeature p1,
      readRawFeature p layer i = Ok (rawFeature, p1) ->
      RawFeature.type rawFeature = 0 ->
      layerFeatures fuel this layer (S count) i p features
      = layerFeatures fuel this layer count (i + 1) p1
          (features ++ [None])) /\
  (forall fuel this source this' features pbfLayers p,
      readFeatures fuel this source = Ok (this', features) ->
      readFields layersPBFReader Layers.empty None (mkPBF source 0)
      = Ok (pbfLayers, p) ->
      List.length features
      = featureRecords (selectedLayers this (Layers.own pbfLayers))).
Proof.
  split; [| split].
  - intros fuel this p rawFeature Ht. unfold createFeature_.
    rewrite Ht. reflexivity.
  - intros fuel this layer count i p features rawFeature p1 Hraw Ht.
    cbn [layerFeatures]. rewrite Hraw. cbn [bind].
    unfold createFeature_ at 1. rewrite Ht. reflexivity.
  - intros fuel this source this' features pbfLayers p Hok Hread.
    pose proof (readFeatures_allFeatures fuel this source) as Hall.
    rewrite Hok, Hread in Hall. cbn [valueOf bind] in Hall.
    destruct (allFeatures fuel this source
                (selectedLayers this (Layers.own pbfLayers)))
      as [gs | ? |] eqn:Egs; cbn [bind] in Hall; try discriminate Hall.
    destruct (inheritedThrows this (inherited pbfLayers));
      [discriminate Hall |].
    injection Hall as ->.
    apply (allFeatures_length fuel this source _
             (selectedLayers_counted this source pbfLayers p Hread)).
    exact Egs.
Qed.

Lemma C10_null_features_are_pushed_witness :
  createFeature_ 100 defaultMVT (mkPBF unknownTypeTile 16)
    (RawFeature.mk unknownTypeLayer 0 [] None (Some 12) false)
  = Ok (mkPBF unknownTypeTile 16, None) /\
  readFeatures 100 defaultMVT unknownTypeTile
  = Ok (mkMVT RenderFeature None "layer" None
          (Some [Some 0; Some 0; Some 4096; Some 4096]),
        [None; Some pointFeature]) /\
  List.length [None; Some pointFeature]
  = featureRecords
      (selectedLayers defaultMVT [("a"%string, unknownTypeLayer)]).
Proof.
  destruct C10_null_features_are_pushed as (Hnull & _ & Hlength).
  split; [| split].
  - apply Hnull. reflexivity.
  - reflexivity.
  - apply (Hlength 100%nat defaultMVT unknownTypeTile
             (mkMVT RenderFeature None "layer" None
                (Some [Some 0; Some 0; Some 4096; Some 4096]))
             [None; Some pointFeature]
             (Layers.mk [("a"%string, unknownTypeLayer)] None)
             (mkPBF unknownTypeTile 30)).
    + reflexivity.
    + reflexivity.
Defined.

(** ** Property values *)

Lemma varintFrom_pos (n : nat) (b : list Z) :
  forall i shift acc v j,
    varintFrom n b i shift acc = Ok (v, j) ->
    0 <= i /\ i < j /\ j <= Z.of_nat (List.length b).
Proof.
  induction n as [| n IH]; intros i shift acc v j H; cbn [varintFrom] in H;
    [discriminate |].
  destruct (byteAt b i) as [byte |] eqn:Hb; [| discriminate].
  assert (Hi : 0 <= i /\ i < Z.of_nat (List.length b)).
  { unfold byteAt in Hb. destruct (i <? 0) eqn:Hneg; [discriminate |].
    apply Z.ltb_ge in Hneg.
    assert (Hn : (Z.to_nat i < List.length b)%nat).
    { apply nth_error_Some. rewrite Hb. discriminate. }
    lia. }
  destruct (byte <? 128).
  - injection H as _ <-. lia.
  - apply IH in H. lia.
Qed.

(** A varint that is read lies inside the buffer and is at least one byte
    long. *)
Lemma readVarint_pos (p q : PBF) (v : Z) :
  readVarint p = Ok (v, q) ->
  0 <= pos p /\ pos p < pos q /\ pos q <= len p.
Proof.
  unfold readVarint. intros H.
  destruct (varintFrom 10 (buf p) (pos p) 0 0) as [[v' i] | ? |] eqn:E;
    cbn [bind] in H; try discriminate.
  injection H as _ <-. apply varintFrom_pos in E. unfold len. simpl. exact E.
Qed.

Lemma readValue_unknown (tag : Z) (p : PBF) :
  recognizedTag tag = false -> readValue tag p = Ok (VNull, p).
Proof.
  unfold recognizedTag, readValue. intros H.
  apply andb_false_iff in H.
  assert (Hn : tag < 1 \/ 7 < tag).
  { destruct H as [H | H]; [left; apply Z.leb_gt in H | right;
      apply Z.leb_gt in H]; exact H. }
  repeat match goal with
  | |- (if ?t =? ?k then _ else _) = _ =>
      destruct (Z.eqb_spec t k) as [Heq | _]; [lia |]
  end.
  reflexivity.
Qed.

Lemma unknownTags_bound (e : Z) (n : nat) (p q : PBF) :
  unknownTags e n p q ->
  buf q = buf p /\ Z.of_nat n <= pos q - pos p /\
  ((0 < n)%nat -> 0 <= pos p /\ pos q <= len p).
Proof.
  induction 1 as [p Hp | n p p1 q k Hlt Hr Hu Hre IH].
  - split; [reflexivity |]. split; [lia |]. intros Hn. lia.
  - destruct IH as (Hb & Hn & Hq).
    pose proof (readVarint_buf _ _ _ Hr) as Hb1.
    pose proof (readVarint_pos _ _ _ Hr) as (H0 & H1 & H2).
    split; [congruence |]. split; [lia |]. intros _. split; [exact H0 |].
    destruct n as [| n].
    + inversion Hre; subst. exact H2.
    + destruct (Hq ltac:(lia)) as [_ Hq']. unfold len in *.
      rewrite Hb1 in Hq'. exact Hq'.
Qed.

Lemma valueLoop_unknown (e : Z) (n : nat) (p q : PBF) :
  unknownTags e n p q ->
  forall fuel, (n <= fuel)%nat ->
    valueLoop fuel e VNull p = Ok (VNull, q).
Proof.
  induction 1 as [p Hp | n p p1 q k Hlt Hr Hu Hre IH]; intros fuel Hfuel.
  - apply Z.ltb_ge in Hp. destruct fuel; cbn [valueLoop]; rewrite Hp;
      reflexivity.
  - destruct fuel as [| fuel]; [lia |]. cbn [valueLoop].
    apply Z.ltb_lt in Hlt. rewrite Hlt, Hr. cbn [bind].
    rewrite (readValue_unknown _ _ Hu). cbn [bind]. apply IH. lia.
Qed.

(** C9 (as amended): a tag that is not one of 1 (string), 2 (float),
    3 (double), 4 (varint64), 5 (varint), 6 (zig-zag varint) and 7 (boolean)
    decodes to null without failing; a value record in which all the tags
    the decoder reads are of that kind has the value null pushed onto the
    layer's values, and the layer reader goes on behind the record. *)
Theorem C9_unknown_tag_is_null :
  (forall tag p,
      recognizedTag tag = false -> readValue tag p = Ok (VNull, p)) /\
  (forall layer p size p1 n q,
      readVarint p = Ok (size, p1) ->
      unknownTags (size + pos p1) n p1 q ->
      layerPBFReader 4 layer p = Ok (pushValue layer VNull, q)).
Proof.
  split; [exact readValue_unknown |].
  intros layer p size p1 n q Hlen Hu.
  unfold layerPBFReader. destruct layer. cbn [Z.eqb Pos.eqb].
  rewrite Hlen. cbn [bind].
  rewrite (valueLoop_unknown _ _ _ _ Hu).
  - reflexivity.
  - destruct (unknownTags_bound _ _ _ _ Hu) as (_ & Hn & Hq).
    destruct n as [| n]; [lia |].
    destruct (Hq ltac:(lia)) as [H0 Hq']. unfold len in Hq'. lia.
Qed.

Lemma C9_unknown_tag_is_null_witness :
  readValue 8 (mkPBF unknownValueRecord 3)
  = Ok (VNull, mkPBF unknownValueRecord 3) /\
  layerPBFReader 4 RawLayer.empty (mkPBF unknownValueRecord 1)
  = Ok (pushValue RawLayer.empty VNull, mkPBF unknownValueRecord 4).
Proof.
  destruct C9_unknown_tag_is_null as [Htag Hrecord]. split.
  - apply Htag. reflexivity.
  - apply (Hrecord RawLayer.empty (mkPBF unknownValueRecord 1) 2
             (mkPBF unknownValueRecord 2) 2%nat (mkPBF unknownValueRecord 4)).
    + reflexivity.
    + apply (unknownTags_turn _ _ _ (mkPBF unknownValueRecord 3) _ 64);
        [reflexivity | reflexivity | reflexivity |].
      apply (unknownTags_turn _ _ _ (mkPBF unknownValueRecord 4) _ 0);
        [reflexivity | reflexivity | reflexivity |].
      apply unknownTags_done. simpl. lia.
Defined.

(** C9 fails as stated: the value record of [unknownValueRecord10] has the
    single field 8, whose tag is not recognized, with the varint 10 as its
    payload.  The payload is not skipped: the decoder reads it as the tag 1
    and the value of the record becomes a string made of the bytes that
    follow the record (the extent field of the layer, which is lost); at
    the end of a tile the same record makes the layer reader throw. *)
Lemma C9_unknown_tag_payload_is_read_as_tags :
  readVarint (mkPBF unknownValueRecord10 2)
  = Ok (64, mkPBF unknownValueRecord10 3) /\
  shiftRight 64 3 = 8 /\
  recognizedTag 8 = false /\
  (exists s q,
     layerPBFReader 4 RawLayer.empty (mkPBF unknownValueRecord10 1)
     = Ok (pushValue RawLayer.empty (VString s), q)) /\
  layerPBFReader 4 RawLayer.empty (mkPBF unknownValueRecord10 1)
  <> Ok (pushValue RawLayer.empty VNull, mkPBF unknownValueRecord10 4) /\
  layerPBFReader 4 RawLayer.empty (mkPBF unknownValueRecordLast 1)
  = Throw varintError.
Proof.
  split; [reflexivity |]. split; [reflexivity |]. split; [reflexivity |].
  split; [eexists; eexists; reflexivity |].
  split; [| reflexivity].
  intros H.
  assert (E : exists s q,
             layerPBFReader 4 RawLayer.empty (mkPBF unknownValueRecord10 1)
             = Ok (pushValue RawLayer.empty (VString s), q))
    by (eexists; eexists; reflexivity).
  destruct E as (s & q & E). rewrite E in H. discriminate H.
Qed.

(** ** Which loops end *)

(** The geometry loop is not bounded by the stream: after a ClosePath
    command with count 0 the count never comes back to 0, no byte is read
    any more and the loop does not end, whatever the fuel. *)
Lemma loop_spins_on_zero_count (fuel : nat) :
  forall count : Z,
    count < 0 ->
    RawGeometry.loop fuel 3
      (RawGeometry.mk (mkPBF closePathCountZero 2) 7 count 0 0 0 0 [] [])
    = OutOfFuel.
Proof.
  induction fuel as [| fuel IH]; intros count Hc; [reflexivity |].
  cbn [RawGeometry.loop RawGeometry.pbf pos].
  replace (2 <? 3) with true by reflexivity.
  unfold RawGeometry.iteration, RawGeometry.readCommand.
  cbn [RawGeometry.length].
  destruct (Z.eqb_spec count 0) as [E | _]; [lia |].
  cbn [bind RawGeometry.cmd RawGeometry.pbf RawGeometry.x RawGeometry.y
       RawGeometry.coordsLen RawGeometry.currentEnd
       RawGeometry.flatCoordinates RawGeometry.ends RawGeometry.length].
  replace ((7 =? 1) || (7 =? 2)) with false by reflexivity.
  replace (7 =? 7) with true by reflexivity.
  unfold RawGeometry.closePath.
  cbn [bind RawGeometry.cmd RawGeometry.pbf RawGeometry.x RawGeometry.y
       RawGeometry.coordsLen RawGeometry.currentEnd
       RawGeometry.flatCoordinates RawGeometry.ends RawGeometry.length].
  replace (0 <? 0) with false by reflexivity.
  apply IH. lia.
Qed.

Lemma readRawGeometry__may_not_end (fuel : nat) :
  readRawGeometry_ fuel (mkPBF closePathCountZero 0) (featureAt0 3) [] []
  = OutOfFuel.
Proof.
  destruct fuel as [| fuel]; [reflexivity |].
  unfold readRawGeometry_. cbn [featureAt0 RawFeature.geometry].
  replace (readVarint (setPos (mkPBF closePathCountZero 0) 0))
    with (Ok (2, mkPBF closePathCountZero 1)) by reflexivity.
  cbn [bind pos]. unfold RawGeometry.init.
  cbn [RawGeometry.loop RawGeometry.pbf pos].
  replace (1 <? 2 + 1) with true by reflexivity.
  replace (RawGeometry.iteration
             (RawGeometry.mk (mkPBF closePathCountZero 1) 1 0 0 0 0 0 [] []))
    with (Ok (RawGeometry.mk (mkPBF closePathCountZero 2) 7 (-1) 0 0 0 0
                [] [])) by reflexivity.
  cbn [bind]. change (2 + 1) with 3.
  rewrite (loop_spins_on_zero_count fuel (-1)) by lia.
  reflexivity.
Qed.

Lemma varintFrom_returns (n : nat) (b : list Z) :
  forall i shift acc, varintFrom n b i shift acc <> OutOfFuel.
Proof.
  induction n as [| n IH]; intros i shift acc; cbn [varintFrom];
    [discriminate |].
  destruct (byteAt b i); [| discriminate].
  destruct (z <? 128); [discriminate | apply IH].
Qed.

Lemma varintFrom_value (n : nat) (b : list Z) :
  forall i shift acc v j,
    varintFrom n b i shift acc = Ok (v, j) -> 0 <= v.
Proof.
  induction n as [| n IH]; intros i shift acc v j H; cbn [varintFrom] in H;
    [discriminate |].
  destruct (byteAt b i); [| discriminate].
  destruct (z <? 128).
  - injection H as <- _. apply Z.mod_pos_bound. lia.
  - exact (IH _ _ _ _ _ H).
Qed.

Lemma readVarint_returns (p : PBF) : readVarint p <> OutOfFuel.
Proof.
  unfold readVarint.
  pose proof (varintFrom_returns 10 (buf p) (pos p) 0 0) as H.
  destruct (varintFrom 10 (buf p) (pos p) 0 0) as [[v i] | ? |];
    cbn [bind]; [discriminate | discriminate | contradiction].
Qed.

Lemma readVarint_value (p q : PBF) (v : Z) :
  readVarint p = Ok (v, q) -> 0 <= v.
Proof.
  unfold readVarint. intros H.
  destruct (varintFrom 10 (buf p) (pos p) 0 0) as [[v' i] | ? |] eqn:E;
    cbn [bind] in H; try discriminate.
  injection H as <- _. exact (varintFrom_value _ _ _ _ _ _ _ E).
Qed.

(** A method that reads one varint and then sets the cursor at or behind
    the end of the varint. *)
Lemma steady_after_varint {A : Type} (k : Z * PBF -> res (A * PBF)) :
  (forall v p1,
      0 <= v ->
      k (v, p1) <> OutOfFuel /\
      forall a q, k (v, p1) = Ok (a, q) -> pos p1 <= pos q) ->
  steady (fun p => bind (readVarint p) k).
Proof.
  intros Hk p. pose proof (readVarint_returns p) as Hr.
  destruct (readVarint p) as [[v p1] | ? |] eqn:E; cbn [bind].
  - destruct (Hk v p1 (readVarint_value _ _ _ E)) as [H1 H2].
    split; [exact H1 |]. intros a q Hq. apply H2 in Hq.
    apply readVarint_pos in E. lia.
  - split; [discriminate |]. intros a q Hq. discriminate.
  - contradiction.
Qed.

Ltac steady_varint :=
  apply steady_after_varint; intros v p1 Hv; split;
  [discriminate | intros a q Hq; injection Hq as _ <-; cbn [setPos pos]; lia].

Lemma readVarint_steady : steady readVarint.
Proof.
  intros p. split; [apply readVarint_returns |].
  intros a q H. apply readVarint_pos in H. lia.
Qed.

Lemma readVarint64_steady : steady readVarint64.
Proof. unfold readVarint64. steady_varint. Qed.

Lemma readSVarint_steady : steady readSVarint.
Proof. unfold readSVarint. steady_varint. Qed.

Lemma readBoolean_steady : steady readBoolean.
Proof. unfold readBoolean. steady_varint. Qed.

Lemma readString_steady : steady readString.
Proof. unfold readString. steady_varint. Qed.

Lemma readFloat_steady : steady readFloat.
Proof.
  intros p. split; [discriminate |]. intros a q H. injection H as _ <-.
  cbn [setPos pos]. lia.
Qed.

Lemma readDouble_steady : steady readDouble.
Proof.
  intros p. split; [discriminate |]. intros a q H. injection H as _ <-.
  cbn [setPos pos]. lia.
Qed.

Lemma skipVarint_advances (n : nat) (b : list Z) :
  forall i, i < skipVarint n b i.
Proof.
  induction n as [| n IH]; intros i; cbn [skipVarint];
    destruct (byteAt b i); try lia; destruct (127 <? z); try lia.
  specialize (IH (i + 1)). lia.
Qed.

Lemma skip_steady (val : Z) (p : PBF) :
  skip val p <> OutOfFuel /\
  forall q, skip val p = Ok q -> pos p <= pos q.
Proof.
  unfold skip.
  destruct (bitAnd val 7 =? 0).
  { split; [discriminate |]. intros q H. injection H as <-.
    cbn [setPos pos].
    pose proof (skipVarint_advances (List.length (buf p)) (buf p) (pos p)).
    lia. }
  destruct (bitAnd val 7 =? 2).
  { pose proof (readVarint_returns p) as Hr.
    destruct (readVarint p) as [[n q0] | ? |] eqn:E; cbn [bind].
    - split; [discriminate |]. intros q H. injection H as <-.
      cbn [setPos pos]. pose proof (readVarint_value _ _ _ E).
      apply readVarint_pos in E. lia.
    - split; [discriminate |]. intros q H. discriminate.
    - contradiction. }
  destruct (bitAnd val 7 =? 5).
  { split; [discriminate |]. intros q H. injection H as <-.
    cbn [setPos pos]. lia. }
  destruct (bitAnd val 7 =? 1).
  { split; [discriminate |]. intros q H. injection H as <-.
    cbn [setPos pos]. lia. }
  split; [discriminate |]. intros q H. discriminate.
Qed.

Lemma readValue_steady (tag : Z) : steady (readValue tag).
Proof.
  intros p. unfold readValue.
  repeat match goal with
  | |- context [if ?c then _ else _] => destruct c
  end;
  try (split; [discriminate | intros a q H; injection H as _ <-; lia]).
  - destruct (readString_steady p) as [H1 H2].
    destruct (readString p) as [[s q0] | ? |]; cbn [bind];
      [| split; [discriminate | intros; discriminate] | contradiction].
    split; [discriminate |]. intros a q H. injection H as _ <-.
    exact (H2 _ _ eq_refl).
  - destruct (readFloat_steady p) as [H1 H2].
    destruct (readFloat p) as [[s q0] | ? |]; cbn [bind];
      [| split; [discriminate | intros; discriminate] | contradiction].
    split; [discriminate |]. intros a q H. injection H as _ <-.
    exact (H2 _ _ eq_refl).
  - destruct (readDouble_steady p) as [H1 H2].
    destruct (readDouble p) as [[s q0] | ? |]; cbn [bind];
      [| split; [discriminate | intros; discriminate] | contradiction].
    split; [discriminate |]. intros a q H. injection H as _ <-.
    exact (H2 _ _ eq_refl).
  - destruct (readVarint64_steady p) as [H1 H2].
    destruct (readVarint64 p) as [[s q0] | ? |]; cbn [bind];
      [| split; [discriminate | intros; discriminate] | contradiction].
    split; [discriminate |]. intros a q H. injection H as _ <-.
    exact (H2 _ _ eq_refl).
  - destruct (readVarint_steady p) as [H1 H2].
    destruct (readVarint p) as [[s q0] | ? |]; cbn [bind];
      [| split; [discriminate | intros; discriminate] | contradiction].
    split; [discriminate |]. intros a q H. injection H as _ <-.
    exact (H2 _ _ eq_refl).
  - destruct (readSVarint_steady p) as [H1 H2].
    destruct (readSVarint p) as [[s q0] | ? |]; cbn [bind];
      [| split; [discriminate | intros; discriminate] | contradiction].
    split; [discriminate |]. intros a q H. injection H as _ <-.
    exact (H2 _ _ eq_refl).
  - destruct (readBoolean_steady p) as [H1 H2].
    destruct (readBoolean p) as [[s q0] | ? |]; cbn [bind];
      [| split; [discriminate | intros; discriminate] | contradiction].
    split; [discriminate |]. intros a q H. injection H as _ <-.
    exact (H2 _ _ eq_refl).
Qed.

(** After a varint was read at [p], one turn less is enough from any cursor
    behind the varint. *)
Lemma enoughTurns_next (n : nat) (p p1 q : PBF) (v : Z) :
  enoughTurns (S n) p ->
  readVarint p = Ok (v, p1) ->
  buf q = buf p -> pos p1 <= pos q ->
  enoughTurns n q.
Proof.
  intros [_ Hn] Hr Hb Hq. apply readVarint_pos in Hr.
  unfold enoughTurns, len in *. rewrite Hb. split; lia.
Qed.

Lemma enoughTurns_buffer (p : PBF) : enoughTurns (S (List.length (buf p))) p.
Proof. unfold enoughTurns, len. split; lia. Qed.

Lemma valueLoop_ends (n : nat) (e : Z) :
  forall v p,
    enoughTurns n p ->
    valueLoop n e v p <> OutOfFuel /\
    forall a q, valueLoop n e v p = Ok (a, q) -> pos p <= pos q.
Proof.
  induction n as [| n IH]; intros v p Hn; [destruct Hn; lia |].
  cbn [valueLoop]. destruct (pos p <? e).
  2:{ split; [discriminate |]. intros a q H. injection H as _ <-. lia. }
  pose proof (readVarint_returns p) as Hr.
  destruct (readVarint p) as [[k p1] | ? |] eqn:E; cbn [bind];
    [| split; [discriminate | intros; discriminate] | contradiction].
  destruct (readValue_steady (shiftRight k 3) p1) as [H1 H2].
  destruct (readValue (shiftRight k 3) p1) as [[v' p2] | ? |] eqn:E2;
    cbn [bind];
    [| split; [discriminate | intros; discriminate] | contradiction].
  specialize (H2 _ _ eq_refl).
  assert (Hb : buf p2 = buf p).
  { apply readValue_keepsBuf in E2. apply readVarint_buf in E. congruence. }
  destruct (IH v' p2 (enoughTurns_next _ _ _ _ _ Hn E Hb H2)) as [I1 I2].
  split; [exact I1 |]. intros a q H. apply I2 in H.
  apply readVarint_pos in E. lia.
Qed.

Lemma propertiesLoop_ends (n : nat) (e : Z) :
  forall feature p,
    enoughTurns n p ->
    propertiesLoop n e feature p <> OutOfFuel /\
    forall a q, propertiesLoop n e feature p = Ok (a, q) -> pos p <= pos q.
Proof.
  induction n as [| n IH]; intros feature p Hn; [destruct Hn; lia |].
  cbn [propertiesLoop]. destruct (pos p <? e).
  2:{ split; [discriminate |]. intros a q H. injection H as _ <-. lia. }
  pose proof (readVarint_returns p) as Hr.
  destruct (readVarint p) as [[ki p1] | ? |] eqn:E; cbn [bind];
    [| split; [discriminate | intros; discriminate] | contradiction].
  pose proof (readVarint_returns p1) as Hr1.
  destruct (readVarint p1) as [[vi p2] | ? |] eqn:E2; cbn [bind];
    [| split; [discriminate | intros; discriminate] | contradiction].
  destruct feature.
  assert (Hb : buf p2 = buf p).
  { apply readVarint_buf in E, E2. congruence. }
  assert (Hq : pos p1 <= pos p2) by (apply readVarint_pos in E2; lia).
  match goal with
  | |- propertiesLoop n e ?f p2 <> _ /\ _ =>
      destruct (IH f p2 (enoughTurns_next _ _ _ _ _ Hn E Hb Hq)) as [I1 I2]
  end.
  split; [exact I1 |]. intros a q H. apply I2 in H.
  apply readVarint_pos in E. lia.
Qed.

Lemma readFieldsLoop_ends {R : Type}
    (readField : Z -> R -> PBF -> res (R * PBF)) :
  (forall tag r, steady (readField tag r)) ->
  (forall tag r, keepsBuf (readField tag r)) ->
  forall n r e p,
    enoughTurns n p ->
    readFieldsLoop n readField r e p <> OutOfFuel /\
    forall a q, readFieldsLoop n readField r e p = Ok (a, q) ->
                pos p <= pos q.
Proof.
  intros Hs Hk n. induction n as [| n IH]; intros r e p Hn;
    [destruct Hn; lia |].
  cbn [readFieldsLoop]. destruct (pos p <? e).
  2:{ split; [discriminate |]. intros a q H. injection H as _ <-. lia. }
  pose proof (readVarint_returns p) as Hr.
  destruct (readVarint p) as [[val p1] | ? |] eqn:E; cbn [bind];
    [| split; [discriminate | intros; discriminate] | contradiction].
  destruct (Hs (shiftRight val 3) r p1) as [H1 H2].
  destruct (readField (shiftRight val 3) r p1) as [[r' p2] | ? |] eqn:E2;
    cbn [bind];
    [| split; [discriminate | intros; discriminate] | contradiction].
  specialize (H2 _ _ eq_refl). apply Hk in E2.
  assert (Hskip : exists p3,
             (if pos p2 =? pos p1 then skip val p2 else Ok p2) = Ok p3 /\
             buf p3 = buf p2 /\ pos p2 <= pos p3
             \/ exists x,
                (if pos p2 =? pos p1 then skip val p2 else Ok p2) = Throw x).
  { destruct (pos p2 =? pos p1).
    - destruct (skip_steady val p2) as [S1 S2].
      destruct (skip val p2) as [p3 | x |] eqn:E3.
      + exists p3. left. split; [reflexivity |].
        split; [exact (skip_buf _ _ _ E3) | exact (S2 _ eq_refl)].
      + exists p2. right. exists x. reflexivity.
      + contradiction.
    - exists p2. left. split; [reflexivity |]. split; [reflexivity | lia]. }
  destruct Hskip as (p3 & [(-> & Hb3 & Hp3) | (x & ->)]); cbn [bind].
  - assert (Hb : buf p3 = buf p).
    { apply readVarint_buf in E. congruence. }
    assert (Hq : pos p1 <= pos p3) by lia.
    destruct (IH r' e p3 (enoughTurns_next _ _ _ _ _ Hn E Hb Hq))
      as [I1 I2].
    split; [exact I1 |]. intros a q H. apply I2 in H.
    apply readVarint_pos in E. lia.
  - split; [discriminate |]. intros; discriminate.
Qed.

Lemma readFields_steady {R : Type}
    (readField : Z -> R -> PBF -> res (R * PBF)) :
  (forall tag r, steady (readField tag r)) ->
  (forall tag r, keepsBuf (readField tag r)) ->
  forall r e, steady (readFields readField r e).
Proof.
  intros Hs Hk r e p. unfold readFields.
  apply (readFieldsLoop_ends readField Hs Hk). apply enoughTurns_buffer.
Qed.

Ltac steady_leaf :=
  split; [discriminate | intros ? ? H; injection H as _ <-; lia].

Ltac steady_via S :=
  let H1 := fresh "H1" in
  let H2 := fresh "H2" in
  match goal with
  | |- bind (?f ?p) _ <> _ /\ _ =>
      destruct (S p) as [H1 H2];
      destruct (f p) as [[? ?] | ? |]; cbn [bind];
      [| split; [discriminate | intros; discriminate] | contradiction];
      split; [discriminate |];
      let H := fresh "H" in
      intros ? ? H; injection H as _ <-; exact (H2 _ _ eq_refl)
  end.

Lemma layerPBFReader_steady (tag : Z) (layer : RawLayer.t) :
  steady (layerPBFReader tag layer).
Proof.
  intros p. unfold layerPBFReader. destruct layer.
  repeat match goal with
  | |- context [if ?c then _ else _] => destruct c
  end;
  try steady_leaf.
  - steady_via readVarint_steady.
  - steady_via readString_steady.
  - steady_via readVarint_steady.
  - steady_via readString_steady.
  - pose proof (readVarint_returns p) as Hr.
    destruct (readVarint p) as [[n p1] | ? |] eqn:E; cbn [bind];
      [| split; [discriminate | intros; discriminate] | contradiction].
    destruct (valueLoop_ends (S (List.length (buf p1))) (n + pos p1) VNull p1
                (enoughTurns_buffer p1)) as [H1 H2].
    destruct (valueLoop (S (List.length (buf p1))) (n + pos p1) VNull p1)
      as [[v p2] | ? |]; cbn [bind];
      [| split; [discriminate | intros; discriminate] | contradiction].
    split; [discriminate |]. intros a q H. injection H as _ <-.
    specialize (H2 _ _ eq_refl). apply readVarint_pos in E. lia.
Qed.

Lemma layersPBFReader_steady (tag : Z) (layers : Layers.t) :
  steady (layersPBFReader tag layers).
Proof.
  intros p. unfold layersPBFReader. destruct (tag =? 3); [| steady_leaf].
  pose proof (readVarint_returns p) as Hr.
  destruct (readVarint p) as [[n p1] | ? |] eqn:E; cbn [bind];
    [| split; [discriminate | intros; discriminate] | contradiction].
  destruct (readFields_steady layerPBFReader layerPBFReader_steady
              layerPBFReader_keepsBuf RawLayer.empty (Some (n + pos p1)) p1)
    as [H1 H2].
  destruct (readFields layerPBFReader RawLayer.empty (Some (n + pos p1)) p1)
    as [[layer p2] | ? |]; cbn [bind];
    [| split; [discriminate | intros; discriminate] | contradiction].
  specialize (H2 _ _ eq_refl). apply readVarint_pos in E. destruct layer.
  destruct (Z.of_nat (List.length features) =? 0);
    (split; [discriminate | intros a q H; injection H as _ <-; lia]).
Qed.

Lemma featurePBFReader_steady (tag : Z) (feature : RawFeature.t) :
  steady (featurePBFReader tag feature).
Proof.
  intros p. unfold featurePBFReader. destruct feature.
  repeat match goal with
  | |- context [if ?c then _ else _] => destruct c
  end;
  try steady_leaf.
  - steady_via readVarint_steady.
  - pose proof (readVarint_returns p) as Hr.
    destruct (readVarint p) as [[n p1] | ? |] eqn:E; cbn [bind];
      [| split; [discriminate | intros; discriminate] | contradiction].
    match goal with
    | |- propertiesLoop ?k ?e ?f p1 <> _ /\ _ =>
        destruct (propertiesLoop_ends k e f p1 (enoughTurns_buffer p1))
          as [H1 H2]
    end.
    split; [exact H1 |]. intros a q H. apply H2 in H.
    apply readVarint_pos in E. lia.
  - steady_via readVarint_steady.
Qed.

(** Reading the layers of a tile always comes back. *)
Lemma readLayers_returns (source : list Z) :
  readFields layersPBFReader Layers.empty None (mkPBF source 0) <> OutOfFuel.
Proof.
  apply (readFields_steady layersPBFReader layersPBFReader_steady
           layersPBFReader_keepsBuf).
Qed.

(** Reading a raw feature always comes back. *)
Lemma readRawFeature_returns (p : PBF) (layer : RawLayer.t) (i : Z) :
  readRawFeature p layer i <> OutOfFuel.
Proof.
  unfold readRawFeature.
  destruct (index (RawLayer.features layer) i) as [offset |];
    [| discriminate].
  pose proof (readVarint_returns (setPos p offset)) as Hr.
  destruct (readVarint (setPos p offset)) as [[n p1] | ? |]; cbn [bind];
    [| discriminate | contradiction].
  apply (readFields_steady featurePBFReader featurePBFReader_steady
           featurePBFReader_keepsBuf).
Qed.

(** Only the geometry loop can use up the fuel: when decoding a feature
    runs out of fuel, the raw feature was read and it is
    [readRawGeometry_] that did not end. *)
Lemma featureAt_out_of_fuel (fuel : nat) (this : MVT) (b : list Z)
    (layer : RawLayer.t) (i : Z) :
  featureAt fuel this b layer i = OutOfFuel ->
  exists rawFeature p1,
    readRawFeature (mkPBF b 0) layer i = Ok (rawFeature, p1) /\
    readRawGeometry_ fuel p1 rawFeature [] [] = OutOfFuel.
Proof.
  unfold featureAt. intros H.
  pose proof (readRawFeature_returns (mkPBF b 0) layer i) as Hr.
  destruct (readRawFeature (mkPBF b 0) layer i) as [[raw p1] | ? |];
    cbn [bind] in H; [| discriminate | contradiction].
  exists raw, p1. split; [reflexivity |].
  unfold createFeature_ in H.
  destruct (RawFeature.type raw =? 0); [discriminate |].
  destruct (readRawGeometry_ fuel p1 raw [] []) as [[[p' flat] ends] | ? |];
    cbn [bind] in H; [| discriminate | reflexivity].
  destruct (featureClass_ this); discriminate.
Qed.

(** ** Polygons and their rings *)

(** The ring loop of [createFeature_] opens one part per exterior ring. *)
Lemma ringLoop_length (flat ends : list Z) (rest : list Z) :
  forall i offset prevEndIndex endss,
    List.length (ringLoop flat ends rest i offset prevEndIndex endss)
    = (List.length endss + countExterior flat offset rest)%nat.
Proof.
  induction rest as [| e rest IH]; intros i offset prevEndIndex endss;
    cbn [ringLoop countExterior].
  - lia.
  - unfold exteriorRing.
    destruct (negb (linearRingIsClockwise flat offset e 2)).
    + rewrite IH, length_app. simpl. lia.
    + rewrite IH. lia.
Qed.

Lemma polygonEndss_length (flat ends : list Z) :
  List.length (polygonEndss flat ends) = countExterior flat 0 ends.
Proof. unfold polygonEndss. rewrite ringLoop_length. reflexivity. Qed.

(** The geometry of a raw type 3 feature under a feature class other than
    the render feature. *)
Lemma createGeometry_polygon (flat ends : list Z) :
  (1 < countExterior flat 0 ends)%nat /\
  createGeometry (Some POLYGON) flat ends
  = Some (MultiPolygon flat (polygonEndss flat ends))
  \/
  (countExterior flat 0 ends <= 1)%nat /\
  createGeometry (Some POLYGON) flat ends = Some (Polygon flat ends).
Proof.
  cbn [createGeometry]. rewrite polygonEndss_length.
  destruct (1 <? countExterior flat 0 ends)%nat eqn:E.
  - left. apply Nat.ltb_lt in E. split; [exact E | reflexivity].
  - right. apply Nat.ltb_ge in E. split; [exact E | reflexivity].
Qed.

(** C1 (as amended): for a feature with raw geometry type 3 the default
    render feature is given the type POLYGON and the undivided [ends],
    whatever the rings are; with another feature class the geometry is a
    MultiPolygon exactly when at least two rings are clockwise in the tile
    (exterior rings), with as many parts as there are such rings, and
    otherwise a Polygon over all the rings.  In particular two clockwise
    rings give a MultiPolygon with two parts, and a clockwise ring followed
    by a counter-clockwise one gives a single Polygon whose [ends] has
    length 2. *)
Theorem C1_polygon_rings :
  (forall fuel this p rawFeature p' flat ends,
      RawFeature.type rawFeature = 3 ->
      featureClass_ this = RenderFeature ->
      readRawGeometry_ fuel p rawFeature [] [] = Ok (p', flat, ends) ->
      createFeature_ fuel this p rawFeature
      = Ok (p', Some (NewRenderFeature (Some POLYGON) flat ends
                        (featureValues this rawFeature)
                        (RawFeature.id rawFeature)))) /\
  (forall fuel this p rawFeature p' flat ends,
      RawFeature.type rawFeature = 3 ->
      featureClass_ this = Feature ->
      readRawGeometry_ fuel p rawFeature [] [] = Ok (p', flat, ends) ->
      exists geom,
        createFeature_ fuel this p rawFeature
        = Ok (p', Some (NewFeature (truthyName (geometryName_ this))
                          (Some geom) (RawFeature.id rawFeature)
                          (featureValues this rawFeature))) /\
        ((1 < countExterior flat 0 ends)%nat ->
         exists endss,
           geom = MultiPolygon flat endss /\
           List.length endss = countExterior flat 0 ends) /\
        ((countExterior flat 0 ends <= 1)%nat ->
         geom = Polygon flat ends)) /\
  (forall flat e1 e2,
      exteriorRing flat 0 e1 = true ->
      exteriorRing flat e1 e2 = true ->
      exists endss,
        createGeometry (Some POLYGON) flat [e1; e2]
        = Some (MultiPolygon flat endss) /\
        List.length endss = 2%nat) /\
  (forall flat e1 e2,
      exteriorRing flat 0 e1 = true ->
      exteriorRing flat e1 e2 = false ->
      createGeometry (Some POLYGON) flat [e1; e2]
      = Some (Polygon flat [e1; e2]) /\
      List.length [e1; e2] = 2%nat).
Proof.
  split; [| split; [| split]].
  - intros fuel this p rawFeature p' flat ends Ht Hc Hg.
    unfold createFeature_. rewrite Ht, Hg, Hc. reflexivity.
  - intros fuel this p rawFeature p' flat ends Ht Hc Hg.
    unfold createFeature_. rewrite Ht, Hg, Hc. cbn [Z.eqb Pos.eqb bind].
    cbn [getGeometryType Z.eqb Pos.eqb].
    destruct (createGeometry_polygon flat ends) as [[Hn ->] | [Hn ->]].
    + eexists. split; [reflexivity |]. split.
      * intros _. eexists. split; [reflexivity |].
        apply polygonEndss_length.
      * intros Hle. lia.
    + eexists. split; [reflexivity |]. split.
      * intros Hlt. lia.
      * intros _. reflexivity.
  - intros flat e1 e2 H1 H2.
    destruct (createGeometry_polygon flat [e1; e2]) as [[Hn ->] | [Hn _]].
    + eexists. split; [reflexivity |]. rewrite polygonEndss_length.
      cbn [countExterior]. rewrite H1, H2. reflexivity.
    + cbn [countExterior] in Hn. rewrite H1, H2 in Hn. simpl in Hn. lia.
  - intros flat e1 e2 H1 H2. split; [| reflexivity].
    destruct (createGeometry_polygon flat [e1; e2]) as [[Hn _] | [Hn ->]].
    + cbn [countExterior] in Hn. rewrite H1, H2 in Hn. simpl in Hn. lia.
    + reflexivity.
Qed.

Lemma C1_polygon_rings_witness :
  createFeature_ 100 defaultMVT (mkPBF twoExteriorRings 0) (featureAt0 3)
  = Ok (mkPBF twoExteriorRings 23,
        Some (NewRenderFeature (Some POLYGON) twoExteriorRingsFlat [10; 20]
                [("layer"%string, None)] None)) /\
  (exists endss,
     createGeometry (Some POLYGON) twoExteriorRingsFlat [10; 20]
     = Some (MultiPolygon twoExteriorRingsFlat endss) /\
     List.length endss = 2%nat) /\
  createGeometry (Some POLYGON) ringWithHoleFlat [10; 20]
  = Some (Polygon ringWithHoleFlat [10; 20]) /\
  List.length [10; 20] = 2%nat.
Proof.
  destruct C1_polygon_rings as (Hrender & _ & Htwo & Hhole).
  split; [| split].
  - apply (Hrender 100%nat defaultMVT (mkPBF twoExteriorRings 0)
             (featureAt0 3) (mkPBF twoExteriorRings 23)
             twoExteriorRingsFlat [10; 20]); reflexivity.
  - apply (Htwo twoExteriorRingsFlat 10 20); reflexivity.
  - apply (Hhole ringWithHoleFlat 10 20); reflexivity.
Defined.

(** The ring with its hole decodes to one Polygon over both rings. *)
Example ringWithHole_is_one_polygon :
  valueOf (createFeature_ 100 featureMVT (mkPBF ringWithHole 0)
             (featureAt0 3))
  = Ok (Some (NewFeature None (Some (Polygon ringWithHoleFlat [10; 20]))
                None [("layer"%string, None)])).
Proof. reflexivity. Qed.

(** C1 fails as stated on the two clockwise rings of [twoExteriorRings]:
    the default render feature is a POLYGON, not a MULTI_POLYGON; with the
    class ol/Feature the geometry is a MultiPolygon, but its parts are not
    the partition of the rings that the rule describes, which has the ring
    ending at 10 in the first polygon and the ring ending at 20 in the
    second. *)
Lemma C1_rings_are_not_partitioned :
  exteriorRing twoExteriorRingsFlat 0 10 = true /\
  exteriorRing twoExteriorRingsFlat 10 20 = true /\
  valueOf (createFeature_ 100 defaultMVT (mkPBF twoExteriorRings 0)
             (featureAt0 3))
  = Ok (Some (NewRenderFeature (Some POLYGON) twoExteriorRingsFlat [10; 20]
                [("layer"%string, None)] None)) /\
  valueOf (createFeature_ 100 featureMVT (mkPBF twoExteriorRings 0)
             (featureAt0 3))
  = Ok (Some (NewFeature None
                (Some (MultiPolygon twoExteriorRingsFlat [[]; [10]]))
                None [("layer"%string, None)])) /\
  partitionRings twoExteriorRingsFlat 0 [10; 20] [] = [[10]; [20]] /\
  polygonEndss twoExteriorRingsFlat [10; 20]
  <> partitionRings twoExteriorRingsFlat 0 [10; 20] [].
Proof.
  repeat (split; [reflexivity |]).
  assert (E1 : polygonEndss twoExteriorRingsFlat [10; 20] = [[]; [10]])
    by reflexivity.
  assert (E2 : partitionRings twoExteriorRingsFlat 0 [10; 20] []
               = [[10]; [20]]) by reflexivity.
  rewrite E1, E2. discriminate.
Qed.

(** ** Tile keys *)

Lemma string_of_uint_no_slash (d : Decimal.uint) :
  hasChar TileCoord.slash (NilEmpty.string_of_uint d) = false.
Proof. induction d; simpl; auto. Qed.

Lemma string_of_uint_zero_no_slash (d : Decimal.uint) :
  hasChar TileCoord.slash (NilZero.string_of_uint d) = false.
Proof.
  destruct d; try reflexivity; unfold NilZero.string_of_uint;
    apply string_of_uint_no_slash.
Qed.

Lemma printZ_no_slash (n : Z) :
  hasChar TileCoord.slash (TileCoord.printZ n) = false.
Proof.
  unfold TileCoord.printZ, NilZero.string_of_int.
  destruct (Z.to_int n) as [d | d].
  - apply string_of_uint_zero_no_slash.
  - cbn [hasChar].
    replace (Ascii.eqb "-" TileCoord.slash) with false by reflexivity.
    apply string_of_uint_zero_no_slash.
Qed.

Lemma splitOn_nonempty (c : ascii) (s : string) :
  TileCoord.splitOn c s <> [].
Proof.
  induction s as [| a s IH]; cbn [TileCoord.splitOn]; [discriminate |].
  destruct (Ascii.eqb a c); [discriminate |].
  destruct (TileCoord.splitOn c s); [contradiction | discriminate].
Qed.

Lemma splitOn_no_char (c : ascii) (s : string) :
  hasChar c s = false -> TileCoord.splitOn c s = [s].
Proof.
  induction s as [| a s IH]; cbn [TileCoord.splitOn hasChar]; intros H;
    [reflexivity |].
  apply orb_false_iff in H. destruct H as [Ha Hs].
  rewrite Ha, (IH Hs). reflexivity.
Qed.

Lemma splitOn_app (c : ascii) (s1 s2 : string) :
  hasChar c s1 = false ->
  TileCoord.splitOn c (s1 ++ String c s2)%string
  = s1 :: TileCoord.splitOn c s2.
Proof.
  induction s1 as [| a s1 IH]; cbn [append TileCoord.splitOn hasChar];
    intros H.
  - rewrite Ascii.eqb_refl. reflexivity.
  - apply orb_false_iff in H. destruct H as [Ha Hs].
    rewrite Ha, (IH Hs). reflexivity.
Qed.

Lemma joinWith_splitOn (c : ascii) (s : string) :
  joinWith c (TileCoord.splitOn c s) = s.
Proof.
  induction s as [| a s IH]; cbn [TileCoord.splitOn]; [reflexivity |].
  destruct (Ascii.eqb_spec a c) as [-> | Hne].
  - pose proof (splitOn_nonempty c s) as Hn.
    destruct (TileCoord.splitOn c s) as [| h tl]; [contradiction |].
    cbn [joinWith append]. cbn [joinWith] in IH. rewrite IH. reflexivity.
  - pose proof (splitOn_nonempty c s) as Hn.
    destruct (TileCoord.splitOn c s) as [| h tl]; [contradiction |].
    destruct tl as [| h' tl].
    + cbn [joinWith] in *. rewrite IH. reflexivity.
    + cbn [joinWith append] in *. rewrite IH. reflexivity.
Qed.

Lemma parseZ_printZ (n : Z) : TileCoord.parseZ (TileCoord.printZ n) = Some n.
Proof.
  unfold TileCoord.parseZ.
  assert (E : NilZero.int_of_string (TileCoord.printZ n)
              = Some (Z.to_int n)).
  { unfold TileCoord.printZ. apply NilZero.isi.
    - destruct n; simpl; try discriminate.
      intros H. injection H as H.
      exact (DecimalPos.Unsigned.to_uint_nonnil p H).
    - destruct n; simpl; try discriminate.
      intros H. injection H as H.
      exact (DecimalPos.Unsigned.to_uint_nonnil p H). }
  rewrite E, DecimalZ.of_to, String.eqb_refl. reflexivity.
Qed.

Lemma parseZ_Some (s : string) (n : Z) :
  TileCoord.parseZ s = Some n -> s = TileCoord.printZ n.
Proof.
  unfold TileCoord.parseZ. destruct (NilZero.int_of_string s) as [d |];
    [| discriminate].
  destruct (String.eqb_spec (TileCoord.printZ (Z.of_int d)) s) as [E | _];
    [| discriminate].
  intros H. injection H as <-. symmetry. exact E.
Qed.

Lemma fromKey_toKey (z x y : Z) :
  TileCoord.fromKey (TileCoord.toKey z x y) = Done (z, x, y).
Proof.
  unfold TileCoord.fromKey, TileCoord.toKey.
  rewrite (splitOn_app _ _ _ (printZ_no_slash z)).
  rewrite (splitOn_app _ _ _ (printZ_no_slash x)).
  rewrite (splitOn_no_char _ _ (printZ_no_slash y)).
  rewrite !parseZ_printZ. reflexivity.
Qed.

Lemma fromKey_Done (key : string) (z x y : Z) :
  TileCoord.fromKey key = Done (z, x, y) -> key = TileCoord.toKey z x y.
Proof.
  unfold TileCoord.fromKey. intros H.
  pose proof (joinWith_splitOn TileCoord.slash key) as Hj.
  destruct (TileCoord.splitOn TileCoord.slash key) as [| a [| b [| c [| ? ?]]]];
    try discriminate.
  destruct (TileCoord.parseZ a) as [z' |] eqn:Ea; [| discriminate].
  destruct (TileCoord.parseZ b) as [x' |] eqn:Eb; [| discriminate].
  destruct (TileCoord.parseZ c) as [y' |] eqn:Ec; [| discriminate].
  injection H as -> -> ->.
  apply parseZ_Some in Ea, Eb, Ec. subst a b c.
  rewrite <- Hj. reflexivity.
Qed.

Lemma fromKey_fails_MalformedKey (key : string) (f : failure) :
  TileCoord.fromKey key = Fail f -> f = MalformedKey.
Proof.
  unfold TileCoord.fromKey. intros H.
  destruct (TileCoord.splitOn TileCoord.slash key) as [| a [| b [| c [| ? ?]]]];
    try (injection H as <-; reflexivity).
  destruct (TileCoord.parseZ a), (TileCoord.parseZ b), (TileCoord.parseZ c);
    try discriminate; injection H as <-; reflexivity.
Qed.

(** C5: [fromKey (toKey (z, x, y))] is [(z, x, y)] for all integers, the
    negative ones included, so in particular when z >= 0; [toKey] is
    injective; and [fromKey] either fails with MalformedKey or was given the
    key of the triple it returns, so that every string that is not a key is
    rejected with MalformedKey. *)
Theorem C5_key_round_trip :
  (forall z x y,
      TileCoord.fromKey (TileCoord.toKey z x y) = Done (z, x, y)) /\
  (forall z x y z' x' y',
      TileCoord.toKey z x y = TileCoord.toKey z' x' y' ->
      (z, x, y) = (z', x', y')) /\
  (forall key,
      TileCoord.fromKey key = Fail MalformedKey \/
      exists z x y,
        TileCoord.fromKey key = Done (z, x, y) /\
        key = TileCoord.toKey z x y).
Proof.
  split; [exact fromKey_toKey |]. split.
  - intros z x y z' x' y' H.
    pose proof (fromKey_toKey z x y) as H1. rewrite H in H1.
    rewrite fromKey_toKey in H1. injection H1 as -> -> ->. reflexivity.
  - intros key. destruct (TileCoord.fromKey key) as [[[z x] y] | f] eqn:E.
    + right. exists z, x, y. split; [reflexivity |].
      apply fromKey_Done. exact E.
    + left. rewrite (fromKey_fails_MalformedKey _ _ E). reflexivity.
Qed.

Lemma C5_key_round_trip_witness :
  TileCoord.toKey 4 (-3) 7 = "4/-3/7"%string /\
  TileCoord.fromKey "4/-3/7" = Done (4, -3, 7) /\
  (4, -3, 7) = (4, -3, 7) /\
  TileCoord.fromKey "4/-3" = Fail MalformedKey /\
  TileCoord.fromKey "4/-03/7" = Fail MalformedKey /\
  TileCoord.fromKey "4/x/7" = Fail MalformedKey.
Proof.
  split; [reflexivity |]. split; [reflexivity |]. split.
  - apply (proj1 (proj2 C5_key_round_trip) 4 (-3) 7 4 (-3) 7). reflexivity.
  - repeat split; reflexivity.
Defined.

(** ** Loading a resource *)

Lemma resourceInv_step {L : Type} (r : Resource.t L) (ev : Resource.event L) :
  resourceInv r -> resourceInv (Resource.step r ev).
Proof.
  unfold resourceInv. destruct r as [st ls n]. destruct ev as [retry | ok];
    cbn [Resource.step Resource.ensureLoaded Resource.complete
         Resource.state Resource.listeners snd];
    destruct st; cbn [Resource.state Resource.listeners snd]; intros H;
    try exact H; try reflexivity.
  - rewrite H. reflexivity.
  - destruct ok; reflexivity.
Qed.

Lemma resourceInv_run {L : Type} (evs : list (Resource.event L)) :
  forall r : Resource.t L, resourceInv r -> resourceInv (Resource.run evs r).
Proof.
  induction evs as [| ev evs IH]; intros r Hr; cbn [Resource.run fold_left].
  - exact Hr.
  - apply IH. apply resourceInv_step. exact Hr.
Qed.

(** C4: [ensureLoaded] on an IDLE resource returns false and registers one
    change listener, the caller's; on a LOADING resource it returns false
    and registers nothing; on a LOADED resource it returns true and
    registers nothing.  A resource that starts IDLE without listeners never
    has more than one pending listener, whatever calls and completions
    follow. *)
Theorem C4_ensureLoaded :
  (forall (L : Type) (retry : L) (r : Resource.t L),
      Resource.state r = Resource.IDLE ->
      fst (Resource.ensureLoaded retry r) = false /\
      Resource.listeners (snd (Resource.ensureLoaded retry r))
      = Resource.listeners r ++ [retry] /\
      Resource.state (snd (Resource.ensureLoaded retry r))
      = Resource.LOADING) /\
  (forall (L : Type) (retry : L),
      Resource.listeners
        (snd (Resource.ensureLoaded retry Resource.create)) = [retry]) /\
  (forall (L : Type) (retry : L) (r : Resource.t L),
      Resource.state r = Resource.LOADING ->
      Resource.ensureLoaded retry r = (false, r)) /\
  (forall (L : Type) (retry : L) (r : Resource.t L),
      Resource.state r = Resource.LOADED ->
      Resource.ensureLoaded retry r = (true, r)) /\
  (forall (L : Type) (evs : list (Resource.event L)),
      (List.length
         (Resource.listeners (Resource.run evs Resource.create)) <= 1)%nat).
Proof.
  split; [| split; [| split; [| split]]].
  - intros L retry r H. unfold Resource.ensureLoaded. rewrite H.
    repeat split.
  - intros L retry. reflexivity.
  - intros L retry r H. unfold Resource.ensureLoaded. rewrite H.
    reflexivity.
  - intros L retry r H. unfold Resource.ensureLoaded. rewrite H.
    reflexivity.
  - intros L evs.
    pose proof (resourceInv_run evs (@Resource.create L) eq_refl) as H.
    unfold resourceInv in H.
    destruct (Resource.state (Resource.run evs Resource.create));
      rewrite H; simpl; lia.
Qed.

Lemma C4_ensureLoaded_witness :
  Resource.ensureLoaded 7%nat (Resource.mk Resource.LOADING [7%nat] 1)
  = (false, Resource.mk Resource.LOADING [7%nat] 1) /\
  Resource.ensureLoaded 7%nat (Resource.mk Resource.LOADED [] 1)
  = (true, Resource.mk Resource.LOADED [] 1) /\
  fst (Resource.ensureLoaded 7%nat (@Resource.create nat)) = false /\
  Resource.run
    [Resource.EnsureLoaded 7%nat; Resource.EnsureLoaded 7%nat]
    Resource.create
  = Resource.mk Resource.LOADING [7%nat] 1.
Proof.
  destruct C4_ensureLoaded as (Hidle & _ & Hloading & Hloaded & _).
  split; [| split; [| split]].
  - apply Hloading. reflexivity.
  - apply Hloaded. reflexivity.
  - apply (Hidle nat 7%nat Resource.create). reflexivity.
  - reflexivity.
Defined.

(** ** Pruning the cache *)

Section CacheProperties.

Variable V : Type.
Variable activeKeys : list string.
Variable lowWaterMark : nat.

Let active (e : string * V) : bool := Cache.isActive activeKeys (fst e).

(** The walk over the entries from the least recently touched one: the
    entries [done] it has visited lose those that are not active, the
    entries [rest] it has not reached stay; it stops as soon as the count is
    at most the low watermark, and not before. *)
Lemma walk_split (lru : Cache.t V) :
  forall k : nat,
  exists done rest,
    lru = done ++ rest /\
    Cache.walk activeKeys lowWaterMark (k + List.length lru) lru
    = filter active done ++ rest /\
    (rest = [] \/
     (k + List.length (filter active done) + List.length rest
      <= lowWaterMark)%nat) /\
    (forall done' e,
        done = done' ++ [e] ->
        (lowWaterMark
         < k + List.length (filter active done') + 1 + List.length rest)%nat).
Proof.
  induction lru as [| e l IH]; intros k.
  - exists [], []. cbn [Cache.walk filter app]. repeat split.
    + left. reflexivity.
    + intros done' e H. destruct done'; discriminate.
  - cbn [Cache.walk].
    destruct (k + List.length (e :: l) <=? lowWaterMark)%nat eqn:Estop.
    + exists [], (e :: l). cbn [filter app List.length]. repeat split.
      * right. apply Nat.leb_le in Estop. cbn [List.length] in Estop. lia.
      * intros done' e' H. destruct done'; discriminate.
    + apply Nat.leb_gt in Estop. cbn [List.length] in Estop.
      destruct (Cache.isActive activeKeys (fst e)) eqn:Eact.
      * assert (Hf : forall l', filter active (e :: l')
                                = e :: filter active l').
        { intros l'. cbn [filter]. unfold active at 1. rewrite Eact.
          reflexivity. }
        destruct (IH (S k)) as (done0 & rest0 & Hl & Hw & Hstop & Hmin).
        exists (e :: done0), rest0. rewrite Hf. cbn [app List.length].
        replace (k + S (List.length l))%nat
          with (S k + List.length l)%nat by lia.
        rewrite Hw. split; [rewrite Hl; reflexivity |].
        split; [reflexivity |]. split.
        -- destruct Hstop as [-> | Hstop]; [left; reflexivity |].
           right. lia.
        -- intros done' e' H. destruct done' as [| d done'].
           ++ cbn [app] in H. injection H as <- Hd. subst done0.
              cbn [app] in Hl. subst rest0. cbn [filter List.length]. lia.
           ++ cbn [app] in H. injection H as <- Hd.
              specialize (Hmin done' e' Hd). rewrite Hf.
              cbn [List.length]. lia.
      * assert (Hf : forall l', filter active (e :: l') = filter active l').
        { intros l'. cbn [filter]. unfold active at 1. rewrite Eact.
          reflexivity. }
        destruct (IH k) as (done0 & rest0 & Hl & Hw & Hstop & Hmin).
        exists (e :: done0), rest0. rewrite Hf. cbn [app List.length].
        replace (Nat.pred (k + S (List.length l)))
          with (k + List.length l)%nat by lia.
        rewrite Hw. split; [rewrite Hl; reflexivity |].
        split; [reflexivity |]. split; [exact Hstop |].
        intros done' e' H. destruct done' as [| d done'].
        -- cbn [app] in H. injection H as <- Hd. subst done0.
           cbn [app] in Hl. subst rest0. cbn [filter List.length]. lia.
        -- cbn [app] in H. injection H as <- Hd.
           specialize (Hmin done' e' Hd). rewrite Hf. exact Hmin.
Qed.

Lemma filter_rev_comm (f : string * V -> bool) (l : list (string * V)) :
  filter f (List.rev l) = List.rev (filter f l).
Proof.
  induction l as [| a l IH]; cbn [List.rev filter]; [reflexivity |].
  rewrite filter_app, IH. cbn [filter].
  destruct (f a); cbn [List.rev]; [reflexivity | apply app_nil_r].
Qed.

(** [prune] above the high watermark, seen from the most recently touched
    entry: the cache splits into the entries the walk did not reach and the
    ones it visited, of which the active ones are kept. *)
Lemma prune_split (highWaterMark : nat) (c : Cache.t V) :
  (highWaterMark < Cache.count c)%nat ->
  exists front back,
    c = front ++ back /\
    Cache.prune activeKeys highWaterMark lowWaterMark c
    = front ++ activeEntries activeKeys back /\
    (front = [] \/
     (Cache.count (Cache.prune activeKeys highWaterMark lowWaterMark c)
      <= lowWaterMark)%nat) /\
    (forall e back',
        back = e :: back' ->
        (lowWaterMark
         < Cache.count (front ++ e :: activeEntries activeKeys back'))%nat).
Proof.
  intros Hhigh. unfold Cache.prune.
  apply Nat.ltb_lt in Hhigh. rewrite Hhigh.
  destruct (walk_split (List.rev c) 0) as (done & rest & Hl & Hw & Hstop & Hmin).
  cbn [Nat.add] in *. rewrite length_rev in Hw. unfold Cache.count.
  rewrite Hw. exists (List.rev rest), (List.rev done).
  assert (Hc : c = List.rev rest ++ List.rev done).
  { rewrite <- rev_app_distr, <- Hl, rev_involutive. reflexivity. }
  split; [exact Hc |].
  assert (Hr : List.rev (filter active done ++ rest)
               = List.rev rest ++ activeEntries activeKeys (List.rev done)).
  { rewrite rev_app_distr. unfold activeEntries.
    rewrite filter_rev_comm. reflexivity. }
  split; [exact Hr |]. split.
  - destruct Hstop as [-> | Hstop]; [left; reflexivity |].
    right. rewrite length_rev, length_app. lia.
  - intros e back' Hb.
    assert (Hd : done = List.rev back' ++ [e]).
    { rewrite <- (rev_involutive done), Hb. reflexivity. }
    specialize (Hmin _ _ Hd). rewrite length_app, length_rev.
    cbn [List.length]. unfold activeEntries.
    rewrite filter_rev_comm, length_rev in Hmin.
    fold active. lia.
Qed.

End CacheProperties.

Lemma activeEntries_none {V : Type} (c : Cache.t V) :
  activeEntries [] c = [].
Proof. induction c as [| e c IH]; [reflexivity | exact IH]. Qed.

(** C7: [prune] evicts nothing unless the entry count exceeds the high
    watermark.  When it does, the walk from the least recently touched end
    splits the cache into the entries it did not reach, which stay, and the
    entries it visited, of which those with an active key stay and the
    others are evicted; the walk goes on until the count is at most the low
    watermark (or no entry is left to visit), and no further; an entry with
    an active key is never evicted.  With no active key the entries kept
    are the [lowWaterMark] most recently touched ones, so the evicted ones
    are exactly the least recently touched. *)
Theorem C7_prune :
  (forall (V : Type) activeKeys highWaterMark lowWaterMark (c : Cache.t V),
      (Cache.count c <= highWaterMark)%nat ->
      Cache.prune activeKeys highWaterMark lowWaterMark c = c) /\
  (forall (V : Type) activeKeys highWaterMark lowWaterMark (c : Cache.t V),
      (highWaterMark < Cache.count c)%nat ->
      exists front back,
        c = front ++ back /\
        Cache.prune activeKeys highWaterMark lowWaterMark c
        = front ++ activeEntries activeKeys back /\
        (front = [] \/
         (Cache.count (Cache.prune activeKeys highWaterMark lowWaterMark c)
          <= lowWaterMark)%nat) /\
        (forall e back',
            back = e :: back' ->
            (lowWaterMark
             < Cache.count (front ++ e :: activeEntries activeKeys back'))%nat))
  /\
  (forall (V : Type) activeKeys highWaterMark lowWaterMark (c : Cache.t V) e,
      In e c ->
      Cache.isActive activeKeys (fst e) = true ->
      In e (Cache.prune activeKeys highWaterMark lowWaterMark c)) /\
  (forall (V : Type) highWaterMark lowWaterMark (c : Cache.t V),
      (highWaterMark < Cache.count c)%nat ->
      Cache.prune [] highWaterMark lowWaterMark c = firstn lowWaterMark c /\
      c = Cache.prune [] highWaterMark lowWaterMark c ++ skipn lowWaterMark c
      /\
      (Cache.count (Cache.prune [] highWaterMark lowWaterMark c)
       <= lowWaterMark)%nat).
Proof.
  split; [| split; [| split]].
  - intros V activeKeys highWaterMark lowWaterMark c H. unfold Cache.prune.
    apply Nat.ltb_ge in H. rewrite H. reflexivity.
  - intros V activeKeys highWaterMark lowWaterMark c H.
    exact (prune_split V activeKeys lowWaterMark highWaterMark c H).
  - intros V activeKeys highWaterMark lowWaterMark c e Hin Hact.
    destruct (Nat.ltb_spec highWaterMark (Cache.count c)) as [H | H].
    + destruct (prune_split V activeKeys lowWaterMark highWaterMark c H)
        as (front & back & Hc & Hp & _).
      rewrite Hp. rewrite Hc in Hin. apply in_app_or in Hin.
      apply in_or_app. destruct Hin as [Hin | Hin]; [left; exact Hin |].
      right. unfold activeEntries. apply filter_In. split; assumption.
    + unfold Cache.prune. apply Nat.ltb_ge in H. rewrite H. exact Hin.
  - intros V highWaterMark lowWaterMark c H.
    destruct (prune_split V [] lowWaterMark highWaterMark c H)
      as (front & back & Hc & Hp & Hstop & Hmin).
    rewrite activeEntries_none, app_nil_r in Hp.
    assert (Hfront : front = firstn lowWaterMark c).
    { destruct back as [| e back'].
      - rewrite app_nil_r in Hc. subst front.
        destruct Hstop as [-> | Hstop]; [destruct lowWaterMark; reflexivity |].
        rewrite Hp in Hstop. unfold Cache.count in Hstop.
        rewrite firstn_all2 by exact Hstop. reflexivity.
      - specialize (Hmin e back' eq_refl).
        rewrite activeEntries_none in Hmin. unfold Cache.count in Hmin.
        rewrite length_app in Hmin. cbn [List.length] in Hmin.
        destruct Hstop as [-> | Hstop].
        { cbn [List.length] in Hmin.
          assert (E : lowWaterMark = 0%nat) by lia. rewrite E. reflexivity. }
        rewrite Hp in Hstop. unfold Cache.count in Hstop.
        assert (Hlen : List.length front = lowWaterMark) by lia.
        rewrite Hc, <- Hlen, firstn_app, Nat.sub_diag, firstn_all.
        cbn [firstn]. rewrite app_nil_r. reflexivity. }
    rewrite Hp, Hfront. split; [reflexivity |]. split.
    + symmetry. apply firstn_skipn.
    + unfold Cache.count. rewrite length_firstn. lia.
Qed.

Lemma C7_prune_witness :
  Cache.prune ["a"%string] 5 2 fiveEntries = fiveEntries /\
  (exists front back,
     fiveEntries = front ++ back /\
     Cache.prune ["a"%string] 4 2 fiveEntries
     = front ++ activeEntries ["a"%string] back /\
     (front = [] \/
      (Cache.count (Cache.prune ["a"%string] 4 2 fiveEntries) <= 2)%nat) /\
     (forall e back',
         back = e :: back' ->
         (2 < Cache.count
                (front ++ e :: activeEntries ["a"%string] back'))%nat)) /\
  Cache.prune ["a"%string] 4 2 fiveEntries
  = [("e"%string, 5%nat); ("a"%string, 1%nat)] /\
  In ("a"%string, 1%nat) (Cache.prune ["a"%string] 4 2 fiveEntries) /\
  Cache.prune [] 4 2 fiveEntries = firstn 2 fiveEntries /\
  skipn 2 fiveEntries
  = [("c"%string, 3%nat); ("b"%string, 2%nat); ("a"%string, 1%nat)].
Proof.
  destruct C7_prune as (Hnone & Hsplit & Hkept & Hlru).
  split; [| split; [| split; [| split; [| split]]]].
  - apply Hnone. simpl. lia.
  - apply Hsplit. simpl. lia.
  - reflexivity.
  - apply Hkept; [simpl; auto 6 | reflexivity].
  - apply (Hlru nat 4%nat 2%nat fiveEntries). simpl. lia.
  - reflexivity.
Defined.

(** ** The cache after a change of zoom *)

Lemma isActive_In (activeKeys : list string) (key : string) :
  In key activeKeys -> Cache.isActive activeKeys key = true.
Proof.
  intros H. unfold Cache.isActive. apply existsb_exists.
  exists key. split; [exact H | apply String.eqb_refl].
Qed.

(** [prune] leaves a first entry alone when its key is active. *)
Lemma prune_first_active {V : Type} (activeKeys : list string)
    (highWaterMark lowWaterMark : nat) (key : string) (v : V)
    (rest : Cache.t V) :
  Cache.isActive activeKeys key = true ->
  Cache.peekFirstKey
    (Cache.prune activeKeys highWaterMark lowWaterMark ((key, v) :: rest))
  = Done key.
Proof.
  intros Hact.
  destruct (Nat.ltb_spec highWaterMark (Cache.count ((key, v) :: rest)))
    as [H | H].
  - destruct (prune_split V activeKeys lowWaterMark highWaterMark _ H)
      as (front & back & Hc & Hp & _).
    rewrite Hp. destruct front as [| e front].
    + cbn [app] in *. subst back. unfold activeEntries. cbn [filter fst].
      rewrite Hact. reflexivity.
    + cbn [app] in Hc. injection Hc as <- _. reflexivity.
  - unfold Cache.prune. apply Nat.ltb_ge in H. rewrite H. reflexivity.
Qed.

(** After a frame, the first key is the key of the tile requested last. *)
Lemma renderFrame_first {V : Type} (highWaterMark lowWaterMark : nat)
    (tiles : list (TileCoord.t * V)) (z x y : Z) (v : V) (c : Cache.t V) :
  Cache.peekFirstKey
    (Cache.renderFrame highWaterMark lowWaterMark
       (tiles ++ [((z, x, y), v)]) c)
  = Done (TileCoord.toKey z x y).
Proof.
  unfold Cache.renderFrame, Cache.expireCache, Cache.request.
  rewrite fold_left_app. cbn [fold_left]. unfold Cache.set at 1.
  apply prune_first_active. apply isActive_In.
  unfold Cache.keysOf. rewrite map_app. apply in_or_app. right. left.
  reflexivity.
Qed.

(** C6: whatever the cache holds from an old zoom level, after a frame that
    requests the tiles of the new zoom level and then runs [expireCache]
    with the keys of those tiles, [peekFirstKey] returns a key that
    [fromKey] decodes to a tile coordinate of the new zoom level. *)
Theorem C6_first_key_has_new_zoom :
  forall (V : Type) (highWaterMark lowWaterMark : nat)
         (tiles : list (TileCoord.t * V)) (c : Cache.t V) (zoom : Z),
    tiles <> [] ->
    (forall z x y v, In ((z, x, y), v) tiles -> z = zoom) ->
    exists key x y,
      Cache.peekFirstKey
        (Cache.renderFrame highWaterMark lowWaterMark tiles c) = Done key /\
      TileCoord.fromKey key = Done (zoom, x, y).
Proof.
  intros V highWaterMark lowWaterMark tiles c zoom Hne Hzoom.
  destruct (exists_last Hne) as (tiles' & [[[z x] y] v] & ->).
  assert (Hz : z = zoom).
  { apply (Hzoom z x y v). apply in_or_app. right. left. reflexivity. }
  subst z. exists (TileCoord.toKey zoom x y), x, y.
  split; [apply renderFrame_first | apply fromKey_toKey].
Qed.

Lemma C6_first_key_has_new_zoom_witness :
  Cache.peekFirstKey zoomZeroCache = Done "0/0/0"%string /\
  TileCoord.fromKey "0/0/0" = Done (0, 0, 0) /\
  Cache.peekFirstKey (Cache.renderFrame 2 1 zoomFourTiles zoomZeroCache)
  = Done "4/-1/8"%string /\
  exists key x y,
    Cache.peekFirstKey (Cache.renderFrame 2 1 zoomFourTiles zoomZeroCache)
    = Done key /\
    TileCoord.fromKey key = Done (4, x, y).
Proof.
  split; [reflexivity |]. split; [reflexivity |]. split; [reflexivity |].
  apply (C6_first_key_has_new_zoom nat 2%nat 1%nat zoomFourTiles
           zoomZeroCache 4).
  - discriminate.
  - intros z x y v Hin. simpl in Hin.
    destruct Hin as [H | [H | [H | []]]]; injection H as <- _ _ _;
      reflexivity.
Defined.


(* ================================================================== *)
(** * Part III: further properties of ol/format/MVT *)
(* ================================================================== *)

(** ** What [readRawGeometry_] adds to its arrays *)

Lemma StronglySorted_snoc (l : list Z) (c : Z) :
  StronglySorted Z.lt l -> Forall (fun e => e < c) l ->
  StronglySorted Z.lt (l ++ [c]).
Proof.
  induction 1 as [| a l Hs IH Ha]; intros Hc; cbn [app].
  - constructor; constructor.
  - inversion Hc as [| ? ? Hac Hlc]; subst. constructor.
    + apply IH. exact Hlc.
    + apply Forall_app. split; [exact Ha |]. constructor; [exact Hac |].
      constructor.
Qed.

Lemma appendInv_init (p : PBF) (flat0 ends0 : list Z) :
  appendInv flat0 ends0 (RawGeometry.init p flat0 ends0).
Proof.
  exists [], []. unfold RawGeometry.init. cbn.
  rewrite !app_nil_r. repeat split; try lia; constructor.
Qed.

Lemma appendInv_iteration (flat0 ends0 : list Z) (s s' : RawGeometry.state) :
  appendInv flat0 ends0 s ->
  RawGeometry.iteration s = Ok s' ->
  appendInv flat0 ends0 s'.
Proof.
  intros (a & b & Hf & He & Hl & Hev & Hc & Hr & Hs & Hall) Hi.
  destruct (iteration_cases _ _ Hi) as (s1 & Hr1 & Hcase).
  destruct (readCommand_frame _ _ Hr1) as (_ & _ & Fl & Fc & Ff & Fe).
  destruct Hcase as [[Hcmd Hmv] | [Hcmd ->]].
  - destruct (moveOrLineTo_Ok_inv _ _ Hmv) as (n1 & p1 & n2 & p2 & _ & _ & ->).
    rewrite Fl, Fc, Ff, Fe.
    set (x' := addNumber (RawGeometry.x s1) (zigzag n1)).
    set (y' := addNumber (RawGeometry.y s1) (zigzag n2)).
    destruct ((RawGeometry.cmd s1 =? 1)
              && (RawGeometry.currentEnd s <? RawGeometry.coordsLen s))
      eqn:Epush.
    + apply andb_true_iff in Epush. destruct Epush as [_ Hlt].
      apply Z.ltb_lt in Hlt.
      exists (a ++ [x'; y']), (b ++ [RawGeometry.coordsLen s]). cbn.
      rewrite Hf, He, <- !app_assoc, length_app, last_last. cbn [List.length].
      repeat split; try lia.
      * apply mod2_add2. exact Hev.
      * apply StronglySorted_snoc; [exact Hs |].
        eapply Forall_impl; [| exact Hall]. cbn. intros e [He1 _]. lia.
      * apply Forall_app. split.
        -- eapply Forall_impl; [| exact Hall]. cbn. intros e [He1 He2].
           split; [lia | exact He2].
        -- constructor; [| constructor]. split; [lia | exact Hev].
    + exists (a ++ [x'; y']), b. cbn.
      rewrite Hf, He, <- !app_assoc, length_app. cbn [List.length].
      repeat split; try lia; try assumption.
      apply mod2_add2. exact Hev.
  - unfold RawGeometry.closePath. rewrite Fl, Fc.
    destruct (RawGeometry.currentEnd s <? RawGeometry.coordsLen s) eqn:Elt.
    + exists (a ++ [RawGeometry.coordAt (RawGeometry.flatCoordinates s1)
                      (RawGeometry.currentEnd s);
                    RawGeometry.coordAt (RawGeometry.flatCoordinates s1)
                      (RawGeometry.currentEnd s + 1)]), b.
      cbn. rewrite Ff, Fe, Hf, He, <- !app_assoc, length_app.
      cbn [List.length].
      repeat split; try lia; try assumption.
      apply mod2_add2. exact Hev.
    + exists a, b. rewrite Ff, Fe, Fl, Fc.
      repeat split; try lia; assumption.
Qed.

Lemma appendInv_loop (flat0 ends0 : list Z) (fuel : nat) (e : Z) :
  forall s s',
    appendInv flat0 ends0 s ->
    RawGeometry.loop fuel e s = Ok s' ->
    appendInv flat0 ends0 s'.
Proof.
  induction fuel as [| fuel IH]; intros s s' Inv H;
    cbn [RawGeometry.loop] in H.
  - destruct (pos (RawGeometry.pbf s) <? e); [discriminate |].
    injection H as <-. exact Inv.
  - destruct (pos (RawGeometry.pbf s) <? e).
    + inv_bind H. eapply IH; [| exact H].
      eapply appendInv_iteration; eassumption.
    + injection H as <-. exact Inv.
Qed.

(** X1: a call of [readRawGeometry_] that returns has only appended to the
    two arrays it was given, never changed what they held.  The ends it
    appended are even offsets into the coordinates it appended, counted from
    0 (not from the length the coordinate array had before), in strictly
    increasing order, and the last one is the number of coordinates
    appended: no end is appended exactly when no coordinate is. *)
Theorem readRawGeometry__appends_sub_paths :
  forall fuel p feature flat0 ends0 q flat ends,
    readRawGeometry_ fuel p feature flat0 ends0 = Ok (q, flat, ends) ->
    exists a b,
      flat = flat0 ++ a /\ ends = ends0 ++ b /\ subPaths a b /\
      (b = [] <-> a = []).
Proof.
  intros fuel p feature flat0 ends0 q flat ends H.
  unfold readRawGeometry_ in H.
  destruct (RawFeature.geometry feature) as [g |]; [| discriminate].
  inv_bind H. destruct a as [n p1]. inv_bind H.
  injection H as _ <- <-.
  pose proof (appendInv_loop flat0 ends0 fuel _ _ _
                (appendInv_init p1 flat0 ends0) Hm0)
    as (a' & b & Hf & He & Hl & Hev & Hc & Hr & Hs & Hall).
  unfold RawGeometry.finish.
  destruct (RawGeometry.currentEnd a <? RawGeometry.coordsLen a) eqn:Elt.
  - apply Z.ltb_lt in Elt. cbn.
    exists a', (b ++ [RawGeometry.coordsLen a]).
    rewrite Hf, He, <- app_assoc.
    split; [reflexivity |]. split; [reflexivity |]. split.
    + unfold subPaths. rewrite <- Hl, last_last.
      split; [exact Hev |]. split.
      * apply StronglySorted_snoc; [exact Hs |].
        eapply Forall_impl; [| exact Hall]. cbn. intros e [He1 _]. lia.
      * split; [| reflexivity]. apply Forall_app. split.
        -- eapply Forall_impl; [| exact Hall]. cbn. intros e [He1 He2].
           split; [lia | exact He2].
        -- constructor; [| constructor]. split; [lia | exact Hev].
    + split; intros E.
      * destruct b; discriminate.
      * subst a'. cbn in Hl. lia.
  - apply Z.ltb_ge in Elt. exists a', b. split; [exact Hf |].
    split; [exact He |].
    assert (Heq : RawGeometry.currentEnd a = RawGeometry.coordsLen a) by lia.
    split.
    + unfold subPaths. rewrite <- Hl, <- Heq.
      split; [rewrite Heq; exact Hev |]. split; [exact Hs |].
      split; [exact Hall | symmetry; exact Hc].
    + split; intros E.
      * subst b. cbn in Hc. destruct a'; [reflexivity |].
        cbn [List.length] in Hl. lia.
      * subst a'. cbn in Hl. destruct b as [| e b]; [reflexivity |].
        inversion Hall as [| ? ? [He1 _] _]; subst. lia.
Qed.

Lemma readRawGeometry__appends_sub_paths_witness :
  readRawGeometry_ 100 (mkPBF closedThenMoved 0) (featureAt0 3)
    [100; 200] [2]
  = Ok (mkPBF closedThenMoved 11,
        [100; 200; 5; 7; 6; 8; 100; 200; 7; 9], [2; 6; 8]) /\
  exists a b,
    [100; 200; 5; 7; 6; 8; 100; 200; 7; 9] = [100; 200] ++ a /\
    [2; 6; 8] = [2] ++ b /\ subPaths a b /\ (b = [] <-> a = []).
Proof.
  split; [reflexivity |].
  apply (readRawGeometry__appends_sub_paths 100 (mkPBF closedThenMoved 0)
           (featureAt0 3) [100; 200] [2] (mkPBF closedThenMoved 11)).
  reflexivity.
Defined.

(** ** A ClosePath command with a count that is not positive *)

Lemma reaches_then_spins (e : Z) (n : nat) (s0 s : RawGeometry.state) :
  reaches e n s0 s ->
  (forall fuel, RawGeometry.loop fuel e s = OutOfFuel) ->
  forall fuel, RawGeometry.loop fuel e s0 = OutOfFuel.
Proof.
  induction 1 as [s | n s0 s1 s Hlt Hit Hre IH]; intros Hs fuel; [apply Hs |].
  destruct fuel as [| fuel]; cbn [RawGeometry.loop].
  - apply Z.ltb_lt in Hlt. rewrite Hlt. reflexivity.
  - apply Z.ltb_lt in Hlt. rewrite Hlt, Hit. cbn [bind]. apply IH, Hs.
Qed.

Lemma closePath_spins (e : Z) :
  forall fuel s,
    RawGeometry.cmd s = 7 ->
    RawGeometry.length s < 0 ->
    pos (RawGeometry.pbf s) < e ->
    RawGeometry.loop fuel e s = OutOfFuel.
Proof.
  induction fuel as [| fuel IH]; intros s Hc Hl Hp; cbn [RawGeometry.loop];
    pose proof (proj2 (Z.ltb_lt _ _) Hp) as Hb; rewrite Hb; [reflexivity |].
  unfold RawGeometry.iteration, RawGeometry.readCommand.
  destruct (RawGeometry.length s =? 0) eqn:E0; [apply Z.eqb_eq in E0; lia |].
  cbn [bind RawGeometry.cmd].
  rewrite Hc.
  change (7 =? 1) with false. change (7 =? 2) with false.
  change (7 =? 7) with true. cbn [orb bind].
  unfold RawGeometry.closePath. cbn [RawGeometry.currentEnd RawGeometry.coordsLen].
  destruct (RawGeometry.currentEnd s <? RawGeometry.coordsLen s);
    apply IH; cbn; solve [reflexivity | lia].
Qed.

(** X2: [readRawGeometry_] never returns on a geometry that holds, before its
    last byte, a ClosePath command whose count is not positive.  When the loop
    has come, after any number of turns, to a state that is about to read a
    command integer [k] with [k & 7 = 7] and [k >> 3 <= 0], and the stream
    goes on after that integer, [length] is negative from then on, no turn
    reads from the buffer again, and [pbf.pos < end] stays true: the call
    runs out of every amount of fuel. *)
Theorem readRawGeometry__closePath_without_count_never_ends :
  forall fuel p feature flat0 ends0 g size p1 n s k p2,
    RawFeature.geometry feature = Some g ->
    readVarint (setPos p g) = Ok (size, p1) ->
    reaches (size + pos p1) n (RawGeometry.init p1 flat0 ends0) s ->
    RawGeometry.length s = 0 ->
    readVarint (RawGeometry.pbf s) = Ok (k, p2) ->
    bitAnd k 7 = 7 ->
    shiftRight k 3 <= 0 ->
    pos p2 < size + pos p1 ->
    readRawGeometry_ fuel p feature flat0 ends0 = OutOfFuel.
Proof.
  intros fuel p feature flat0 ends0 g size p1 n s k p2
         Hg Hsize Hre Hlen Hk Hcmd Hcount Hmore.
  unfold readRawGeometry_. rewrite Hg, Hsize. cbn [bind].
  rewrite (reaches_then_spins _ _ _ _ Hre); [reflexivity |].
  intros fuel'.
  assert (Hpos : pos (RawGeometry.pbf s) < size + pos p1).
  { pose proof (readVarint_pos _ _ _ Hk). lia. }
  destruct fuel' as [| fuel']; cbn [RawGeometry.loop];
    rewrite (proj2 (Z.ltb_lt _ _) Hpos); [reflexivity |].
  unfold RawGeometry.iteration, RawGeometry.readCommand.
  rewrite Hlen, Z.eqb_refl, Hk. cbn [bind RawGeometry.cmd].
  rewrite Hcmd.
  change (7 =? 1) with false. change (7 =? 2) with false.
  change (7 =? 7) with true. cbn [orb bind].
  apply closePath_spins.
  - unfold RawGeometry.closePath.
    cbn [RawGeometry.currentEnd RawGeometry.coordsLen].
    destruct (_ <? _); reflexivity.
  - unfold RawGeometry.closePath.
    cbn [RawGeometry.currentEnd RawGeometry.coordsLen].
    destruct (_ <? _); cbn [RawGeometry.length]; lia.
  - unfold RawGeometry.closePath.
    cbn [RawGeometry.currentEnd RawGeometry.coordsLen].
    destruct (_ <? _); cbn [RawGeometry.pbf]; exact Hmore.
Qed.

Lemma readRawGeometry__closePath_without_count_never_ends_witness :
  readRawGeometry_ 1000 (mkPBF closePathCountZero 0) (featureAt0 3) [] []
  = OutOfFuel.
Proof.
  apply (readRawGeometry__closePath_without_count_never_ends
           1000 (mkPBF closePathCountZero 0) (featureAt0 3) [] []
           0 2 (mkPBF closePathCountZero 1) 0
           (RawGeometry.init (mkPBF closePathCountZero 1) [] [])
           7 (mkPBF closePathCountZero 2)).
  - reflexivity.
  - reflexivity.
  - apply reaches_here.
  - reflexivity.
  - reflexivity.
  - reflexivity.
  - vm_compute. discriminate.
  - vm_compute. reflexivity.
Defined.

(** ** What [createFeature_] puts into a feature *)

Lemma objGet_objSet_same {V : Type} (k : string) (v : V) (o : JsObject V) :
  objGet k (objSet k v o) = Some v.
Proof.
  induction o as [| [k' v'] rest IH]; cbn [objSet objGet].
  - rewrite String.eqb_refl. reflexivity.
  - destruct (String.eqb k k') eqn:E; cbn [objGet].
    + rewrite String.eqb_refl. reflexivity.
    + rewrite E. exact IH.
Qed.

Lemma objGet_objSet_other {V : Type} (k k0 : string) (v : V)
    (o : JsObject V) :
  k0 <> k -> objGet k0 (objSet k v o) = objGet k0 o.
Proof.
  intros Hne. apply String.eqb_neq in Hne.
  induction o as [| [k' v'] rest IH]; cbn [objSet objGet].
  - rewrite Hne. reflexivity.
  - destruct (String.eqb k k') eqn:E; cbn [objGet].
    + apply String.eqb_eq in E. subst k'. rewrite Hne. reflexivity.
    + rewrite IH. reflexivity.
Qed.

Lemma createFeature__Some_inv (fuel : nat) (this : MVT) (p q : PBF)
    (raw : RawFeature.t) (f : FeatureObject) :
  createFeature_ fuel this p raw = Ok (q, Some f) ->
  RawFeature.type raw <> 0 /\
  exists flat ends,
    readRawGeometry_ fuel p raw [] [] = Ok (q, flat, ends) /\
    let values := featureValues this raw in
    let geometryType :=
      getGeometryType (RawFeature.type raw) (Z.of_nat (List.length ends)) in
    f = match featureClass_ this with
        | RenderFeature =>
            NewRenderFeature geometryType flat ends values
              (RawFeature.id raw)
        | Feature =>
            NewFeature (truthyName (geometryName_ this))
              (createGeometry geometryType flat ends) (RawFeature.id raw)
              values
        end.
Proof.
  unfold createFeature_. intros H.
  destruct (Z.eqb_spec (RawFeature.type raw) 0) as [E | E];
    [discriminate H |].
  split; [exact E |].
  destruct (readRawGeometry_ fuel p raw [] []) as [[[p' flat] ends] | |];
    cbn [bind] in H; try discriminate H.
  exists flat, ends.
  destruct (featureClass_ this); inversion H; subst; split; reflexivity.
Qed.

Lemma featureValues_set (this : MVT) (raw : RawFeature.t) :
  layerName_ this <> protoKey \/ RawFeature.nullProto raw = true ->
  featureValues this raw
  = objSet (layerName_ this)
      (option_map VString (RawLayer.name (RawFeature.layer raw)))
      (RawFeature.properties raw).
Proof.
  intros H. unfold featureValues, setProperty.
  destruct (String.eqb_spec (layerName_ this) protoKey) as [E | E];
    cbn [andb]; [| reflexivity].
  destruct H as [H | ->]; [contradiction | reflexivity].
Qed.

Lemma featureValues_ignored (this : MVT) (raw : RawFeature.t) :
  layerName_ this = protoKey ->
  RawFeature.nullProto raw = false ->
  featureValues this raw = RawFeature.properties raw.
Proof.
  intros Hn Hp. unfold featureValues, setProperty.
  rewrite Hn, Hp, String.eqb_refl. cbn [andb negb].
  destruct (RawLayer.name (RawFeature.layer raw)); reflexivity.
Qed.

(** X3: the feature [createFeature_] creates carries the name of its layer
    under the property [layerName_] of the format: a property of that name
    that the tile gave the feature is overwritten, and every other property
    is that of the raw feature.  There is one name for which this is not
    so: when [layerName_] is "__proto__" and the properties of the raw
    feature still have their prototype, the assignment reaches the accessor
    of Object.prototype, which ignores a string, and the properties stay as
    they were.  The id is that of the raw feature in every case. *)
Theorem createFeature__layer_name_property :
  forall fuel this p raw q f,
    createFeature_ fuel this p raw = Ok (q, Some f) ->
    (layerName_ this <> protoKey \/ RawFeature.nullProto raw = true ->
     objGet (layerName_ this) (featureProperties f)
     = Some (option_map VString (RawLayer.name (RawFeature.layer raw))) /\
     forall k, k <> layerName_ this ->
       objGet k (featureProperties f)
       = objGet k (RawFeature.properties raw)) /\
    (layerName_ this = protoKey -> RawFeature.nullProto raw = false ->
     featureProperties f = RawFeature.properties raw) /\
    featureId f = RawFeature.id raw.
Proof.
  intros fuel this p raw q f H.
  destruct (createFeature__Some_inv _ _ _ _ _ _ H)
    as (_ & flat & ends & _ & Hf).
  cbv zeta in Hf.
  assert (Hp : featureProperties f = featureValues this raw).
  { subst f. destruct (featureClass_ this); reflexivity. }
  assert (Hi : featureId f = RawFeature.id raw).
  { subst f. destruct (featureClass_ this); reflexivity. }
  split; [| split; [| exact Hi]].
  - intros Hname. rewrite Hp, (featureValues_set this raw Hname).
    split; [apply objGet_objSet_same |].
    intros k Hk. apply objGet_objSet_other. exact Hk.
  - intros Hname Hproto. rewrite Hp.
    apply featureValues_ignored; assumption.
Qed.

Lemma createFeature__layer_name_property_witness :
  (layerName_ defaultMVT <> protoKey \/
   RawFeature.nullProto taggedFeature = true ->
   objGet (layerName_ defaultMVT) (featureProperties taggedRenderFeature)
   = Some (option_map VString
             (RawLayer.name (RawFeature.layer taggedFeature))) /\
   forall k, k <> layerName_ defaultMVT ->
     objGet k (featureProperties taggedRenderFeature)
     = objGet k (RawFeature.properties taggedFeature)) /\
  (layerName_ defaultMVT = protoKey ->
   RawFeature.nullProto taggedFeature = false ->
   featureProperties taggedRenderFeature
   = RawFeature.properties taggedFeature) /\
  featureId taggedRenderFeature = RawFeature.id taggedFeature.
Proof.
  apply (createFeature__layer_name_property 100 defaultMVT
           (mkPBF ringClosedTwice 0) taggedFeature
           (mkPBF ringClosedTwice 11) taggedRenderFeature).
  reflexivity.
Defined.

Lemma getGeometryType_family (type numEnds : Z) (t : GeometryType) :
  getGeometryType type numEnds = Some t ->
  rawTypeOf t = type /\
  (type <> 3 -> (singlePart t = true <-> numEnds = 1)).
Proof.
  unfold getGeometryType.
  destruct (Z.eqb_spec type 1) as [-> | N1].
  { destruct (Z.eqb_spec numEnds 1) as [-> | Nn]; intros [= <-];
      cbn; (split; [reflexivity |]); intros _; split; intros H;
      solve [reflexivity | discriminate H | contradiction]. }
  destruct (Z.eqb_spec type 2) as [-> | N2].
  { destruct (Z.eqb_spec numEnds 1) as [-> | Nn]; intros [= <-];
      cbn; (split; [reflexivity |]); intros _; split; intros H;
      solve [reflexivity | discriminate H | contradiction]. }
  destruct (Z.eqb_spec type 3) as [-> | N3]; [| discriminate].
  intros [= <-]. cbn. split; [reflexivity | intros H; contradiction].
Qed.

Lemma getGeometryType_None (type numEnds : Z) :
  getGeometryType type numEnds = None <->
  type <> 1 /\ type <> 2 /\ type <> 3.
Proof.
  unfold getGeometryType.
  destruct (Z.eqb_spec type 1); [split; [discriminate | lia] |].
  destruct (Z.eqb_spec type 2); [split; [discriminate | lia] |].
  destruct (Z.eqb_spec type 3); [split; [discriminate | lia] |].
  split; [intros _; lia | reflexivity].
Qed.

Lemma createGeometry_type (gt : option GeometryType) (flat ends : list Z) :
  match createGeometry gt flat ends, gt with
  | None, None => True
  | Some g, Some t =>
      rawTypeOf (getType g) = rawTypeOf t /\
      (t <> POLYGON -> getType g = t)
  | Some _, None => False
  | None, Some t => t = MULTI_POLYGON
  end.
Proof.
  destruct gt as [[] |]; cbn [createGeometry]; try exact I;
    try (split; [reflexivity | intros _; reflexivity]);
    try reflexivity.
  destruct (1 <? List.length (polygonEndss flat ends))%nat; cbn;
    (split; [reflexivity | intros H; contradiction]).
Qed.

(** X4: the result of [createFeature_] by raw geometry type.  The feature is
    [null] exactly for the raw type 0, and then nothing was read from the
    buffer.  Otherwise the geometry was decoded and the feature's geometry
    type belongs to the raw type: a point type for 1, a line type for 2, a
    polygon type for 3; for the raw types 1 and 2 it is the single-part type
    exactly when the geometry has one end.  For any other raw type the
    feature is created all the same, a render feature without a type or a
    feature without a geometry. *)
Theorem createFeature__by_raw_type :
  forall fuel this p raw q r,
    createFeature_ fuel this p raw = Ok (q, r) ->
    match r with
    | None => RawFeature.type raw = 0 /\ q = p
    | Some f =>
        RawFeature.type raw <> 0 /\
        exists flat ends,
          readRawGeometry_ fuel p raw [] [] = Ok (q, flat, ends) /\
          (featureGeometryType f = None <->
           RawFeature.type raw <> 1 /\ RawFeature.type raw <> 2 /\
           RawFeature.type raw <> 3) /\
          (forall t,
             featureGeometryType f = Some t ->
             rawTypeOf t = RawFeature.type raw /\
             (RawFeature.type raw <> 3 ->
              (singlePart t = true <-> List.length ends = 1%nat)))
    end.
Proof.
  intros fuel this p raw q [f |] H.
  - destruct (createFeature__Some_inv _ _ _ _ _ _ H)
      as (Hty & flat & ends & Hg & Hf).
    cbv zeta in Hf.
    split; [exact Hty |]. exists flat, ends. split; [exact Hg |].
    set (n := Z.of_nat (List.length ends)) in *.
    assert (Hn : n = 1 <-> List.length ends = 1%nat) by (unfold n; lia).
    pose proof (getGeometryType_family (RawFeature.type raw) n) as Hfam.
    pose proof (getGeometryType_None (RawFeature.type raw) n) as Hnone.
    pose proof (createGeometry_type
                  (getGeometryType (RawFeature.type raw) n) flat ends) as Hcg.
    destruct (featureClass_ this); subst f; cbn [featureGeometryType].
    + split; [exact Hnone |].
      intros t Ht. destruct (Hfam t Ht) as [H1 H2].
      split; [exact H1 |]. intros H3. rewrite (H2 H3). exact Hn.
    + destruct (getGeometryType (RawFeature.type raw) n) as [t0 |] eqn:Eg.
      * destruct (Hfam t0 eq_refl) as [H1 H2].
        destruct (createGeometry (Some t0) flat ends) as [g |] eqn:Ec.
        -- destruct Hcg as [Hr Hsame]. cbn [option_map].
           split.
           ++ split; [discriminate |].
              intros Hno. apply Hnone in Hno. discriminate Hno.
           ++ intros t [= <-]. split; [congruence |].
              intros H3. rewrite Hsame.
              ** rewrite (H2 H3). exact Hn.
              ** intros ->. cbn in H1. congruence.
        -- subst t0. discriminate Eg || (exfalso;
             unfold getGeometryType in Eg;
             repeat (destruct (_ =? _) in Eg); congruence).
      * destruct (createGeometry None flat ends) eqn:Ec; [contradiction |].
        cbn [option_map]. split.
        -- split; [intros _; apply Hnone; reflexivity | reflexivity].
        -- intros t Ht. discriminate Ht.
  - unfold createFeature_ in H.
    destruct (Z.eqb_spec (RawFeature.type raw) 0) as [E | E].
    + inversion H. split; [exact E | reflexivity].
    + destruct (readRawGeometry_ fuel p raw [] []) as [[[p' flat] ends] | |];
        cbn [bind] in H; try discriminate H.
      destruct (featureClass_ this); discriminate H.
Qed.

Lemma createFeature__by_raw_type_witness :
  RawFeature.type (featureAt0 5) <> 0 /\
  exists flat ends,
    readRawGeometry_ 100 (mkPBF ringClosedTwice 0) (featureAt0 5) [] []
    = Ok (mkPBF ringClosedTwice 11, flat, ends) /\
    (featureGeometryType untypedFeature = None <->
     RawFeature.type (featureAt0 5) <> 1 /\
     RawFeature.type (featureAt0 5) <> 2 /\
     RawFeature.type (featureAt0 5) <> 3) /\
    (forall t,
       featureGeometryType untypedFeature = Some t ->
       rawTypeOf t = RawFeature.type (featureAt0 5) /\
       (RawFeature.type (featureAt0 5) <> 3 ->
        (singlePart t = true <-> List.length ends = 1%nat))).
Proof.
  apply (createFeature__by_raw_type 100 featureMVT
           (mkPBF ringClosedTwice 0) (featureAt0 5)
           (mkPBF ringClosedTwice 11) (Some untypedFeature)).
  reflexivity.
Defined.

(** ** The layers object *)

Lemma objSet_keys_In {V : Type} (k k0 : string) (v : V) (o : JsObject V) :
  In k0 (map fst (objSet k v o)) -> k0 = k \/ In k0 (map fst o).
Proof.
  induction o as [| [k' v'] rest IH]; cbn [objSet map fst In].
  - intros [<- | []]. left. reflexivity.
  - destruct (String.eqb k k') eqn:E; cbn [map fst In].
    + intros [<- | H]; [left; reflexivity | right; right; exact H].
    + intros [<- | H]; [right; left; reflexivity |].
      destruct (IH H) as [-> | Hin]; [left; reflexivity |].
      right. right. exact Hin.
Qed.

Lemma objSet_NoDup {V : Type} (k : string) (v : V) (o : JsObject V) :
  NoDup (map fst o) -> NoDup (map fst (objSet k v o)).
Proof.
  induction o as [| [k' v'] rest IH]; cbn [objSet map fst]; intros H.
  - constructor; [intros [] | constructor].
  - inversion H as [| ? ? Hnin Hrest]; subst.
    destruct (String.eqb k k') eqn:E; cbn [map fst].
    + apply String.eqb_eq in E. subst k'. constructor; assumption.
    + constructor; [| apply IH; exact Hrest].
      intros Hin. apply objSet_keys_In in Hin.
      destruct Hin as [-> | Hin]; [| contradiction].
      rewrite String.eqb_refl in E. discriminate E.
Qed.

Lemma setLayer_inv (layer : RawLayer.t) (layers : Layers.t) :
  0 < RawLayer.length layer ->
  layerCounted layer ->
  layersInv layers ->
  layersInv (setLayer layer layers).
Proof.
  intros Hlen Hcount (Hn & Hp & Hs & Hproto). unfold setLayer, layersInv.
  destruct (String.eqb_spec (propertyKey (RawLayer.name layer)) protoKey)
    as [E | E]; cbn [Layers.own Layers.prototype].
  - split; [exact Hn |]. split; [exact Hp |]. split; [exact Hs |].
    intros proto [= <-]. split; [| split; assumption].
    destruct (RawLayer.name layer) as [s |]; cbn [propertyKey] in E;
      [rewrite E; reflexivity | discriminate E].
  - split; [apply objSet_NoDup; exact Hn |].
    split.
    + intros Hin. apply objSet_keys_In in Hin.
      destruct Hin as [Hin | Hin]; [symmetry in Hin |]; contradiction.
    + split; [| exact Hproto].
      apply objSet_Forall; [| exact Hs].
      unfold storedLayer. cbn [fst snd]. repeat split; assumption.
Qed.

Lemma layersPBFReader_stored (tag : Z) (layers layers' : Layers.t)
    (p q : PBF) :
  layersInv layers ->
  layersPBFReader tag layers p = Ok (layers', q) ->
  layersInv layers'.
Proof.
  intros Hinv H. unfold layersPBFReader in H.
  destruct (tag =? 3); [| injection H as <- _; exact Hinv].
  inv_bind H. destruct a as [n p1]. inv_bind H. destruct a as [layer p2].
  destruct layer.
  destruct (Z.eqb_spec (Z.of_nat (List.length features)) 0) as [E | E];
    injection H as <- _; [exact Hinv |].
  apply setLayer_inv; [cbn; lia | reflexivity | exact Hinv].
Qed.

Lemma layers_object_stored (source : list Z) (pbfLayers : Layers.t)
    (p : PBF) :
  readFields layersPBFReader Layers.empty None (mkPBF source 0)
  = Ok (pbfLayers, p) ->
  layersInv pbfLayers.
Proof.
  intros H. unfold readFields in H.
  eapply (readFieldsLoop_invariant layersInv layersPBFReader); [| | exact H].
  - intros tag r p0 r' q Hr Hread.
    eapply layersPBFReader_stored; eassumption.
  - unfold layersInv. cbn.
    split; [constructor |]. split; [intros [] |].
    split; [constructor | discriminate].
Qed.

(** X5: the layers object that [readFeatures] builds from a tile, when the
    records of the tile can be read.  Its own properties are layers: no two
    have the same key, none has the key "__proto__", each is stored under
    its name (under "undefined" when the record has no name), has at least
    one feature record, and its [length] is the number of its feature
    offsets; a layer record without features is left out, and of two
    records with the same name one is kept.  This holds in the order in
    which [for (name in pbfLayers)] visits the own properties as well.  A
    layer record named "__proto__" is no own property: it becomes the
    prototype of the object, and the prototype is never anything else. *)
Theorem layers_object_is_well_formed :
  forall source pbfLayers p,
    readFields layersPBFReader Layers.empty None (mkPBF source 0)
    = Ok (pbfLayers, p) ->
    NoDup (map fst (Layers.own pbfLayers)) /\
    ~ In protoKey (map fst (Layers.own pbfLayers)) /\
    Forall storedLayer (Layers.own pbfLayers) /\
    Forall storedLayer (forIn (Layers.own pbfLayers)) /\
    (forall proto,
       Layers.prototype pbfLayers = Some proto ->
       RawLayer.name proto = Some protoKey /\
       0 < RawLayer.length proto /\
       layerCounted proto).
Proof.
  intros source pbfLayers p H.
  destruct (layers_object_stored source pbfLayers p H)
    as (Hn & Hp & Hl & Hproto).
  split; [exact Hn |]. split; [exact Hp |]. split; [exact Hl |].
  split; [| exact Hproto].
  rewrite Forall_forall in *. intros nl Hin. apply Hl, forIn_In, Hin.
Qed.

Lemma layers_object_is_well_formed_witness :
  NoDup (map fst (Layers.own protoLayers)) /\
  ~ In protoKey (map fst (Layers.own protoLayers)) /\
  Forall storedLayer (Layers.own protoLayers) /\
  Forall storedLayer (forIn (Layers.own protoLayers)) /\
  (forall proto,
     Layers.prototype protoLayers = Some proto ->
     RawLayer.name proto = Some protoKey /\
     0 < RawLayer.length proto /\
     layerCounted proto).
Proof.
  apply (layers_object_is_well_formed protoTile protoLayers
           (mkPBF protoTile (Z.of_nat (List.length protoTile)))).
  vm_compute. reflexivity.
Defined.

(** ** The properties of a raw feature *)

Lemma index_In {A : Type} (a : list A) (i : Z) (v : A) :
  index a i = Some v -> In v a.
Proof.
  unfold index. destruct (i <? 0); [discriminate |].
  apply nth_error_In.
Qed.

Lemma setProperty_inv (P : string * option value -> Prop) (k : string)
    (v : option value) (o : JsObject (option value)) (nullProto : bool) :
  P (k, v) ->
  NoDup (map fst o) ->
  Forall P o ->
  NoDup (map fst (fst (setProperty k v (o, nullProto)))) /\
  Forall P (fst (setProperty k v (o, nullProto))).
Proof.
  intros Hkv Hn Hall. unfold setProperty.
  destruct (String.eqb k protoKey && negb nullProto).
  - destruct v as [[] |]; cbn [fst]; split; assumption.
  - cbn [fst]. split; [apply objSet_NoDup; exact Hn |].
    apply objSet_Forall; assumption.
Qed.

Lemma propertiesLoop_inv (layer : RawLayer.t) :
  forall n e raw p raw' q,
    rawFeatureInv layer raw ->
    propertiesLoop n e raw p = Ok (raw', q) ->
    rawFeatureInv layer raw'.
Proof.
  induction n as [| n IH]; intros e raw p raw' q Hr H;
    cbn [propertiesLoop] in H.
  - destruct (pos p <? e); [discriminate |]. injection H as <- _. exact Hr.
  - destruct (pos p <? e); [| injection H as <- _; exact Hr].
    inv_bind H. destruct a as [ki p1]. inv_bind H. destruct a as [vi p2].
    destruct raw as [l ty props id g np].
    eapply IH; [| exact H].
    destruct Hr as (Hl & Hn & Hall). cbn in Hl, Hn, Hall. subst l.
    unfold rawFeatureInv.
    cbn [RawFeature.layer RawFeature.properties].
    split; [reflexivity |].
    apply setProperty_inv; [| exact Hn | exact Hall].
    unfold resolvedIn. cbn [fst snd]. split.
    + destruct (index (RawLayer.keys layer) ki) as [k |] eqn:Ek;
        cbn [propertyKey]; [right; eapply index_In; exact Ek |
                            left; reflexivity].
    + destruct (index (RawLayer.values layer) vi) as [v |] eqn:Ev;
        [right; exists v; split; [reflexivity | eapply index_In; exact Ev] |
         left; reflexivity].
Qed.

Lemma featurePBFReader_inv (layer : RawLayer.t) (tag : Z)
    (raw raw' : RawFeature.t) (p q : PBF) :
  rawFeatureInv layer raw ->
  featurePBFReader tag raw p = Ok (raw', q) ->
  rawFeatureInv layer raw'.
Proof.
  intros Hr H. unfold featurePBFReader in H.
  destruct raw as [l ty props id g].
  destruct (tag =? 1).
  { inv_bind H. destruct a as [v p1]. injection H as <- _. exact Hr. }
  destruct (tag =? 2).
  { inv_bind H. destruct a as [v p1].
    eapply propertiesLoop_inv; eassumption. }
  destruct (tag =? 3).
  { inv_bind H. destruct a as [v p1]. injection H as <- _. exact Hr. }
  destruct (tag =? 4); injection H as <- _; exact Hr.
Qed.

Lemma readRawFeature_inv (p q : PBF) (layer : RawLayer.t) (i : Z)
    (raw : RawFeature.t) :
  readRawFeature p layer i = Ok (raw, q) -> rawFeatureInv layer raw.
Proof.
  intros H. unfold readRawFeature in H.
  destruct (index (RawLayer.features layer) i) as [offset |];
    [| discriminate H].
  inv_bind H. destruct a as [n p1]. unfold readFields in H.
  eapply (readFieldsLoop_invariant (rawFeatureInv layer) featurePBFReader);
    [| | exact H].
  - intros tag r p0 r' q0 Hr Hread.
    eapply featurePBFReader_inv; eassumption.
  - repeat split; constructor.
Qed.

(** X6: the raw feature that [readRawFeature] reads from a record refers to
    the layer it was given, and its properties are resolved against the
    tables of that layer: every property key is one of [layer.keys], or
    "undefined" when the key index was outside the table; every property
    value is one of [layer.values], or undefined; no key occurs twice. *)
Theorem readRawFeature_resolves_properties :
  forall p layer i raw q,
    readRawFeature p layer i = Ok (raw, q) ->
    RawFeature.layer raw = layer /\
    NoDup (map fst (RawFeature.properties raw)) /\
    Forall (resolvedIn layer) (RawFeature.properties raw).
Proof.
  intros p layer i raw q H.
  exact (readRawFeature_inv p q layer i raw H).
Qed.

Lemma readRawFeature_resolves_properties_witness :
  RawFeature.layer repeatedLayerFeature = repeatedLayer /\
  NoDup (map fst (RawFeature.properties repeatedLayerFeature)) /\
  Forall (resolvedIn repeatedLayer)
    (RawFeature.properties repeatedLayerFeature).
Proof.
  apply (readRawFeature_resolves_properties (mkPBF repeatedLayerTile 77)
           repeatedLayer 0 repeatedLayerFeature
           (mkPBF repeatedLayerTile 55)).
  reflexivity.
Defined.

(** ** The extent and the options across [readFeatures] *)

Lemma lastExtent_cons (name : string) (slot : LayerSlot)
    (rest : list (string * LayerSlot)) (before : option (list (option Z))) :
  lastExtent ((name, slot) :: rest) before
  = lastExtent rest (slotExtent slot).
Proof.
  unfold lastExtent. cbn [List.rev].
  destruct (List.rev rest) as [| [n l] t]; reflexivity.
Qed.

Lemma layersLoop_extent (fuel : nat) (this : MVT)
    (slots : list (string * LayerSlot)) :
  forall this0 p fs this' fs',
    sameOptions this this0 ->
    layersLoop fuel this0 slots p fs = Ok (this', fs') ->
    sameOptions this this' /\
    extent_ this'
    = lastExtent
        (filter (fun ns => negb (skipsLayer this (fst ns))) slots)
        (extent_ this0).
Proof.
  induction slots as [| [name slot] rest IH];
    intros this0 p fs this' fs' Hs H; cbn [layersLoop filter fst] in *.
  - injection H as <- _. split; [exact Hs | reflexivity].
  - rewrite (skipsLayer_format this this0 name Hs) in H.
    destruct (skipsLayer this name); cbn [negb].
    + eapply IH; eassumption.
    + inv_bind H. destruct a as [p' features'].
      rewrite lastExtent_cons.
      eapply IH in H; [exact H | apply sameOptions_extent; exact Hs].
Qed.

(** X7: what a call of [readFeatures] that returns leaves in the format
    object.  The options ([featureClass_], [geometryName_], [layerName_],
    [layers_]) are unchanged.  [getLastExtent()] answers what the last name
    that the loop visited and did not skip gave: for a layer,
    [[0, 0, extent, extent]] with its extent (undefined when the record has
    none); for a property of a prototype layer, which the loop visits after
    the layers, [[0, 0, undefined, undefined]], or null when the property is
    the number 0.  When the loop skipped every name, it answers what it
    answered before. *)
Theorem readFeatures_last_extent :
  forall fuel this source this' features,
    readFeatures fuel this source = Ok (this', features) ->
    exists pbfLayers p,
      readFields layersPBFReader Layers.empty None (mkPBF source 0)
      = Ok (pbfLayers, p) /\
      sameOptions this this' /\
      getLastExtent this'
      = lastExtent (visited this pbfLayers) (getLastExtent this).
Proof.
  intros fuel this source this' features H. unfold readFeatures in H.
  inv_bind H. destruct a as [pbfLayers p1].
  exists pbfLayers, p1. split; [exact Hm |].
  unfold getLastExtent, visited.
  eapply layersLoop_extent; [apply sameOptions_refl | exact H].
Qed.

Lemma readFeatures_last_extent_witness :
  exists pbfLayers p,
    readFields layersPBFReader Layers.empty None (mkPBF protoTile 0)
    = Ok (pbfLayers, p) /\
    sameOptions (setLayers ["a"%string; "keys"%string] defaultMVT)
      (mkMVT RenderFeature None "layer" (Some ["a"%string; "keys"%string])
         (Some [Some 0; Some 0; None; None])) /\
    getLastExtent
      (mkMVT RenderFeature None "layer" (Some ["a"%string; "keys"%string])
         (Some [Some 0; Some 0; None; None]))
    = lastExtent
        (visited (setLayers ["a"%string; "keys"%string] defaultMVT)
           pbfLayers)
        (getLastExtent (setLayers ["a"%string; "keys"%string] defaultMVT)).
Proof.
  apply (readFeatures_last_extent 100
           (setLayers ["a"%string; "keys"%string] defaultMVT) protoTile
           (mkMVT RenderFeature None "layer"
              (Some ["a"%string; "keys"%string])
              (Some [Some 0; Some 0; None; None]))
           [Some pointFeature]).
  vm_compute. reflexivity.
Defined.

(** ** A format that selects no layer *)

(** A tile with a layer named "__proto__" and no filter: after the layers
    the loop visits the properties of the prototype, and throws on its
    [features] array; selecting the name "__proto__" selects nothing. *)
Example protoTile_without_filter_throws :
  readFeatures 100 defaultMVT protoTile = Throw TypeError /\
  readFeatures 100 (setLayers ["__proto__"%string] defaultMVT) protoTile
  = Ok (setLayers ["__proto__"%string] defaultMVT, []).
Proof. split; vm_compute; reflexivity. Qed.

Lemma layersLoop_all_skipped (fuel : nat) (this : MVT)
    (slots : list (string * LayerSlot)) (p : PBF)
    (fs : list (option FeatureObject)) :
  (forall ns, In ns slots -> skipsLayer this (fst ns) = true) ->
  layersLoop fuel this slots p fs = Ok (this, fs).
Proof.
  induction slots as [| [name slot] rest IH]; intros Hall;
    cbn [layersLoop]; [reflexivity |].
  pose proof (Hall (name, slot) (or_introl eq_refl)) as E.
  cbn [fst] in E. rewrite E.
  apply IH. intros ns Hin. apply Hall. right. exact Hin.
Qed.

(** X8: when the layer records of a tile can be read and the format skips
    every name that [for (name in pbfLayers)] visits (the layers of the
    tile and, when a layer named "__proto__" became the prototype of the
    layers object, its properties), [readFeatures] returns the empty array
    and leaves the format as it was: no feature record is read, whatever it
    holds and whatever the fuel.  After [setLayers([])] this is so for every
    such tile. *)
Theorem readFeatures_without_selected_layer :
  forall fuel this source pbfLayers p,
    readFields layersPBFReader Layers.empty None (mkPBF source 0)
    = Ok (pbfLayers, p) ->
    (visited this pbfLayers = [] ->
     readFeatures fuel this source = Ok (this, [])) /\
    readFeatures fuel (setLayers [] this) source
    = Ok (setLayers [] this, []).
Proof.
  intros fuel this source pbfLayers p H. split.
  - intros Hsel. unfold readFeatures. rewrite H. cbn [bind].
    apply layersLoop_all_skipped. intros ns Hin.
    destruct (skipsLayer this (fst ns)) eqn:E; [reflexivity |].
    assert (Hin' : In ns (visited this pbfLayers)).
    { unfold visited. apply filter_In. split; [exact Hin |].
      rewrite E. reflexivity. }
    rewrite Hsel in Hin'. destruct Hin'.
  - unfold readFeatures. rewrite H. cbn [bind].
    apply layersLoop_all_skipped. intros ns _. reflexivity.
Qed.

Lemma readFeatures_without_selected_layer_witness :
  readFeatures 0 (setLayers ["__proto__"%string] defaultMVT) protoTile
  = Ok (setLayers ["__proto__"%string] defaultMVT, []) /\
  readFeatures 0 (setLayers [] (setLayers ["__proto__"%string] defaultMVT))
    protoTile
  = Ok (setLayers [] (setLayers ["__proto__"%string] defaultMVT), []).
Proof.
  destruct (readFeatures_without_selected_layer 0
              (setLayers ["__proto__"%string] defaultMVT) protoTile
              protoLayers
              (mkPBF protoTile (Z.of_nat (List.length protoTile))))
    as [Hnone Hempty].
  - vm_compute. reflexivity.
  - split; [apply Hnone; reflexivity | exact Hempty].
Defined.

(** ** The parts of a MultiPolygon *)

Lemma firstn_then_slice {A : Type} (l : list A) :
  forall a b : nat,
    (a <= b)%nat ->
    firstn a l ++ firstn (b - a) (skipn a l) = firstn b l.
Proof.
  induction l as [| x l IH]; intros a b Hab.
  - rewrite skipn_nil, !firstn_nil. reflexivity.
  - destruct a as [| a].
    + cbn [firstn skipn app]. rewrite Nat.sub_0_r. reflexivity.
    + destruct b as [| b]; [lia |].
      cbn [firstn skipn app Nat.sub]. rewrite IH by lia. reflexivity.
Qed.

Lemma ringLoop_concat (flat ends : list Z) :
  forall rest i offset prevEndIndex endss,
    0 <= prevEndIndex <= i ->
    i + Z.of_nat (List.length rest) = Z.of_nat (List.length ends) ->
    List.concat endss = firstn (Z.to_nat prevEndIndex) ends ->
    exists k : nat,
      List.concat (ringLoop flat ends rest i offset prevEndIndex endss)
      = firstn k ends /\
      (k = Z.to_nat prevEndIndex \/
       (Z.to_nat i <= k < List.length ends)%nat).
Proof.
  induction rest as [| e rest IH]; intros i offset prev endss Hp Hlen Hc;
    cbn [ringLoop].
  - exists (Z.to_nat prev). split; [exact Hc | left; reflexivity].
  - cbn [List.length] in Hlen.
    destruct (negb (linearRingIsClockwise flat offset e 2)).
    + destruct (IH (i + 1) e i (endss ++ [slice ends prev i]))
        as (k & Hk & Hor).
      * lia.
      * lia.
      * rewrite concat_app. cbn [List.concat]. rewrite app_nil_r, Hc.
        unfold slice.
        replace (Z.to_nat (i - prev)) with (Z.to_nat i - Z.to_nat prev)%nat
          by lia.
        apply firstn_then_slice. lia.
      * exists k. split; [exact Hk |]. right. lia.
    + destruct (IH (i + 1) e prev endss) as (k & Hk & Hor); try lia.
      * exact Hc.
      * exists k. split; [exact Hk |].
        destruct Hor as [-> | Hr]; [left; reflexivity | right; lia].
Qed.

Lemma ringLoop_hd (flat ends : list Z) :
  forall rest i offset prevEndIndex endss,
    endss <> [] ->
    hd [] (ringLoop flat ends rest i offset prevEndIndex endss)
    = hd [] endss.
Proof.
  induction rest as [| e rest IH]; intros i offset prev endss Hne;
    cbn [ringLoop]; [reflexivity |].
  destruct (negb (linearRingIsClockwise flat offset e 2)).
  - rewrite IH.
    + destruct endss; [contradiction | reflexivity].
    + destruct endss; discriminate.
  - apply IH. exact Hne.
Qed.

(** X9: the parts of the MultiPolygon that [createFeature_] builds.  Put one
    after the other, the parts are the first [k] ends of the feature for
    some [k] below the number of its rings: the rings keep their order, and
    the last ring of the feature is in no part.  When the first ring is an
    exterior ring, the first part holds no ring at all. *)
Theorem multiPolygon_parts_stop_before_last_ring :
  forall flat ends flat' endss,
    createGeometry (Some POLYGON) flat ends
    = Some (MultiPolygon flat' endss) ->
    flat' = flat /\
    (exists k : nat,
       (k < List.length ends)%nat /\ List.concat endss = firstn k ends) /\
    (exteriorRing flat 0 (hd 0 ends) = true -> hd [] endss = []).
Proof.
  intros flat ends flat' endss H. cbn [createGeometry] in H.
  destruct (1 <? List.length (polygonEndss flat ends))%nat eqn:E;
    [| discriminate H].
  injection H as <- <-. split; [reflexivity |].
  apply Nat.ltb_lt in E. split.
  - destruct (ringLoop_concat flat ends ends 0 0 0 []) as (k & Hk & Hor);
      [lia | lia | reflexivity |].
    exists k. split; [| exact Hk].
    destruct ends as [| e rest]; [cbn in E; lia |].
    cbn [List.length] in *. destruct Hor as [-> | Hr]; lia.
  - intros Hext. unfold polygonEndss.
    destruct ends as [| e rest]; [reflexivity |].
    cbn [hd] in Hext. unfold exteriorRing in Hext.
    cbn [ringLoop]. rewrite Hext.
    rewrite ringLoop_hd; [reflexivity | discriminate].
Qed.

Lemma multiPolygon_parts_stop_before_last_ring_witness :
  twoExteriorRingsFlat = twoExteriorRingsFlat /\
  (exists k : nat,
     (k < List.length [10; 20])%nat /\
     List.concat [[]; [10]] = firstn k [10; 20]) /\
  (exteriorRing twoExteriorRingsFlat 0 (hd 0 [10; 20]) = true ->
   hd [] [[]; [10]] = []).
Proof.
  apply (multiPolygon_parts_stop_before_last_ring twoExteriorRingsFlat
           [10; 20] twoExteriorRingsFlat [[]; [10]]).
  reflexivity.
Defined.

(** ** Command streams, by what they draw *)

Lemma commandInteger_decode (c count : Z) :
  0 <= c < 8 -> 0 <= count < 268435456 ->
  bitAnd (commandInteger c count) 7 = c /\
  shiftRight (commandInteger c count) 3 = count.
Proof.
  intros Hc Hn. unfold bitAnd, shiftRight, commandInteger.
  assert (E : toInt32 (8 * count + c) = 8 * count + c).
  { unfold toInt32. rewrite Z.mod_small by lia.
    destruct (Z.ltb_spec (8 * count + c) 2147483648); [reflexivity | lia]. }
  rewrite E. split.
  - change (toInt32 7) with (Z.ones 3). rewrite Z.land_ones by lia.
    change (2 ^ 3) with 8. rewrite Z.add_comm, Z.mul_comm, Z_mod_plus_full.
    apply Z.mod_small. lia.
  - change (3 mod 32) with 3. rewrite Z.shiftr_div_pow2 by lia.
    change (2 ^ 3) with 8. rewrite Z.add_comm, Z.mul_comm, Z_div_plus_full
      by lia.
    rewrite Z.div_small by lia. reflexivity.
Qed.

Lemma reads_pos (p q : PBF) (vs : list Z) :
  reads p vs q -> pos p <= pos q.
Proof.
  induction 1 as [p | p p1 q v vs Hr _ IH]; [lia |].
  pose proof (readVarint_pos _ _ _ Hr). lia.
Qed.

Lemma readVarints_reads (n : nat) :
  forall p vs q, readVarints n p = Ok (vs, q) -> reads p vs q.
Proof.
  induction n as [| n IH]; intros p vs q H; cbn [readVarints] in H.
  - injection H as <- <-. constructor.
  - inv_bind H. destruct a as [v p1]. inv_bind H. destruct a as [vs' q'].
    injection H as <- <-. econstructor; [exact Hm | apply IH; exact Hm0].
Qed.

Lemma reads_app_inv (vs ws : list Z) :
  forall p q,
    reads p (vs ++ ws) q -> exists m, reads p vs m /\ reads m ws q.
Proof.
  induction vs as [| v vs IH]; intros p q H; cbn [app] in H.
  - exists p. split; [constructor | exact H].
  - inversion H as [| p' p1 q' v' vs' Hr Hrest]; subst.
    destruct (IH _ _ Hrest) as (m & H1 & H2).
    exists m. split; [econstructor; eassumption | exact H2].
Qed.

Lemma reaches_trans (e : Z) (n m : nat) (a b c : RawGeometry.state) :
  reaches e n a b -> reaches e m b c -> reaches e (n + m) a c.
Proof.
  induction 1 as [s | n s s' s'' Hlt Hit Hre IH]; intros Hbc;
    [exact Hbc |].
  cbn [Nat.add]. econstructor; [exact Hlt | exact Hit | apply IH, Hbc].
Qed.

Lemma loop_of_reaches (e : Z) (n : nat) (s s' : RawGeometry.state) :
  reaches e n s s' ->
  e <= pos (RawGeometry.pbf s') ->
  forall fuel, (n <= fuel)%nat -> RawGeometry.loop fuel e s = Ok s'.
Proof.
  induction 1 as [s | n s s1 s' Hlt Hit Hre IH]; intros Hend fuel Hfuel.
  - destruct fuel; cbn [RawGeometry.loop];
      rewrite (proj2 (Z.ltb_ge _ _) Hend); reflexivity.
  - destruct fuel as [| fuel]; [lia |]. cbn [RawGeometry.loop].
    rewrite (proj2 (Z.ltb_lt _ _) Hlt), Hit. cbn [bind].
    apply IH; [exact Hend | lia].
Qed.

(** A turn that decodes a further point of the running command. *)
Lemma turn_point (q0 p1 p2 : PBF) (c k x y cl cur a b : Z)
    (flat ends : list Z) :
  c = 1 \/ c = 2 ->
  k <> 0 ->
  readVarint q0 = Ok (a, p1) ->
  readVarint p1 = Ok (b, p2) ->
  RawGeometry.iteration (RawGeometry.mk q0 c k x y cl cur flat ends)
  = Ok (RawGeometry.mk p2 c (k - 1) (addNumber x (zigzag a)) (addNumber y (zigzag b)) (cl + 2)
          (if (c =? 1) && (cur <? cl) then cl else cur)
          (flat ++ [addNumber x (zigzag a); addNumber y (zigzag b)])
          (if (c =? 1) && (cur <? cl) then ends ++ [cl] else ends)).
Proof.
  intros Hc Hk Ha Hb.
  unfold RawGeometry.iteration, RawGeometry.readCommand.
  cbn [RawGeometry.length].
  destruct (Z.eqb_spec k 0) as [E | _]; [contradiction |].
  cbn [bind RawGeometry.cmd RawGeometry.pbf RawGeometry.length
       RawGeometry.x RawGeometry.y RawGeometry.coordsLen
       RawGeometry.currentEnd RawGeometry.flatCoordinates RawGeometry.ends].
  replace ((c =? 1) || (c =? 2)) with true
    by (destruct Hc as [-> | ->]; reflexivity).
  unfold RawGeometry.moveOrLineTo, readSVarint.
  cbn [RawGeometry.cmd RawGeometry.pbf RawGeometry.length
       RawGeometry.x RawGeometry.y RawGeometry.coordsLen
       RawGeometry.currentEnd RawGeometry.flatCoordinates RawGeometry.ends].
  rewrite Ha. cbn [bind]. rewrite Hb. cbn [bind].
  destruct ((c =? 1) && (cur <? cl)); reflexivity.
Qed.

(** A turn that reads the command integer of a MoveTo or LineTo and decodes
    its first point. *)
Lemma turn_command (q0 p0 p1 p2 : PBF) (c0 c count x y cl cur a b : Z)
    (flat ends : list Z) :
  c = 1 \/ c = 2 ->
  0 <= count < 268435456 ->
  readVarint q0 = Ok (commandInteger c count, p0) ->
  readVarint p0 = Ok (a, p1) ->
  readVarint p1 = Ok (b, p2) ->
  RawGeometry.iteration (RawGeometry.mk q0 c0 0 x y cl cur flat ends)
  = Ok (RawGeometry.mk p2 c (count - 1) (addNumber x (zigzag a)) (addNumber y (zigzag b))
          (cl + 2)
          (if (c =? 1) && (cur <? cl) then cl else cur)
          (flat ++ [addNumber x (zigzag a); addNumber y (zigzag b)])
          (if (c =? 1) && (cur <? cl) then ends ++ [cl] else ends)).
Proof.
  intros Hc Hn Hh Ha Hb.
  destruct (commandInteger_decode c count) as [Ec En];
    [destruct Hc; lia | exact Hn |].
  unfold RawGeometry.iteration, RawGeometry.readCommand.
  cbn [RawGeometry.length RawGeometry.pbf].
  rewrite Z.eqb_refl, Hh.
  cbn [bind RawGeometry.cmd RawGeometry.pbf RawGeometry.length
       RawGeometry.x RawGeometry.y RawGeometry.coordsLen
       RawGeometry.currentEnd RawGeometry.flatCoordinates RawGeometry.ends].
  rewrite Ec, En.
  replace ((c =? 1) || (c =? 2)) with true
    by (destruct Hc as [-> | ->]; reflexivity).
  unfold RawGeometry.moveOrLineTo, readSVarint.
  cbn [RawGeometry.cmd RawGeometry.pbf RawGeometry.length
       RawGeometry.x RawGeometry.y RawGeometry.coordsLen
       RawGeometry.currentEnd RawGeometry.flatCoordinates RawGeometry.ends].
  rewrite Ha. cbn [bind]. rewrite Hb. cbn [bind].
  destruct ((c =? 1) && (cur <? cl)); reflexivity.
Qed.

(** A turn that reads the command integer of a ClosePath with the count 1,
    on a sub-path with content. *)
Lemma turn_closePath (q0 p0 : PBF) (c0 x y cl cur : Z) (flat ends : list Z) :
  cur < cl ->
  readVarint q0 = Ok (commandInteger 7 1, p0) ->
  RawGeometry.iteration (RawGeometry.mk q0 c0 0 x y cl cur flat ends)
  = Ok (RawGeometry.mk p0 7 0 x y (cl + 2) cur
          (flat ++ [RawGeometry.coordAt flat cur;
                    RawGeometry.coordAt flat (cur + 1)])
          ends).
Proof.
  intros Hlt Hh.
  destruct (commandInteger_decode 7 1) as [Ec En]; [lia | lia |].
  unfold RawGeometry.iteration, RawGeometry.readCommand.
  cbn [RawGeometry.length RawGeometry.pbf].
  rewrite Z.eqb_refl, Hh.
  cbn [bind RawGeometry.cmd RawGeometry.pbf RawGeometry.length
       RawGeometry.x RawGeometry.y RawGeometry.coordsLen
       RawGeometry.currentEnd RawGeometry.flatCoordinates RawGeometry.ends].
  rewrite Ec, En.
  change ((7 =? 1) || (7 =? 2)) with false. change (7 =? 7) with true.
  cbn [bind]. unfold RawGeometry.closePath.
  cbn [RawGeometry.cmd RawGeometry.pbf RawGeometry.length
       RawGeometry.x RawGeometry.y RawGeometry.coordsLen
       RawGeometry.currentEnd RawGeometry.flatCoordinates RawGeometry.ends].
  rewrite (proj2 (Z.ltb_lt _ _) Hlt). reflexivity.
Qed.

Lemma reaches_cast (e : Z) (n m : nat) (s a b : RawGeometry.state) :
  reaches e n s a -> n = m -> a = b -> reaches e m s b.
Proof. intros H <- <-. exact H. Qed.

Lemma last_cons_default {A : Type} (l : list A) (a d : A) :
  last (a :: l) d = last l a.
Proof.
  revert a d. induction l as [| b l IH]; intros a d; [reflexivity |].
  change (last (a :: b :: l) d) with (last (b :: l) d).
  rewrite (IH b d), (IH b a). reflexivity.
Qed.

Lemma stepsFrom_snoc (n : nat) :
  forall s, stepsFrom s (S n) = stepsFrom s n ++ [s + 2 * Z.of_nat n].
Proof.
  induction n as [| n IH]; intros s.
  - cbn. f_equal. lia.
  - change (stepsFrom s (S (S n))) with (s :: stepsFrom (s + 2) (S n)).
    rewrite IH. cbn [stepsFrom app]. do 3 f_equal. lia.
Qed.

Lemma last_stepsFrom (n : nat) :
  forall s d,
    last (stepsFrom s n) d
    = match n with O => d | S n' => s + 2 * Z.of_nat n' end.
Proof.
  induction n as [| n IH]; intros s d; [reflexivity |].
  cbn [stepsFrom]. rewrite last_cons_default, IH.
  destruct n; lia.
Qed.

Lemma length_walkPoints (params : list (Z * Z)) :
  forall x y,
    List.length (walkPoints x y params) = (2 * List.length params)%nat.
Proof.
  induction params as [| [a b] rest IH]; intros x y; cbn [walkPoints];
    [reflexivity |].
  cbn [List.length]. rewrite IH. lia.
Qed.

(** The further points of a LineTo command whose count does not run out
    before them. *)
Lemma run_lineTo (e : Z) (params : list (Z * Z)) :
  forall q0 q k x y cl cur flat ends,
    Z.of_nat (List.length params) <= k \/ k < 0 ->
    reads q0 (paramTokens params) q ->
    pos q <= e ->
    reaches e (List.length params)
      (RawGeometry.mk q0 2 k x y cl cur flat ends)
      (RawGeometry.mk q 2 (k - Z.of_nat (List.length params))
         (fst (cursorAfter x y params)) (snd (cursorAfter x y params))
         (cl + 2 * Z.of_nat (List.length params)) cur
         (flat ++ walkPoints x y params) ends).
Proof.
  induction params as [| [a b] rest IH];
    intros q0 q k x y cl cur flat ends Hk Hr Hq.
  - inversion Hr; subst. cbn [List.length walkPoints cursorAfter fst snd].
    eapply reaches_cast; [apply reaches_here | reflexivity |].
    f_equal; [lia | lia | rewrite app_nil_r; reflexivity].
  - cbn [paramTokens flat_map app fst snd] in Hr.
    inversion Hr as [| ? p1 ? ? ? Ha Hr1]; subst.
    inversion Hr1 as [| ? p2 ? ? ? Hb Hr2]; subst.
    pose proof (readVarint_pos _ _ _ Ha) as Pa.
    pose proof (readVarint_pos _ _ _ Hb) as Pb.
    pose proof (reads_pos _ _ _ Hr2) as Pr.
    cbn [List.length walkPoints cursorAfter] in *.
    eapply reaches_turn.
    + cbn [RawGeometry.pbf]. lia.
    + apply (turn_point q0 p1 p2 2); [right; reflexivity | lia | exact Ha
                                     | exact Hb].
    + change ((2 =? 1) && (cur <? cl)) with false. cbv iota.
      eapply reaches_cast.
      * apply (IH p2 q (k - 1) (addNumber x (zigzag a)) (addNumber y (zigzag b)) (cl + 2) cur
                 (flat ++ [addNumber x (zigzag a); addNumber y (zigzag b)]) ends);
          [lia | exact Hr2 | exact Hq].
      * reflexivity.
      * f_equal; [lia | lia | rewrite <- app_assoc; reflexivity].
Qed.

(** The further points of a MoveTo command: each of them ends the sub-path
    of the point before it. *)
Lemma run_moveTo (e : Z) (params : list (Z * Z)) :
  forall q0 q x y cl cur flat ends,
    cur < cl ->
    reads q0 (paramTokens params) q ->
    pos q <= e ->
    reaches e (List.length params)
      (RawGeometry.mk q0 1 (Z.of_nat (List.length params)) x y cl cur flat
         ends)
      (RawGeometry.mk q 1 0
         (fst (cursorAfter x y params)) (snd (cursorAfter x y params))
         (cl + 2 * Z.of_nat (List.length params))
         (last (stepsFrom cl (List.length params)) cur)
         (flat ++ walkPoints x y params)
         (ends ++ stepsFrom cl (List.length params))).
Proof.
  induction params as [| [a b] rest IH];
    intros q0 q x y cl cur flat ends Hlt Hr Hq.
  - inversion Hr; subst.
    cbn [List.length walkPoints cursorAfter fst snd stepsFrom last].
    eapply reaches_cast; [apply reaches_here | reflexivity |].
    f_equal; [lia | rewrite app_nil_r; reflexivity
             | rewrite app_nil_r; reflexivity].
  - cbn [paramTokens flat_map app fst snd] in Hr.
    inversion Hr as [| ? p1 ? ? ? Ha Hr1]; subst.
    inversion Hr1 as [| ? p2 ? ? ? Hb Hr2]; subst.
    pose proof (readVarint_pos _ _ _ Ha) as Pa.
    pose proof (readVarint_pos _ _ _ Hb) as Pb.
    pose proof (reads_pos _ _ _ Hr2) as Pr.
    cbn [List.length walkPoints cursorAfter stepsFrom].
    eapply reaches_turn.
    + cbn [RawGeometry.pbf]. lia.
    + apply (turn_point q0 p1 p2 1); [left; reflexivity | lia | exact Ha
                                     | exact Hb].
    + rewrite (proj2 (Z.ltb_lt _ _) Hlt).
      change ((1 =? 1) && true) with true. cbv iota.
      eapply reaches_cast.
      * replace (Z.of_nat (S (List.length rest)) - 1)
          with (Z.of_nat (List.length rest)) by lia.
        apply (IH p2 q (addNumber x (zigzag a)) (addNumber y (zigzag b)) (cl + 2) cl
                 (flat ++ [addNumber x (zigzag a); addNumber y (zigzag b)]) (ends ++ [cl]));
          [lia | exact Hr2 | exact Hq].
      * reflexivity.
      * rewrite last_cons_default.
        f_equal; [lia | rewrite <- app_assoc; reflexivity
                 | rewrite <- app_assoc; reflexivity].
Qed.

(** A turn that reads the command integer of a ClosePath with the count 1
    when no sub-path has content: nothing is appended. *)
Lemma turn_closePath_empty (q0 p0 : PBF) (c0 x y cl cur : Z)
    (flat ends : list Z) :
  cl <= cur ->
  readVarint q0 = Ok (commandInteger 7 1, p0) ->
  RawGeometry.iteration (RawGeometry.mk q0 c0 0 x y cl cur flat ends)
  = Ok (RawGeometry.mk p0 7 0 x y cl cur flat ends).
Proof.
  intros Hle Hh.
  destruct (commandInteger_decode 7 1) as [Ec En]; [lia | lia |].
  unfold RawGeometry.iteration, RawGeometry.readCommand.
  cbn [RawGeometry.length RawGeometry.pbf].
  rewrite Z.eqb_refl, Hh.
  cbn [bind RawGeometry.cmd RawGeometry.pbf RawGeometry.length
       RawGeometry.x RawGeometry.y RawGeometry.coordsLen
       RawGeometry.currentEnd RawGeometry.flatCoordinates RawGeometry.ends].
  rewrite Ec, En.
  change ((7 =? 1) || (7 =? 2)) with false. change (7 =? 7) with true.
  cbn [bind]. unfold RawGeometry.closePath.
  cbn [RawGeometry.cmd RawGeometry.pbf RawGeometry.length
       RawGeometry.x RawGeometry.y RawGeometry.coordsLen
       RawGeometry.currentEnd RawGeometry.flatCoordinates RawGeometry.ends].
  rewrite (proj2 (Z.ltb_ge _ _) Hle). reflexivity.
Qed.

Lemma coordAt_app (flat l : list Z) (k : nat) :
  RawGeometry.coordAt (flat ++ l) (Z.of_nat (List.length flat) + Z.of_nat k)
  = nth k l 0.
Proof.
  unfold RawGeometry.coordAt.
  replace (Z.to_nat (Z.of_nat (List.length flat) + Z.of_nat k))
    with (List.length flat + k)%nat by lia.
  rewrite app_nth2 by lia. f_equal. lia.
Qed.

Lemma coordAt_app_left (flat l : list Z) (i : Z) :
  0 <= i < Z.of_nat (List.length flat) ->
  RawGeometry.coordAt (flat ++ l) i = RawGeometry.coordAt flat i.
Proof.
  intros Hi. unfold RawGeometry.coordAt. apply app_nth1. lia.
Qed.

(** The last point of a walk is where the cursor is after it. *)
Lemma walkPoints_last (params : list (Z * Z)) :
  forall x y a b,
    nth (2 * List.length params) (walkPoints x y ((a, b) :: params)) 0
    = fst (cursorAfter x y ((a, b) :: params)) /\
    nth (2 * List.length params + 1) (walkPoints x y ((a, b) :: params)) 0
    = snd (cursorAfter x y ((a, b) :: params)).
Proof.
  induction params as [| [a' b'] rest IH]; intros x y a b.
  - split; reflexivity.
  - destruct (IH (addNumber x (zigzag a)) (addNumber y (zigzag b)) a' b')
      as [Hx Hy].
    cbn [List.length].
    replace (2 * S (List.length rest))%nat
      with (S (S (2 * List.length rest))) by lia.
    change (walkPoints x y ((a, b) :: (a', b') :: rest))
      with (addNumber x (zigzag a) :: addNumber y (zigzag b)
            :: walkPoints (addNumber x (zigzag a)) (addNumber y (zigzag b))
                 ((a', b') :: rest)).
    change (cursorAfter x y ((a, b) :: (a', b') :: rest))
      with (cursorAfter (addNumber x (zigzag a)) (addNumber y (zigzag b))
              ((a', b') :: rest)).
    cbn [nth Nat.add]. split; [exact Hx | exact Hy].
Qed.

(** ** The running cursor *)

(** The turns of one command, from a state between two commands. *)
Lemma run_command (e : Z) (c : command) :
  forall q0 q c0 x y cur flat ends origin,
    wellFormedCommand c ->
    originInv origin cur flat ->
    reads q0 (commandTokens c) q ->
    pos q <= e ->
    exists c1 cur1 ends1 chunk x1 y1 origin1,
      drawn x y origin [c] = chunk ++ [] /\
      (forall rest,
         drawn x y origin (c :: rest) = chunk ++ drawn x1 y1 origin1 rest) /\
      originInv origin1 cur1 (flat ++ chunk) /\
      reaches e (commandTurns c)
        (RawGeometry.mk q0 c0 0 x y (Z.of_nat (List.length flat)) cur flat
           ends)
        (RawGeometry.mk q c1 0 x1 y1
           (Z.of_nat (List.length (flat ++ chunk))) cur1 (flat ++ chunk)
           ends1).
Proof.
  intros q0 q c0 x y cur flat ends origin Hwf Hinv Hr Hq.
  set (cl := Z.of_nat (List.length flat)) in *.
  assert (Hcur : 0 <= cur <= cl).
  { destruct origin as [[ox oy] |]; cbn [originInv] in Hinv.
    - lia.
    - destruct Hinv as [-> ->]. cbn in cl. subst cl. lia. }
  destruct c as [params | params |].
  - (* MoveTo *)
    destruct params as [| [a b] rest]; [cbn in Hwf; lia |].
    cbn [commandTokens paramTokens flat_map app fst snd] in Hr.
    change (flat_map (fun ab : Z * Z => [fst ab; snd ab]) rest)
      with (paramTokens rest) in Hr.
    inversion Hr as [| ? p1 ? ? ? H1 Hr1]; subst.
    inversion Hr1 as [| ? p2 ? ? ? H2 Hr2]; subst.
    inversion Hr2 as [| ? p3 ? ? ? H3 Hr3]; subst.
    pose proof (readVarint_pos _ _ _ H1) as P1.
    pose proof (readVarint_pos _ _ _ H2) as P2.
    pose proof (readVarint_pos _ _ _ H3) as P3.
    pose proof (reads_pos _ _ _ Hr3) as Pr.
    set (n := List.length rest) in *.
    set (xa := addNumber x (zigzag a)). set (ya := addNumber y (zigzag b)).
    set (chunk := walkPoints x y ((a, b) :: rest)).
    assert (Lc : Z.of_nat (List.length (flat ++ chunk))
                 = cl + 2 + 2 * Z.of_nat n).
    { unfold chunk. rewrite length_app, length_walkPoints.
      cbn [List.length]. fold n. unfold cl. lia. }
    assert (Hcur1 : (if (1 =? 1) && (cur <? cl) then cl else cur) = cl).
    { change ((1 =? 1) && (cur <? cl)) with (cur <? cl).
      destruct (Z.ltb_spec cur cl); [reflexivity |].
      destruct origin as [[ox oy] |]; cbn [originInv] in Hinv; lia. }
    exists 1, (cl + 2 * Z.of_nat n),
      ((if (1 =? 1) && (cur <? cl) then ends ++ [cl] else ends)
       ++ stepsFrom (cl + 2) n),
      chunk,
      (fst (cursorAfter x y ((a, b) :: rest))),
      (snd (cursorAfter x y ((a, b) :: rest))),
      (Some (cursorAfter x y ((a, b) :: rest))).
    split; [cbn [drawn]; reflexivity |].
    split; [intros rest0; cbn [drawn]; reflexivity |].
    split.
    + destruct (walkPoints_last rest x y a b) as [Hx Hy].
      destruct (cursorAfter x y ((a, b) :: rest)) as [cx cy] eqn:Ec.
      cbn [originInv fst snd] in *.
      split; [lia |]. split; [lia |]. split.
      * rewrite <- Hx. unfold cl.
        replace (2 * Z.of_nat n) with (Z.of_nat (2 * n)) by lia.
        apply coordAt_app.
      * rewrite <- Hy. unfold cl.
        replace (Z.of_nat (List.length flat) + 2 * Z.of_nat n + 1)
          with (Z.of_nat (List.length flat) + Z.of_nat (2 * n + 1)) by lia.
        apply coordAt_app.
    + cbn [commandTurns List.length]. fold n.
      eapply reaches_turn.
      * cbn [RawGeometry.pbf]. lia.
      * apply (turn_command q0 p1 p2 p3 c0 1 (Z.of_nat (S n)) x y cl cur a b
                 flat ends);
          [left; reflexivity
          | cbn [wellFormedCommand List.length] in Hwf; fold n in Hwf; lia
          | exact H1 | exact H2 | exact H3].
      * fold xa ya. rewrite Hcur1.
        eapply reaches_cast.
        -- replace (Z.of_nat (S n) - 1) with (Z.of_nat n) by lia.
           apply (run_moveTo e rest p3 q xa ya (cl + 2) cl
                    (flat ++ [xa; ya])
                    (if (1 =? 1) && (cur <? cl) then ends ++ [cl] else ends));
             [lia | exact Hr3 | exact Hq].
        -- reflexivity.
        -- rewrite Lc. rewrite last_stepsFrom.
           unfold chunk. cbn [walkPoints cursorAfter]. fold xa ya. fold n.
           f_equal; [destruct n; lia
                    | rewrite <- app_assoc; reflexivity].
  - (* LineTo *)
    destruct params as [| [a b] rest]; [cbn in Hwf; lia |].
    cbn [commandTokens paramTokens flat_map app fst snd] in Hr.
    change (flat_map (fun ab : Z * Z => [fst ab; snd ab]) rest)
      with (paramTokens rest) in Hr.
    inversion Hr as [| ? p1 ? ? ? H1 Hr1]; subst.
    inversion Hr1 as [| ? p2 ? ? ? H2 Hr2]; subst.
    inversion Hr2 as [| ? p3 ? ? ? H3 Hr3]; subst.
    pose proof (readVarint_pos _ _ _ H1) as P1.
    pose proof (readVarint_pos _ _ _ H2) as P2.
    pose proof (readVarint_pos _ _ _ H3) as P3.
    pose proof (reads_pos _ _ _ Hr3) as Pr.
    set (n := List.length rest) in *.
    set (xa := addNumber x (zigzag a)). set (ya := addNumber y (zigzag b)).
    set (chunk := walkPoints x y ((a, b) :: rest)).
    assert (Lc : Z.of_nat (List.length (flat ++ chunk))
                 = cl + 2 + 2 * Z.of_nat n).
    { unfold chunk. rewrite length_app, length_walkPoints.
      cbn [List.length]. fold n. unfold cl. lia. }
    exists 2, cur, ends, chunk,
      (fst (cursorAfter x y ((a, b) :: rest))),
      (snd (cursorAfter x y ((a, b) :: rest))),
      (match origin with
       | Some o => Some o
       | None => firstPoint x y ((a, b) :: rest)
       end).
    split; [cbn [drawn]; reflexivity |].
    split; [intros rest0; cbn [drawn]; reflexivity |].
    split.
    + destruct origin as [[ox oy] |]; cbn [originInv firstPoint] in *.
      * destruct Hinv as (I1 & I2 & I3 & I4). fold cl in I2.
        split; [lia |]. split; [lia |].
        rewrite !coordAt_app_left by (fold cl; lia).
        split; assumption.
      * destruct Hinv as [-> ->]. cbn [app].
        split; [lia |].
        split; [unfold chunk; rewrite length_walkPoints;
                cbn [List.length]; lia |].
        split; reflexivity.
    + cbn [commandTurns List.length]. fold n.
      eapply reaches_turn.
      * cbn [RawGeometry.pbf]. lia.
      * apply (turn_command q0 p1 p2 p3 c0 2 (Z.of_nat (S n)) x y cl cur a b
                 flat ends);
          [right; reflexivity
          | cbn [wellFormedCommand List.length] in Hwf; fold n in Hwf; lia
          | exact H1 | exact H2 | exact H3].
      * change ((2 =? 1) && (cur <? cl)) with false. cbv iota.
        fold xa ya.
        eapply reaches_cast.
        -- apply (run_lineTo e rest p3 q (Z.of_nat (S n) - 1) xa ya (cl + 2)
                    cur (flat ++ [xa; ya]) ends);
             [left; unfold n; lia | exact Hr3 | exact Hq].
        -- reflexivity.
        -- rewrite Lc. unfold chunk. cbn [walkPoints cursorAfter].
           fold xa ya. fold n.
           f_equal; [lia | rewrite <- app_assoc; reflexivity].
  - (* ClosePath *)
    cbn [commandTokens] in Hr.
    inversion Hr as [| ? p1 ? ? ? H1 Hr1]; subst. inversion Hr1; subst.
    pose proof (readVarint_pos _ _ _ H1) as P1.
    destruct origin as [[ox oy] |]; cbn [originInv] in Hinv.
    + destruct Hinv as (I1 & I2 & I3 & I4). fold cl in I2.
      exists 7, cur, ends, [ox; oy], x, y, (Some (ox, oy)).
      split; [cbn [drawn]; reflexivity |].
      split; [intros rest0; cbn [drawn]; reflexivity |].
      split.
      * cbn [originInv]. rewrite length_app. cbn [List.length].
        split; [lia |]. split; [fold cl; lia |].
        rewrite !coordAt_app_left by (fold cl; lia).
        split; assumption.
      * cbn [commandTurns].
        eapply reaches_turn; [cbn [RawGeometry.pbf]; lia | | apply reaches_here].
        rewrite (turn_closePath q0 q c0 x y cl cur flat ends);
          [| lia | exact H1].
        rewrite I3, I4. do 2 f_equal.
        rewrite length_app. cbn [List.length]. unfold cl. lia.
    + destruct Hinv as [-> ->].
      exists 7, 0, ends, [], x, y, None.
      split; [cbn [drawn]; reflexivity |].
      split; [intros rest0; cbn [drawn]; reflexivity |].
      split; [cbn [originInv app]; split; reflexivity |].
      cbn [commandTurns app].
      eapply reaches_turn;
        [cbn [RawGeometry.pbf]; lia | | apply reaches_here].
      apply turn_closePath_empty; [cbn; lia | exact H1].
Qed.

(** The turns of a list of commands. *)
Lemma run_commands (e : Z) (cmds : list command) :
  forall q0 q c0 x y cur flat ends origin,
    Forall wellFormedCommand cmds ->
    originInv origin cur flat ->
    reads q0 (flat_map commandTokens cmds) q ->
    pos q <= e ->
    exists s',
      reaches e (commandsTurns cmds)
        (RawGeometry.mk q0 c0 0 x y (Z.of_nat (List.length flat)) cur flat
           ends) s' /\
      RawGeometry.pbf s' = q /\
      RawGeometry.flatCoordinates s' = flat ++ drawn x y origin cmds.
Proof.
  induction cmds as [| c rest IH];
    intros q0 q c0 x y cur flat ends origin Hwf Hinv Hr Hq.
  - cbn [flat_map] in Hr. inversion Hr; subst.
    eexists. split; [apply reaches_here |].
    split; [reflexivity |]. cbn [drawn RawGeometry.flatCoordinates].
    rewrite app_nil_r. reflexivity.
  - cbn [flat_map] in Hr.
    destruct (reads_app_inv _ _ _ _ Hr) as (m & Hc & Hrest).
    inversion Hwf as [| ? ? Hwf1 Hwf2]; subst.
    pose proof (reads_pos _ _ _ Hrest) as Prest.
    destruct (run_command e c q0 m c0 x y cur flat ends origin Hwf1 Hinv Hc)
      as (c1 & cur1 & ends1 & chunk & x1 & y1 & origin1
          & _ & Hdrawn & Hinv1 & Hre1); [lia |].
    destruct (IH m q c1 x1 y1 cur1 (flat ++ chunk) ends1 origin1 Hwf2 Hinv1
                Hrest Hq) as (s' & Hre & Hpbf & Hflat).
    exists s'. split; [| split; [exact Hpbf |]].
    + unfold commandsTurns. cbn [map list_sum].
      eapply reaches_trans; [exact Hre1 | exact Hre].
    + rewrite Hflat, Hdrawn, app_assoc. reflexivity.
Qed.

Lemma addNumber_exact (a b : Z) :
  - 9007199254740992 <= a + b <= 9007199254740992 ->
  addNumber a b = a + b.
Proof.
  intros H. unfold addNumber, roundDouble.
  destruct (Z.ltb_spec (Z.abs (a + b)) 9007199254740992) as [Hlt | Hge];
    [reflexivity |].
  assert (E : a + b = 9007199254740992 \/ a + b = - 9007199254740992) by lia.
  destruct E as [-> | ->]; vm_compute; reflexivity.
Qed.

Lemma finish_flatCoordinates (s : RawGeometry.state) :
  RawGeometry.flatCoordinates (RawGeometry.finish s)
  = RawGeometry.flatCoordinates s.
Proof.
  unfold RawGeometry.finish.
  destruct (RawGeometry.currentEnd s <? RawGeometry.coordsLen s);
    reflexivity.
Qed.

(** C8: each decoded coordinate pair is the zig-zag-varint-decoded delta added
    to a running (x, y) cursor.  The cursor starts at (0, 0); a turn of the
    loop on a MoveTo (1) or LineTo (2) command reads two varints, adds their
    zig-zag values to the cursor and appends the new cursor to
    [flatCoordinates], on a MoveTo exactly as on a LineTo, so the first point
    of a sub-path is relative to the last point decoded before it; a
    ClosePath (7) turn leaves the cursor alone.  No turn resets the cursor:
    for a geometry whose stream is a list of commands (MoveTo and LineTo
    with their points, ClosePath with the count 1), [readRawGeometry_]
    returns, and the coordinates it yields are those of the running cursor
    of the specification, every pair relative to the pair decoded before
    it, also across sub-paths, where a ClosePath repeats the first point of
    its sub-path and leaves the cursor where it was.  The deltas are added
    the way the code adds numbers, which is the sum of the integers as long
    as that is at most 2^53 in magnitude. *)
Theorem C8_running_cursor :
  (forall p flat ends0,
      RawGeometry.x (RawGeometry.init p flat ends0) = 0 /\
      RawGeometry.y (RawGeometry.init p flat ends0) = 0) /\
  (forall s s1 s',
      RawGeometry.readCommand s = Ok s1 ->
      RawGeometry.cmd s1 = 1 \/ RawGeometry.cmd s1 = 2 ->
      RawGeometry.iteration s = Ok s' ->
      exists n1 p1 n2 p2,
        readVarint (RawGeometry.pbf s1) = Ok (n1, p1) /\
        readVarint p1 = Ok (n2, p2) /\
        RawGeometry.x s' = addNumber (RawGeometry.x s) (zigzag n1) /\
        RawGeometry.y s' = addNumber (RawGeometry.y s) (zigzag n2) /\
        RawGeometry.flatCoordinates s'
        = RawGeometry.flatCoordinates s
            ++ [RawGeometry.x s'; RawGeometry.y s']) /\
  (forall s s1 s',
      RawGeometry.readCommand s = Ok s1 ->
      RawGeometry.cmd s1 = 7 ->
      RawGeometry.iteration s = Ok s' ->
      RawGeometry.x s' = RawGeometry.x s /\
      RawGeometry.y s' = RawGeometry.y s) /\
  (forall fuel p feature g size p1 cmds q,
      RawFeature.geometry feature = Some g ->
      readVarint (setPos p g) = Ok (size, p1) ->
      Forall wellFormedCommand cmds ->
      reads p1 (flat_map commandTokens cmds) q ->
      pos q = size + pos p1 ->
      (commandsTurns cmds <= fuel)%nat ->
      exists ends,
        readRawGeometry_ fuel p feature [] []
        = Ok (q, drawn 0 0 None cmds, ends)) /\
  (forall a b,
      - 9007199254740992 <= a + b <= 9007199254740992 ->
      addNumber a b = a + b).
Proof.
  split; [intros p flat ends0; split; reflexivity |].
  split.
  { intros s s1 s' Hr Hc Hi.
    rewrite (iteration_moveOrLineTo _ _ Hr Hc) in Hi.
    destruct (readCommand_frame _ _ Hr) as (Hx & Hy & _ & _ & Hf & _).
    apply moveOrLineTo_Ok_inv in Hi.
    destruct Hi as (n1 & p1 & n2 & p2 & E1 & E2 & ->).
    exists n1, p1, n2, p2. simpl. rewrite Hx, Hy, Hf.
    repeat split; assumption. }
  split.
  { intros s s1 s' Hr Hc Hi.
    rewrite (iteration_closePath _ _ Hr Hc) in Hi. injection Hi as <-.
    destruct (readCommand_frame _ _ Hr) as (Hx & Hy & _).
    unfold RawGeometry.closePath.
    destruct (RawGeometry.currentEnd s1 <? RawGeometry.coordsLen s1);
      simpl; split; assumption. }
  split; [| exact addNumber_exact].
  intros fuel p feature g size p1 cmds q Hg Hsize Hwf Hr Hq Hfuel.
  destruct (run_commands (size + pos p1) cmds p1 q 1 0 0 0 [] [] None Hwf)
    as (s' & Hre & Hpbf & Hflat);
    [split; reflexivity | exact Hr | lia |].
  exists (RawGeometry.ends (RawGeometry.finish s')).
  unfold readRawGeometry_. rewrite Hg, Hsize. cbn [bind].
  unfold RawGeometry.init.
  rewrite (loop_of_reaches _ _ _ _ Hre); [| rewrite Hpbf; lia | exact Hfuel].
  cbn [bind]. rewrite finish_pbf, Hpbf, finish_flatCoordinates, Hflat.
  reflexivity.
Qed.

Lemma C8_running_cursor_witness :
  (exists n1 p1 n2 p2,
      readVarint (mkPBF twoPoints 4) = Ok (n1, p1) /\
      readVarint p1 = Ok (n2, p2) /\
      6 = addNumber 5 (zigzag n1) /\
      8 = addNumber 7 (zigzag n2) /\
      [5; 7; 6; 8] = [5; 7] ++ [6; 8]) /\
  (RawGeometry.x afterClosePath = RawGeometry.x beforeClosePath /\
   RawGeometry.y afterClosePath = RawGeometry.y beforeClosePath) /\
  (exists ends,
      readRawGeometry_ 6 (mkPBF mixedStream 0) (featureAt0 2) [] []
      = Ok (mkPBF mixedStream 29,
            [1; 2; 4503599627370497; 2; 9007199254740992; 3;
             9007199254740992; 3; 4503599627370497; 2;
             9007199254740991; 2], ends)) /\
  addNumber 4503599627370497 1 = 4503599627370497 + 1.
Proof.
  destruct C8_running_cursor as (_ & Hpoint & Hclose & Hcursor & Hexact).
  split; [| split; [| split]].
  - exact (Hpoint afterFirstPoint
             (RawGeometry.mk (mkPBF twoPoints 4) 1 0 5 7 2 0 [5; 7] [])
             (RawGeometry.mk (mkPBF twoPoints 6) 1 0 6 8 4 2 [5; 7; 6; 8] [2])
             eq_refl (or_introl eq_refl) eq_refl).
  - exact (Hclose beforeClosePath
             (RawGeometry.mk (mkPBF ringClosedTwice 10) 7 0 1 1 6 0
                [0; 0; 1; 0; 1; 1] [])
             afterClosePath eq_refl eq_refl eq_refl).
  - apply (Hcursor 6%nat (mkPBF mixedStream 0) (featureAt0 2) 0 28
             (mkPBF mixedStream 1) mixedCommands (mkPBF mixedStream 29)).
    + reflexivity.
    + vm_compute. reflexivity.
    + repeat constructor; cbn; lia.
    + apply (readVarints_reads 14). vm_compute. reflexivity.
    + reflexivity.
    + cbn. lia.
  - apply Hexact. lia.
Defined.

(** X10: a geometry made of one MoveTo command with [n] points (a point, or
    a multi-point) decodes to the [n] points the cursor visits from (0, 0),
    each delta added to the cursor as the code adds numbers ([addNumber]),
    and to the [n] ends 2, 4, ..., 2n: every point is a sub-path of its
    own.  The call returns as soon as the fuel covers the [n] turns. *)
Theorem readRawGeometry__of_points :
  forall fuel p feature g size p1 params q,
    RawFeature.geometry feature = Some g ->
    readVarint (setPos p g) = Ok (size, p1) ->
    1 <= Z.of_nat (List.length params) < 268435456 ->
    reads p1
      (commandInteger 1 (Z.of_nat (List.length params))
       :: paramTokens params) q ->
    pos q = size + pos p1 ->
    (List.length params <= fuel)%nat ->
    readRawGeometry_ fuel p feature [] []
    = Ok (q, walkPoints 0 0 params, stepsFrom 2 (List.length params)).
Proof.
  intros fuel p feature g size p1 params q Hg Hsize Hn Hr Hq Hfuel.
  destruct params as [| [a b] rest]; [cbn in Hn; lia |].
  cbn [paramTokens flat_map app fst snd] in Hr.
  inversion Hr as [| ? p2 ? ? ? Hh Hr1]; subst.
  inversion Hr1 as [| ? p3 ? ? ? Ha Hr2]; subst.
  inversion Hr2 as [| ? p4 ? ? ? Hb Hr3]; subst.
  pose proof (readVarint_pos _ _ _ Hh) as Ph.
  pose proof (readVarint_pos _ _ _ Ha) as Pa.
  pose proof (readVarint_pos _ _ _ Hb) as Pb.
  pose proof (reads_pos _ _ _ Hr3) as Pr.
  set (n := List.length rest) in *.
  assert (Hre : reaches (size + pos p1) (S n)
                  (RawGeometry.init p1 [] [])
                  (RawGeometry.mk q 1 0
                     (fst (cursorAfter (addNumber 0 (zigzag a)) (addNumber 0 (zigzag b)) rest))
                     (snd (cursorAfter (addNumber 0 (zigzag a)) (addNumber 0 (zigzag b)) rest))
                     (0 + 2 + 2 * Z.of_nat n)
                     (last (stepsFrom (0 + 2) n) 0)
                     (([] ++ [addNumber 0 (zigzag a); addNumber 0 (zigzag b)])
                      ++ walkPoints (addNumber 0 (zigzag a)) (addNumber 0 (zigzag b)) rest)
                     ([] ++ stepsFrom (0 + 2) n))).
  { unfold RawGeometry.init. eapply reaches_turn.
    - cbn [RawGeometry.pbf]. lia.
    - apply (turn_command p1 p2 p3 p4 1 1 (Z.of_nat (S n)));
        [left; reflexivity | cbn [List.length] in Hn; fold n in Hn; lia
        | exact Hh | exact Ha | exact Hb].
    - change ((1 =? 1) && (0 <? 0)) with false. cbv iota.
      replace (Z.of_nat (S n) - 1) with (Z.of_nat n) by lia.
      apply run_moveTo; [lia | exact Hr3 | lia]. }
  unfold readRawGeometry_. rewrite Hg, Hsize. cbn [bind].
  rewrite (loop_of_reaches _ _ _ _ Hre);
    [| cbn [RawGeometry.pbf]; lia | cbn [List.length] in Hfuel; unfold n; lia].
  cbn [bind]. unfold RawGeometry.finish.
  cbn [RawGeometry.pbf RawGeometry.coordsLen RawGeometry.currentEnd
       RawGeometry.flatCoordinates RawGeometry.ends].
  rewrite last_stepsFrom.
  replace ((match n with
            | O => 0
            | S n' => 0 + 2 + 2 * Z.of_nat n'
            end) <? 0 + 2 + 2 * Z.of_nat n) with true
    by (symmetry; apply Z.ltb_lt; destruct n; lia).
  cbn [RawGeometry.pbf RawGeometry.flatCoordinates RawGeometry.ends
       List.length walkPoints app].
  fold n. rewrite (stepsFrom_snoc n 2).
  repeat f_equal; lia.
Qed.

Lemma readRawGeometry__of_points_witness :
  readRawGeometry_ 3 (mkPBF threePoints 0) (featureAt0 1) [] []
  = Ok (mkPBF threePoints 8, [5; 7; 6; 8; 5; 6], [2; 4; 6]).
Proof.
  apply (readRawGeometry__of_points 3 (mkPBF threePoints 0) (featureAt0 1)
           0 7 (mkPBF threePoints 1) [(10, 14); (2, 2); (1, 3)]
           (mkPBF threePoints 8)).
  - reflexivity.
  - reflexivity.
  - cbn. lia.
  - repeat (eapply reads_cons; [reflexivity |]). apply reads_nil.
  - reflexivity.
  - cbn. lia.
Defined.

(** The turns of one sub-path, from a state between two commands. *)
Lemma run_path (e : Z) (sp : subPath) :
  forall q0 q c0 x y cur flat ends,
    wellFormedPath sp ->
    0 <= cur <= Z.of_nat (List.length flat) ->
    reads q0 (pathTokens sp) q ->
    pos q <= e ->
    reaches e (pathTurns sp)
      (RawGeometry.mk q0 c0 0 x y (Z.of_nat (List.length flat)) cur flat
         ends)
      (RawGeometry.mk q (if closed sp then 7 else 2) 0
         (fst (cursorAfter x y (start sp :: segments sp)))
         (snd (cursorAfter x y (start sp :: segments sp)))
         (Z.of_nat (List.length (flat ++ pathFlat x y sp)))
         (Z.of_nat (List.length flat))
         (flat ++ pathFlat x y sp)
         (if cur <? Z.of_nat (List.length flat)
          then ends ++ [Z.of_nat (List.length flat)] else ends)).
Proof.
  intros q0 q c0 x y cur flat ends Hwf Hcur Hr Hq.
  destruct sp as [[a0 b0] segs cz]. unfold wellFormedPath in Hwf.
  cbn [segments] in Hwf.
  destruct segs as [| [a1 b1] rest]; [cbn in Hwf; lia |].
  unfold pathTokens in Hr.
  cbn [start segments closed fst snd app paramTokens flat_map] in Hr.
  change (flat_map (fun ab : Z * Z => [fst ab; snd ab]) rest)
    with (paramTokens rest) in Hr.
  inversion Hr as [| ? p1 ? ? ? H1 Hr1]; subst.
  inversion Hr1 as [| ? p2 ? ? ? H2 Hr2]; subst.
  inversion Hr2 as [| ? p3 ? ? ? H3 Hr3]; subst.
  inversion Hr3 as [| ? p4 ? ? ? H4 Hr4]; subst.
  inversion Hr4 as [| ? p5 ? ? ? H5 Hr5]; subst.
  inversion Hr5 as [| ? p6 ? ? ? H6 Hr6]; subst.
  destruct (reads_app_inv _ _ _ _ Hr6) as (m & Hrest & Hclose).
  pose proof (readVarint_pos _ _ _ H1) as P1.
  pose proof (readVarint_pos _ _ _ H2) as P2.
  pose proof (readVarint_pos _ _ _ H3) as P3.
  pose proof (readVarint_pos _ _ _ H4) as P4.
  pose proof (readVarint_pos _ _ _ H5) as P5.
  pose proof (readVarint_pos _ _ _ H6) as P6.
  pose proof (reads_pos _ _ _ Hrest) as Prest.
  pose proof (reads_pos _ _ _ Hclose) as Pclose.
  set (cl := Z.of_nat (List.length flat)) in *.
  set (n := List.length rest) in *.
  set (x0 := addNumber x (zigzag a0)). set (y0 := addNumber y (zigzag b0)).
  set (x1 := addNumber x0 (zigzag a1)). set (y1 := addNumber y0 (zigzag b1)).
  set (ends1 := if cur <? cl then ends ++ [cl] else ends).
  set (flat3 := flat ++ x0 :: y0 :: x1 :: y1 :: walkPoints x1 y1 rest).
  assert (T1 : RawGeometry.iteration
                 (RawGeometry.mk q0 c0 0 x y cl cur flat ends)
               = Ok (RawGeometry.mk p3 1 0 x0 y0 (cl + 2) cl
                       (flat ++ [x0; y0]) ends1)).
  { rewrite (turn_command q0 p1 p2 p3 c0 1 1 x y cl cur a0 b0 flat ends);
      [| left; reflexivity | lia | exact H1 | exact H2 | exact H3].
    change ((1 =? 1) && (cur <? cl)) with (cur <? cl).
    fold x0 y0 ends1.
    destruct (Z.ltb_spec cur cl); do 2 f_equal; lia. }
  assert (T2 : RawGeometry.iteration
                 (RawGeometry.mk p3 1 0 x0 y0 (cl + 2) cl
                    (flat ++ [x0; y0]) ends1)
               = Ok (RawGeometry.mk p6 2 (Z.of_nat n) x1 y1 (cl + 4) cl
                       ((flat ++ [x0; y0]) ++ [x1; y1]) ends1)).
  { rewrite (turn_command p3 p4 p5 p6 1 2 (Z.of_nat (S n)) x0 y0 (cl + 2)
               cl a1 b1 (flat ++ [x0; y0]) ends1);
      [| right; reflexivity | cbn [List.length] in Hwf; fold n in Hwf; lia
       | exact H4 | exact H5 | exact H6].
    change ((2 =? 1) && (cl <? cl + 2)) with false. cbv iota.
    fold x1 y1. do 2 f_equal; lia. }
  assert (R3 : reaches e n
                 (RawGeometry.mk p6 2 (Z.of_nat n) x1 y1 (cl + 4) cl
                    ((flat ++ [x0; y0]) ++ [x1; y1]) ends1)
                 (RawGeometry.mk m 2 0
                    (fst (cursorAfter x1 y1 rest))
                    (snd (cursorAfter x1 y1 rest))
                    (cl + 4 + 2 * Z.of_nat n) cl flat3 ends1)).
  { eapply reaches_cast;
      [apply (run_lineTo e rest p6 m (Z.of_nat n) x1 y1 (cl + 4) cl
                ((flat ++ [x0; y0]) ++ [x1; y1]) ends1);
         [left; unfold n; lia | exact Hrest | lia]
      | reflexivity |].
    unfold flat3. fold n.
    f_equal; [lia | rewrite <- !app_assoc; reflexivity]. }
  assert (L3 : Z.of_nat (List.length flat3) = cl + 4 + 2 * Z.of_nat n).
  { unfold flat3. rewrite length_app. cbn [List.length].
    rewrite length_walkPoints. fold n. unfold cl. lia. }
  unfold pathTurns, pathFlat.
  cbn [start segments closed walkPoints cursorAfter List.length firstn].
  fold x0 y0 x1 y1 n.
  destruct cz.
  - inversion Hclose as [| ? q' ? ? ? H7 Hnil]; subst.
    inversion Hnil; subst.
    pose proof (readVarint_pos _ _ _ H7) as P7.
    eapply reaches_cast.
    + eapply reaches_turn; [cbn [RawGeometry.pbf]; lia | exact T1 |].
      eapply reaches_turn; [cbn [RawGeometry.pbf]; lia | exact T2 |].
      eapply reaches_trans; [exact R3 |].
      eapply reaches_turn; [cbn [RawGeometry.pbf]; lia | | apply reaches_here].
      apply turn_closePath; [lia | exact H7].
    + lia.
    + assert (Ex : RawGeometry.coordAt flat3 cl = x0).
      { unfold flat3, cl.
        rewrite <- (Z.add_0_r (Z.of_nat (List.length flat))).
        exact (coordAt_app flat
                 (x0 :: y0 :: x1 :: y1 :: walkPoints x1 y1 rest) 0). }
      assert (Ey : RawGeometry.coordAt flat3 (cl + 1) = y0).
      { unfold flat3, cl.
        exact (coordAt_app flat
                 (x0 :: y0 :: x1 :: y1 :: walkPoints x1 y1 rest) 1). }
      rewrite Ex, Ey.
      replace (flat ++
               (x0 :: y0 :: x1 :: y1 :: walkPoints x1 y1 rest) ++ [x0; y0])
        with (flat3 ++ [x0; y0])
        by (unfold flat3; rewrite <- app_assoc; reflexivity).
      f_equal. rewrite length_app. cbn [List.length]. lia.
  - inversion Hclose; subst.
    eapply reaches_cast.
    + eapply reaches_turn; [cbn [RawGeometry.pbf]; lia | exact T1 |].
      eapply reaches_turn; [cbn [RawGeometry.pbf]; lia | exact T2 |].
      exact R3.
    + lia.
    + rewrite app_nil_r. fold flat3. f_equal. lia.
Qed.

Lemma length_pathFlat (x y : Z) (sp : subPath) :
  Z.of_nat (List.length (pathFlat x y sp)) = pathSize sp.
Proof.
  unfold pathFlat, pathSize. destruct sp as [[a0 b0] segs cz].
  cbn [start segments closed walkPoints firstn].
  rewrite length_app. cbn [List.length]. rewrite length_walkPoints.
  destruct cz; cbn [List.length]; lia.
Qed.

(** The turns of a list of sub-paths, and the flush after them. *)
Lemma run_paths (e : Z) (paths : list subPath) :
  forall q0 q c0 x y cur flat ends,
    Forall wellFormedPath paths ->
    0 <= cur <= Z.of_nat (List.length flat) ->
    reads q0 (flat_map pathTokens paths) q ->
    pos q <= e ->
    exists s',
      reaches e (pathsTurns paths)
        (RawGeometry.mk q0 c0 0 x y (Z.of_nat (List.length flat)) cur flat
           ends) s' /\
      RawGeometry.pbf s' = q /\
      RawGeometry.flatCoordinates (RawGeometry.finish s')
      = flat ++ pathsFlat x y paths /\
      RawGeometry.ends (RawGeometry.finish s')
      = ends
        ++ (if cur <? Z.of_nat (List.length flat)
            then [Z.of_nat (List.length flat)] else [])
        ++ pathsEnds (Z.of_nat (List.length flat)) paths.
Proof.
  induction paths as [| sp rest IH];
    intros q0 q c0 x y cur flat ends Hwf Hcur Hr Hq.
  - cbn [flat_map] in Hr. inversion Hr; subst.
    eexists. split; [apply reaches_here |].
    split; [reflexivity |].
    unfold RawGeometry.finish.
    cbn [RawGeometry.currentEnd RawGeometry.coordsLen pathsFlat pathsEnds].
    destruct (cur <? Z.of_nat (List.length flat));
      cbn [RawGeometry.flatCoordinates RawGeometry.ends];
      rewrite !app_nil_r; split; reflexivity.
  - cbn [flat_map] in Hr.
    destruct (reads_app_inv _ _ _ _ Hr) as (m & Hsp & Hrest).
    inversion Hwf as [| ? ? Hwf1 Hwf2]; subst.
    pose proof (reads_pos _ _ _ Hrest) as Prest.
    pose proof (run_path e sp q0 m c0 x y cur flat ends Hwf1 Hcur Hsp) as R1.
    pose proof (length_pathFlat x y sp) as Lsp.
    assert (Hsize : 0 < pathSize sp).
    { unfold pathSize. destruct (closed sp); lia. }
    set (flat1 := flat ++ pathFlat x y sp) in *.
    assert (L1 : Z.of_nat (List.length flat1)
                 = Z.of_nat (List.length flat) + pathSize sp).
    { unfold flat1. rewrite length_app. lia. }
    destruct (IH m q (if closed sp then 7 else 2)
                (fst (cursorAfter x y (start sp :: segments sp)))
                (snd (cursorAfter x y (start sp :: segments sp)))
                (Z.of_nat (List.length flat)) flat1
                (if cur <? Z.of_nat (List.length flat)
                 then ends ++ [Z.of_nat (List.length flat)] else ends)
                Hwf2) as (s' & Hre & Hpbf & Hflat & Hends);
      [lia | exact Hrest | exact Hq |].
    exists s'. split; [| split; [exact Hpbf | split]].
    + unfold pathsTurns. cbn [map list_sum].
      eapply reaches_trans; [apply R1; lia | exact Hre].
    + rewrite Hflat. unfold flat1. cbn [pathsFlat].
      rewrite <- app_assoc. reflexivity.
    + rewrite Hends. cbn [pathsEnds].
      rewrite (proj2 (Z.ltb_lt (Z.of_nat (List.length flat))
                        (Z.of_nat (List.length flat1)))) by lia.
      rewrite L1.
      destruct (cur <? Z.of_nat (List.length flat));
        rewrite <- ?app_assoc; reflexivity.
Qed.

(** X11: a geometry made of sub-paths, each a MoveTo with one point, a
    LineTo with at least one point and, for a ring, a ClosePath with the
    count 1, decodes to the points the cursor visits from (0, 0), each delta
    added to the cursor as the code adds numbers ([addNumber]), each ring
    followed by its first point once more, and to one end per sub-path, at
    the running number of coordinates.  The cursor goes on from the last
    point of a ring that was drawn, not from the point that closes it.  The
    call returns as soon as the fuel covers one turn per point and per
    ClosePath. *)
Theorem readRawGeometry__of_sub_paths :
  forall fuel p feature g size p1 paths q,
    RawFeature.geometry feature = Some g ->
    readVarint (setPos p g) = Ok (size, p1) ->
    Forall wellFormedPath paths ->
    reads p1 (flat_map pathTokens paths) q ->
    pos q = size + pos p1 ->
    (pathsTurns paths <= fuel)%nat ->
    readRawGeometry_ fuel p feature [] []
    = Ok (q, pathsFlat 0 0 paths, pathsEnds 0 paths).
Proof.
  intros fuel p feature g size p1 paths q Hg Hsize Hwf Hr Hq Hfuel.
  destruct (run_paths (size + pos p1) paths p1 q 1 0 0 0 [] [] Hwf)
    as (s' & Hre & Hpbf & Hflat & Hends);
    [cbn; lia | exact Hr | lia |].
  unfold readRawGeometry_. rewrite Hg, Hsize. cbn [bind].
  unfold RawGeometry.init.
  rewrite (loop_of_reaches _ _ _ _ Hre); [| rewrite Hpbf; lia | exact Hfuel].
  cbn [bind]. rewrite finish_pbf, Hpbf, Hflat, Hends. reflexivity.
Qed.

Lemma readRawGeometry__of_sub_paths_witness :
  readRawGeometry_ 10 (mkPBF twoExteriorRings 0) (featureAt0 3) [] []
  = Ok (mkPBF twoExteriorRings 23, twoExteriorRingsFlat, [10; 20]).
Proof.
  apply (readRawGeometry__of_sub_paths 10 (mkPBF twoExteriorRings 0)
           (featureAt0 3) 0 22 (mkPBF twoExteriorRings 1) twoExteriorPaths
           (mkPBF twoExteriorRings 23)).
  - reflexivity.
  - reflexivity.
  - repeat constructor; cbn; lia.
  - apply (readVarints_reads 22). vm_compute. reflexivity.
  - reflexivity.
  - cbn. lia.
Defined.

(** ** Where the features of a tile come from *)





(** ** A LineTo command that announces more points than the stream holds *)

(** X13: the count of a LineTo command is not checked against the stream.
    When a line's LineTo command announces more points than follow before
    the end of the geometry, or announces none, the points that do follow
    are decoded as the line, each delta added to the cursor as the code adds
    numbers ([addNumber]), and the call returns without an error: the line
    ends where the stream ends. *)
Theorem readRawGeometry__of_truncated_line :
  forall fuel p feature g size p1 a0 b0 count params q,
    RawFeature.geometry feature = Some g ->
    readVarint (setPos p g) = Ok (size, p1) ->
    (1 <= List.length params)%nat ->
    0 <= count < 268435456 ->
    count = 0 \/ Z.of_nat (List.length params) <= count ->
    reads p1
      (commandInteger 1 1 :: a0 :: b0
       :: commandInteger 2 count :: paramTokens params) q ->
    pos q = size + pos p1 ->
    (1 + List.length params <= fuel)%nat ->
    readRawGeometry_ fuel p feature [] []
    = Ok (q, walkPoints 0 0 ((a0, b0) :: params),
          [2 * (Z.of_nat (List.length params) + 1)]).
Proof.
  intros fuel p feature g size p1 a0 b0 count params q
         Hg Hsize Hn Hc Hcount Hr Hq Hfuel.
  destruct params as [| [a1 b1] rest]; [cbn in Hn; lia |].
  cbn [paramTokens flat_map app fst snd] in Hr.
  change (flat_map (fun ab : Z * Z => [fst ab; snd ab]) rest)
    with (paramTokens rest) in Hr.
  inversion Hr as [| ? p2 ? ? ? H1 Hr1]; subst.
  inversion Hr1 as [| ? p3 ? ? ? H2 Hr2]; subst.
  inversion Hr2 as [| ? p4 ? ? ? H3 Hr3]; subst.
  inversion Hr3 as [| ? p5 ? ? ? H4 Hr4]; subst.
  inversion Hr4 as [| ? p6 ? ? ? H5 Hr5]; subst.
  inversion Hr5 as [| ? p7 ? ? ? H6 Hr6]; subst.
  pose proof (readVarint_pos _ _ _ H1) as P1.
  pose proof (readVarint_pos _ _ _ H2) as P2.
  pose proof (readVarint_pos _ _ _ H3) as P3.
  pose proof (readVarint_pos _ _ _ H4) as P4.
  pose proof (readVarint_pos _ _ _ H5) as P5.
  pose proof (readVarint_pos _ _ _ H6) as P6.
  pose proof (reads_pos _ _ _ Hr6) as Pr.
  cbn [List.length] in Hcount, Hfuel.
  set (n := List.length rest) in *.
  set (x0 := addNumber 0 (zigzag a0)). set (y0 := addNumber 0 (zigzag b0)).
  set (x1 := addNumber x0 (zigzag a1)). set (y1 := addNumber y0 (zigzag b1)).
  assert (Hre : reaches (size + pos p1) (S (S n))
                  (RawGeometry.init p1 [] [])
                  (RawGeometry.mk q 2 (count - 1 - Z.of_nat n)
                     (fst (cursorAfter x1 y1 rest))
                     (snd (cursorAfter x1 y1 rest))
                     (0 + 2 + 2 + 2 * Z.of_nat n) 0
                     ((([] ++ [x0; y0]) ++ [x1; y1])
                      ++ walkPoints x1 y1 rest) [])).
  { unfold RawGeometry.init.
    eapply reaches_turn.
    - cbn [RawGeometry.pbf]. lia.
    - apply (turn_command p1 p2 p3 p4 1 1 1 0 0 0 0 a0 b0 [] []);
        [left; reflexivity | lia | exact H1 | exact H2 | exact H3].
    - change ((1 =? 1) && (0 <? 0)) with false. cbv iota.
      change (1 - 1) with 0. fold x0 y0.
      eapply reaches_turn.
      + cbn [RawGeometry.pbf]. lia.
      + apply (turn_command p4 p5 p6 p7 1 2 count x0 y0 (0 + 2) 0 a1 b1);
          [right; reflexivity | exact Hc | exact H4 | exact H5 | exact H6].
      + change ((2 =? 1) && (0 <? 0 + 2)) with false. cbv iota.
        fold x1 y1.
        apply run_lineTo; [unfold n; lia | exact Hr6 | lia]. }
  unfold readRawGeometry_. rewrite Hg, Hsize. cbn [bind].
  rewrite (loop_of_reaches _ _ _ _ Hre);
    [| cbn [RawGeometry.pbf]; lia | unfold n; lia].
  cbn [bind]. unfold RawGeometry.finish.
  cbn [RawGeometry.pbf RawGeometry.coordsLen RawGeometry.currentEnd
       RawGeometry.flatCoordinates RawGeometry.ends].
  replace (0 <? 0 + 2 + 2 + 2 * Z.of_nat n) with true
    by (symmetry; apply Z.ltb_lt; lia).
  cbn [RawGeometry.pbf RawGeometry.flatCoordinates RawGeometry.ends
       List.length walkPoints app].
  fold x0 y0 x1 y1 n.
  do 3 f_equal. lia.
Qed.

Lemma readRawGeometry__of_truncated_line_witness :
  readRawGeometry_ 3 (mkPBF truncatedLine 0) (featureAt0 2) [] []
  = Ok (mkPBF truncatedLine 9, [0; 0; 1; 0; 1; 1], [6]).
Proof.
  apply (readRawGeometry__of_truncated_line 3 (mkPBF truncatedLine 0)
           (featureAt0 2) 0 8 (mkPBF truncatedLine 1) 0 0 5
           [(2, 0); (0, 2)] (mkPBF truncatedLine 9)).
  - reflexivity.
  - vm_compute. reflexivity.
  - cbn. lia.
  - lia.
  - right. cbn. lia.
  - apply (readVarints_reads 8). vm_compute. reflexivity.
  - reflexivity.
  - cbn. lia.
Defined.

(** ** The format object over its life *)

Lemma lastExtent_square (slots : list (string * LayerSlot))
    (before : option (list (option Z))) :
  squareExtent before -> squareExtent (lastExtent slots before).
Proof.
  intros Hb. unfold lastExtent.
  destruct (List.rev slots) as [| [name slot] rest]; [exact Hb |].
  destruct slot as [layer | n | n | s]; cbn [slotExtent].
  - right. exists (RawLayer.extent layer). reflexivity.
  - right. exists None. reflexivity.
  - destruct (n =? 0); [left; reflexivity | right; exists None; reflexivity].
  - destruct (String.eqb s "");
      [left; reflexivity | right; exists None; reflexivity].
Qed.

(** X14: what holds of a format object at any time, after the constructor
    and any calls of [setLayers] and [readFeatures]: the name of the layer
    property, [layerName_], is not the empty string (an empty or missing
    [layerName] option gives "layer"), so that no feature gets its layer
    name under an empty key; and [getLastExtent()] answers null or a square
    [[0, 0, e, e]]. *)
Theorem built_format_invariant :
  forall this,
    built this ->
    layerName_ this <> ""%string /\ squareExtent (getLastExtent this).
Proof.
  induction 1 as [opt | layers this Hb [IHn IHe]
                 | fuel source this this' features Hb [IHn IHe] Hread].
  - split; [| left; reflexivity].
    unfold newMVT. cbn [layerName_].
    destruct opt as [[fc gn [ln |] ls] |]; cbn [Options.layerName truthyName];
      try discriminate.
    destruct (String.eqb_spec ln ""); [discriminate | assumption].
  - split; assumption.
  - unfold readFeatures in Hread. inv_bind Hread.
    destruct a as [pbfLayers p1].
    destruct (layersLoop_extent fuel this (forInLayers pbfLayers) this p1 []
                this' features (sameOptions_refl this) Hread)
      as [(_ & _ & Hname & _) Hext].
    split; [rewrite Hname; exact IHn |].
    unfold getLastExtent in *. rewrite Hext.
    apply lastExtent_square. exact IHe.
Qed.

Lemma built_format_invariant_witness :
  layerName_
    (mkMVT RenderFeature None "layer" (Some ["a"%string])
       (Some [Some 0; Some 0; Some 4096; Some 4096])) <> ""%string /\
  squareExtent
    (getLastExtent
       (mkMVT RenderFeature None "layer" (Some ["a"%string])
          (Some [Some 0; Some 0; Some 4096; Some 4096]))).
Proof.
  apply built_format_invariant.
  apply (built_readFeatures 100 repeatedLayerTile
           (setLayers ["a"%string]
              (newMVT (Some (Options.mk None None (Some ""%string) None))))
           _ repeatedLayerFeatures).
  - apply built_setLayers. apply built_new.
  - vm_compute. reflexivity.
Defined.
